(** * Vellum app-icon generator ([generate_icon.py]): model and verification

    The script draws a 1024x1024 icon with Pillow and writes it, with an
    asset-catalog manifest, under [Vellum/Assets.xcassets/AppIcon.appiconset].

    The embedding follows the script statement by statement in a small
    state-and-exception monad.  The interpreter state holds the image
    objects the script allocates (a heap indexed by object identity), the
    trace of Pillow calls it makes, the file system and standard output.

    - Python numbers: [int] is [Z]; [float] is IEEE-754 binary64, computed
      exactly with the Standard Library's [SpecFloat] (no rounding is left
      out: [int(size * 0.22)] is the truncation of the rounded product).
    - Pillow: images are rasters given as total functions from coordinates
      to pixel values, meaningful inside the image bounds.  Compositing,
      alpha replacement, ink conversion and clipping are modelled
      concretely.  The scan conversion of strokes and rounded rectangles,
      whose boundary pixels differ between Pillow releases, is an interface
      ([Rasteriser]) constrained by laws; a reference instance is given.
      [Image.new] refuses a size that does not fit a C [int]; the memory
      the imaging library can allocate is not modelled.
    - The file system maps path strings to directories and files. *)

From Stdlib Require Import ZArith Lia Bool Ascii DecimalString.
From Stdlib Require Import Floats.SpecFloat.
From stdpp Require Import base list gmap strings.

Local Open Scope Z_scope.

(** ** Python exceptions and the exception monad *)

Inductive exn :=
| OverflowError
| ValueError
| ZeroDivisionError
| TypeError
| KeyError
| FileExistsError
| FileNotFoundError
| NotADirectoryError
| IsADirectoryError.

Inductive result (A : Type) :=
| Ok (a : A)
| Err (e : exn).
Arguments Ok {A} a.
Arguments Err {A} e.

#[global] Instance result_ret : MRet result := fun A a => Ok a.
#[global] Instance result_bind : MBind result := fun A B f m =>
  match m with
  | Ok a => f a
  | Err e => Err e
  end.

(** [OSError] and its subclasses, as [except OSError] sees them. *)
Definition is_OSError (e : exn) : bool :=
  match e with
  | FileExistsError | FileNotFoundError | NotADirectoryError | IsADirectoryError => true
  | _ => false
  end.

(** ** Python floats (IEEE-754 binary64) *)

Module Float.

Definition prec : Z := 53.
Definition emax : Z := 1024.

Definition float := spec_float.

(** [float(n)] for a Python [int]: round to nearest even, [OverflowError]
    when the value does not fit a double. *)
Definition of_int (n : Z) : result float :=
  match binary_normalize prec emax n 0 false with
  | S754_infinity _ | S754_nan => Err OverflowError
  | f => Ok f
  end.

(** [a / b] on Python [int]s: the correctly rounded quotient. *)
Definition true_div (a b : Z) : result float :=
  if b =? 0 then Err ZeroDivisionError
  else if a =? 0 then Ok (S754_zero (b <? 0))
  else
    let '(q, e, l) := SFdiv_core_binary prec emax (Z.abs a) 0 (Z.abs b) 0 in
    match binary_round_aux prec emax (xorb (a <? 0) (b <? 0)) q e l with
    | S754_infinity _ | S754_nan => Err OverflowError
    | f => Ok f
    end.

(** A decimal literal [num/den] (as [0.22] is [22/100]): the double nearest
    to it, which is the correctly rounded quotient. *)
Definition literal (num den : Z) : float :=
  match true_div num den with
  | Ok f => f
  | Err _ => S754_nan
  end.

(** [n * f] and [n + f] with [n] an [int]: the [int] is converted first. *)
Definition mul_int (n : Z) (f : float) : result float :=
  x ← of_int n; Ok (SFmul prec emax x f).

Definition add_int (n : Z) (f : float) : result float :=
  x ← of_int n; Ok (SFadd prec emax x f).

(** [int(f)]: truncation toward zero. *)
Definition to_int (f : float) : result Z :=
  match f with
  | S754_zero _ => Ok 0
  | S754_finite s m e =>
      let v := if 0 <=? e then Zpos m * 2 ^ e else Zpos m / 2 ^ (- e) in
      Ok (if s then - v else v)
  | S754_infinity _ => Err OverflowError
  | S754_nan => Err ValueError
  end.

End Float.

(** [int(n * c)] with [n] an [int] and [c] a float, as in
    [int(size * 0.22)]. *)
Definition int_mul (n : Z) (c : Float.float) : result Z :=
  f ← Float.mul_int n c; Float.to_int f.

(** ** Pillow: images, inks, shapes *)

Inductive mode := L | RGBA.

Record pixel := Pixel { red : Z; green : Z; blue : Z; alpha : Z }.

Inductive ink :=
| InkL (v : Z)
| InkRGBA (p : pixel).

(** A colour argument as the script passes it: an [int] or a tuple. *)
Inductive color :=
| ColorInt (v : Z)
| ColorTuple (bands : list Z).

Inductive raster :=
| RasterL (f : Z -> Z -> Z)
| RasterRGBA (f : Z -> Z -> pixel).

Record Image := { im_width : Z; im_height : Z; im_raster : raster }.

Definition im_mode (im : Image) : mode :=
  match im_raster im with
  | RasterL _ => L
  | RasterRGBA _ => RGBA
  end.

Definition in_image (im : Image) (x y : Z) : bool :=
  (0 <=? x) && (x <? im_width im) && (0 <=? y) && (y <? im_height im).

(** [im.getpixel((x, y))] on an RGBA image. *)
Definition getpixel (im : Image) (x y : Z) : option pixel :=
  match im_raster im with
  | RasterRGBA f => if in_image im x y then Some (f x y) else None
  | RasterL _ => None
  end.

(** [im.getpixel((x, y))] on an L image. *)
Definition getvalue (im : Image) (x y : Z) : option Z :=
  match im_raster im with
  | RasterL f => if in_image im x y then Some (f x y) else None
  | RasterRGBA _ => None
  end.

Definition CLIP8 (v : Z) : Z :=
  if v <=? 0 then 0 else if v <? 256 then v else 255.

(** Pillow's [getink]: the ink of a colour for an image of mode [m]. *)
Definition getink (m : mode) (c : color) : result ink :=
  match m, c with
  | L, ColorInt v => Ok (InkL (CLIP8 v))
  | L, ColorTuple [v] => Ok (InkL (CLIP8 v))
  | L, ColorTuple _ => Err TypeError
  | RGBA, ColorInt v =>
      Ok (InkRGBA (Pixel (Z.land v 255) (Z.land (Z.shiftr v 8) 255)
                         (Z.land (Z.shiftr v 16) 255) (Z.land (Z.shiftr v 24) 255)))
  | RGBA, ColorTuple [r; g; b] =>
      Ok (InkRGBA (Pixel (CLIP8 r) (CLIP8 g) (CLIP8 b) 255))
  | RGBA, ColorTuple [r; g; b; a] =>
      Ok (InkRGBA (Pixel (CLIP8 r) (CLIP8 g) (CLIP8 b) (CLIP8 a)))
  | RGBA, ColorTuple _ => Err TypeError
  end.

(** Replace (no blending: [ImageDraw.Draw] on an image of its own mode) the
    pixels of [im] that [covers] selects, clipped to the image. *)
Definition paint (covers : Z -> Z -> bool) (k : ink) (im : Image) : Image :=
  match im_raster im, k with
  | RasterL f, InkL v =>
      {| im_width := im_width im; im_height := im_height im;
         im_raster := RasterL (fun x y => if in_image im x y && covers x y then v else f x y) |}
  | RasterRGBA f, InkRGBA p =>
      {| im_width := im_width im; im_height := im_height im;
         im_raster := RasterRGBA (fun x y => if in_image im x y && covers x y then p else f x y) |}
  | _, _ => im
  end.

(** Scan conversion.  [stroke_covers x0 y0 x1 y1 w x y]: the pixel [(x, y)]
    is drawn by [line([(x0, y0), (x1, y1)], width=w)];
    [rounded_rect_covers x0 y0 x1 y1 r x y]: it is drawn by a filled
    [rounded_rectangle([(x0, y0), (x1, y1)], radius=r)].  The laws are what
    the verification relies on: a stroke of width at most one along an axis
    is exactly its inclusive segment; any stroke stays within its width of
    the segment's bounding box; a rounded rectangle stays inside its
    (inclusive) bounding box, fills everything strictly between the corner
    squares, and stays within one pixel of the rectangle
    [[x0 + r, x1 - r] x [y0 + r, y1 - r]] dilated by a disc of radius [r]. *)
Class Rasteriser := {
  stroke_covers : Z -> Z -> Z -> Z -> Z -> Z -> Z -> bool;
  rounded_rect_covers : Z -> Z -> Z -> Z -> Z -> Z -> Z -> bool;
  stroke_horizontal : forall x0 x1 y0 w x y, w <= 1 ->
    stroke_covers x0 y0 x1 y0 w x y
    = (y =? y0) && (Z.min x0 x1 <=? x) && (x <=? Z.max x0 x1);
  stroke_vertical : forall x0 y0 y1 w x y, w <= 1 ->
    stroke_covers x0 y0 x0 y1 w x y
    = (x =? x0) && (Z.min y0 y1 <=? y) && (y <=? Z.max y0 y1);
  stroke_envelope : forall x0 y0 x1 y1 w x y,
    stroke_covers x0 y0 x1 y1 w x y = true ->
    Z.min x0 x1 - Z.max w 0 <= x <= Z.max x0 x1 + Z.max w 0 /\
    Z.min y0 y1 - Z.max w 0 <= y <= Z.max y0 y1 + Z.max w 0;
  rounded_rect_bbox : forall x0 y0 x1 y1 r x y,
    rounded_rect_covers x0 y0 x1 y1 r x y = true ->
    x0 <= x <= x1 /\ y0 <= y <= y1;
  rounded_rect_cross : forall x0 y0 x1 y1 r x y,
    0 <= r -> x0 <= x <= x1 -> y0 <= y <= y1 ->
    x0 + r < x < x1 - r \/ y0 + r < y < y1 - r ->
    rounded_rect_covers x0 y0 x1 y1 r x y = true;
  rounded_rect_corner : forall x0 y0 x1 y1 r x y,
    0 <= r -> 2 * r <= x1 - x0 -> 2 * r <= y1 - y0 ->
    rounded_rect_covers x0 y0 x1 y1 r x y = true ->
    let cx := Z.max (x0 + r) (Z.min x (x1 - r)) in
    let cy := Z.max (y0 + r) (Z.min y (y1 - r)) in
    (x - cx) * (x - cx) + (y - cy) * (y - cy) <= (r + 1) * (r + 1)
}.

(** Pillow's [ImagingAlphaComposite], per pixel: [src] over [dst], in the
    fixed-point arithmetic of the C code ([PRECISION_BITS = 7]). *)
Definition SHIFTFORDIV255 (a : Z) : Z := Z.shiftr (Z.shiftr a 8 + a) 8.

Definition alpha_composite_pixel (dst src : pixel) : pixel :=
  if alpha src =? 0 then dst
  else
    let blend := alpha dst * (255 - alpha src) in
    let outa255 := alpha src * 255 + blend in
    let coef1 := alpha src * 255 * 255 * 128 / outa255 in
    let coef2 := 255 * 128 - coef1 in
    let chan s d := Z.shiftr (SHIFTFORDIV255 (s * coef1 + d * coef2 + Z.shiftl 128 7)) 7 in
    Pixel (chan (red src) (red dst)) (chan (green src) (green dst))
          (chan (blue src) (blue dst)) (SHIFTFORDIV255 (outa255 + 128)).

(** ** The file system *)

Inductive content :=
| Text (s : string)
| Png (im : Image).

Inductive node :=
| Dir
| File (c : content).

(** ** Interpreter state and the [py] monad *)

(** The Pillow calls of the script and its changes to the file system, in
    program order.  Images are named by their object identity (allocation
    order). *)
Inductive call :=
| CallNew (id : nat) (m : mode) (w h : Z) (fill : color)
| CallLine (target : nat) (x0 y0 x1 y1 : Z) (fill : color) (width : Z)
| CallRoundedRectangle (target : nat) (x0 y0 x1 y1 : Z) (radius : Z) (fill : color)
| CallPutAlpha (target mask : nat)
| CallAlphaComposite (im1 im2 res : nat)
| CallMkdir (path : string)
| CallWriteFile (path : string).

Record pystate := {
  heap : list Image;
  calls : list call;
  fs : gmap string node;
  stdout : list string
}.

Definition py (A : Type) : Type := pystate -> result (A * pystate).

#[global] Instance py_ret : MRet py := fun A a st => Ok (a, st).
#[global] Instance py_bind : MBind py := fun A B f m st =>
  match m st with
  | Ok (a, st') => f a st'
  | Err e => Err e
  end.

Definition raise {A : Type} (e : exn) : py A := fun _ => Err e.

Definition lift {A : Type} (r : result A) : py A := fun st =>
  match r with
  | Ok a => Ok (a, st)
  | Err e => Err e
  end.

(** [try: m except <handles>: h]. *)
Definition try_except {A : Type} (m : py A) (handles : exn -> bool) (h : exn -> py A) : py A :=
  fun st =>
    match m st with
    | Ok r => Ok r
    | Err e => if handles e then h e st else Err e
    end.

Definition alloc (im : Image) : py nat := fun st =>
  Ok (length (heap st),
      {| heap := heap st ++ [im]; calls := calls st; fs := fs st; stdout := stdout st |}).

Definition deref (id : nat) : py Image := fun st =>
  match heap st !! id with
  | Some im => Ok (im, st)
  | None => Err KeyError
  end.

Definition store (id : nat) (im : Image) : py unit := fun st =>
  Ok (tt, {| heap := <[id := im]> (heap st); calls := calls st; fs := fs st; stdout := stdout st |}).

Definition log_call (c : call) : py unit := fun st =>
  Ok (tt, {| heap := heap st; calls := calls st ++ [c]; fs := fs st; stdout := stdout st |}).

(** [for y in range(n): body]. *)
Fixpoint for_upto (k : nat) (y : Z) (body : Z -> py unit) : py unit :=
  match k with
  | O => mret tt
  | S k' => body y;; for_upto k' (y + 1) body
  end.

Definition for_range (n : Z) (body : Z -> py unit) : py unit :=
  for_upto (Z.to_nat n) 0 body.

Definition print (s : string) : py unit := fun st =>
  Ok (tt, {| heap := heap st; calls := calls st; fs := fs st; stdout := stdout st ++ [s] |}).

(** ** The Pillow calls the script makes *)

Section Pillow.
Context `{Rasteriser}.

Definition blank (w h : Z) (k : ink) : Image :=
  {| im_width := w; im_height := h;
     im_raster := match k with
                  | InkL v => RasterL (fun _ _ => v)
                  | InkRGBA p => RasterRGBA (fun _ _ => p)
                  end |}.

(** [Image.new(mode, (w, h), fill)].  A negative width or height is
    refused with [ValueError]; the two then go to the C library as C
    [int]s, so that one from [2^31] on raises [OverflowError]. *)
Definition Image_new (m : mode) (size : Z * Z) (fill : color) : py nat :=
  let '(w, h) := size in
  if (w <? 0) || (h <? 0) then raise ValueError
  else if (2 ^ 31 <=? w) || (2 ^ 31 <=? h) then raise OverflowError
  else
    k ← lift (getink m fill);
    id ← alloc (blank w h k);
    log_call (CallNew id m w h fill);;
    mret id.

(** A drawing context: it draws on the image it was made for. *)
Record ImageDraw := { draw_target : nat }.

(** [ImageDraw.Draw(im)]. *)
Definition ImageDraw_Draw (im : nat) : py ImageDraw :=
  deref im;; mret {| draw_target := im |}.

(** [draw.line([(x0, y0), (x1, y1)], fill=fill, width=width)]. *)
Definition ImageDraw_line (draw : ImageDraw) (xy : (Z * Z) * (Z * Z)) (fill : color)
  (width : Z) : py unit :=
  let '((x0, y0), (x1, y1)) := xy in
  im ← deref (draw_target draw);
  k ← lift (getink (im_mode im) fill);
  store (draw_target draw) (paint (stroke_covers x0 y0 x1 y1 width) k im);;
  log_call (CallLine (draw_target draw) x0 y0 x1 y1 fill width).

(** [draw.rounded_rectangle([(x0, y0), (x1, y1)], radius=radius, fill=fill)]. *)
Definition ImageDraw_rounded_rectangle (draw : ImageDraw) (xy : (Z * Z) * (Z * Z))
  (radius : Z) (fill : color) : py unit :=
  let '((x0, y0), (x1, y1)) := xy in
  if (x1 <? x0) || (y1 <? y0) then raise ValueError
  else
    im ← deref (draw_target draw);
    k ← lift (getink (im_mode im) fill);
    store (draw_target draw) (paint (rounded_rect_covers x0 y0 x1 y1 radius) k im);;
    log_call (CallRoundedRectangle (draw_target draw) x0 y0 x1 y1 radius fill).

(** The raster of [i] with the values of [a] as its alpha band. *)
Definition put_alpha (i a : Image) : Image :=
  match im_raster i, im_raster a with
  | RasterRGBA f, RasterL g =>
      {| im_width := im_width i; im_height := im_height i;
         im_raster := RasterRGBA (fun x y =>
           Pixel (red (f x y)) (green (f x y)) (blue (f x y)) (g x y)) |}
  | _, _ => i
  end.

(** [s] over [d], pixel by pixel. *)
Definition over (d s : Image) : Image :=
  match im_raster d, im_raster s with
  | RasterRGBA f, RasterRGBA g =>
      {| im_width := im_width d; im_height := im_height d;
         im_raster := RasterRGBA (fun x y => alpha_composite_pixel (f x y) (g x y)) |}
  | _, _ => d
  end.

Definition same_size (a b : Image) : bool :=
  (im_width a =? im_width b) && (im_height a =? im_height b).

(** [im.putalpha(mask)]: the mask's values become the alpha band of [im],
    in place.  (Pillow promotes an image without alpha band to one with;
    the model has no such mode and raises instead.) *)
Definition Image_putalpha (im mask : nat) : py unit :=
  i ← deref im;
  a ← deref mask;
  match im_mode i, im_mode a with
  | RGBA, L =>
      if same_size i a then
        store im (put_alpha i a);;
        log_call (CallPutAlpha im mask)
      else raise ValueError
  | _, _ => raise ValueError
  end.

(** [Image.alpha_composite(im1, im2)]: a new image, [im2] over [im1]. *)
Definition Image_alpha_composite (im1 im2 : nat) : py nat :=
  d ← deref im1;
  s ← deref im2;
  match im_mode d, im_mode s with
  | RGBA, RGBA =>
      if same_size d s then
        id ← alloc (over d s);
        log_call (CallAlphaComposite im1 im2 id);;
        mret id
      else raise ValueError
  | _, _ => raise ValueError
  end.

End Pillow.

(** ** The [os] calls of the script, on POSIX paths *)

Definition slash : ascii := "/"%char.

(** [s.rstrip('/')]. *)
Fixpoint rstrip_slash (s : string) : string :=
  match s with
  | EmptyString => EmptyString
  | String c r =>
      match rstrip_slash r with
      | EmptyString => if Ascii.eqb c slash then EmptyString else String c EmptyString
      | r' => String c r'
      end
  end.

(** Cut [s] after its last slash, when it has one. *)
Fixpoint cut_last_slash (s : string) : option (string * string) :=
  match s with
  | EmptyString => None
  | String c r =>
      match cut_last_slash r with
      | Some (h, t) => Some (String c h, t)
      | None => if Ascii.eqb c slash then Some (String c EmptyString, r) else None
      end
  end.

(** [os.path.split(p)]. *)
Definition os_path_split (p : string) : string * string :=
  match cut_last_slash p with
  | None => (EmptyString, p)
  | Some (h, t) =>
      match rstrip_slash h with
      | EmptyString => (h, t)
      | h' => (h', t)
      end
  end.

(** [os.path.join(a, b)] for a relative [b]. *)
Definition os_path_join (a b : string) : string :=
  match a with
  | EmptyString => b
  | _ => if String.eqb (rstrip_slash a) a then a +:+ "/" +:+ b else a +:+ b
  end.

Definition os_path_exists (p : string) : py bool := fun st =>
  Ok (bool_decide (is_Some (fs st !! p)), st).

Definition os_path_isdir (p : string) : py bool := fun st =>
  Ok (match fs st !! p with Some Dir => true | _ => false end, st).

(** What stands between a path and a new entry at it: its parent must be a
    directory (the working directory, for a bare name, is one). *)
Definition parent_error (files : gmap string node) (p : string) : option exn :=
  match fst (os_path_split p) with
  | EmptyString => None
  | parent =>
      match files !! parent with
      | Some Dir => None
      | Some (File _) => Some NotADirectoryError
      | None => Some FileNotFoundError
      end
  end.

Definition set_node (p : string) (n : node) : py unit := fun st =>
  Ok (tt, {| heap := heap st; calls := calls st; fs := <[p := n]> (fs st); stdout := stdout st |}).

(** [os.mkdir(p)]. *)
Definition os_mkdir (p : string) : py unit := fun st =>
  match fs st !! p with
  | Some _ => Err FileExistsError
  | None =>
      match parent_error (fs st) p with
      | Some e => Err e
      | None => (set_node p Dir;; log_call (CallMkdir p)) st
      end
  end.

(** [os.makedirs(name, exist_ok=exist_ok)], after CPython's [os.py]; the
    recursion is on the head of the path, which gets shorter. *)
Fixpoint makedirs_fuel (fuel : nat) (name : string) (exist_ok : bool) : py unit :=
  match fuel with
  | O => raise ValueError
  | S fuel' =>
      let '(head, tail) := os_path_split name in
      let '(head, tail) :=
        match tail with
        | EmptyString => os_path_split head
        | _ => (head, tail)
        end in
      missing ← (match head, tail with
                 | EmptyString, _ | _, EmptyString => mret false
                 | _, _ => e ← os_path_exists head; mret (negb e)
                 end);
      stop ← (if missing : bool then
                try_except (makedirs_fuel fuel' head exist_ok)
                  (fun e => match e with FileExistsError => true | _ => false end)
                  (fun _ => mret tt);;
                mret (String.eqb tail ".")
              else mret false);
      if stop : bool then mret tt
      else
        try_except (os_mkdir name) is_OSError
          (fun e =>
             d ← os_path_isdir name;
             if negb exist_ok || negb d then raise e else mret tt)
  end.

Definition os_makedirs (name : string) (exist_ok : bool) : py unit :=
  makedirs_fuel (S (String.length name)) name exist_ok.

(** Create or truncate the regular file [p] and write [c] to it. *)
Definition write_file (p : string) (c : content) : py unit := fun st =>
  match fs st !! p with
  | Some Dir => Err IsADirectoryError
  | _ =>
      match parent_error (fs st) p with
      | Some e => Err e
      | None => (set_node p (File c);; log_call (CallWriteFile p)) st
      end
  end.

(** [with open(p, 'w') as f: f.write(s)]. *)
Definition open_write (p : string) (s : string) : py unit :=
  write_file p (Text s).

(** [im.save(p, format)]: the file holds the encoding of the raster. *)
Definition Image_save (im : nat) (p : string) (format : string) : py unit :=
  i ← deref im;
  if String.eqb format "PNG" then write_file p (Png i) else raise KeyError.

(** ** The script *)

Section Script.
Context `{Rasteriser}.

(** Decimal float literals of the script: [dec n d] is the literal [n/d]. *)
Definition dec (num den : Z) : Float.float := Float.literal num den.

Definition top_color : Z * Z * Z := (153, 115, 89).
Definition bottom_color : Z * Z * Z := (115, 77, 51).

Definition item0 (c : Z * Z * Z) : Z := fst (fst c).
Definition item1 (c : Z * Z * Z) : Z := snd (fst c).
Definition item2 (c : Z * Z * Z) : Z := snd c.

(** [int(top + (bottom - top) * ratio)] (lines 32-34). *)
Definition interpolate (top bottom : Z) (ratio : Float.float) : result Z :=
  p ← Float.mul_int (bottom - top) ratio;
  s ← Float.add_int top p;
  Float.to_int s.

(** The colour of row [y] of the gradient (lines 31-34). *)
Definition gradient_rgb (size y : Z) : result (Z * Z * Z) :=
  ratio ← Float.true_div y size;
  r ← interpolate (item0 top_color) (item0 bottom_color) ratio;
  g ← interpolate (item1 top_color) (item1 bottom_color) ratio;
  b ← interpolate (item2 top_color) (item2 bottom_color) ratio;
  Ok (r, g, b).

(** [create_app_icon(size)] (lines 16-116). *)
Definition create_app_icon (size : Z) : py nat :=
  img ← Image_new RGBA (size, size) (ColorTuple [0; 0; 0; 0]);
  draw ← ImageDraw_Draw img;
  corner_radius ← lift (int_mul size (dec 22 100));
  for_range size (fun y =>
    '(r, g, b) ← lift (gradient_rgb size y);
    ImageDraw_line draw ((0, y), (size, y)) (ColorTuple [r; g; b]) 0);;
  mask ← Image_new L (size, size) (ColorInt 0);
  mask_draw ← ImageDraw_Draw mask;
  ImageDraw_rounded_rectangle mask_draw ((0, 0), (size, size)) corner_radius (ColorInt 255);;
  Image_putalpha img mask;;
  rect_size ← lift (int_mul size (dec 55 100));
  let rect_x := (size - rect_size) `div` 2 in
  let rect_y := (size - rect_size) `div` 2 in
  rect_radius ← lift (int_mul size (dec 95 1000));
  overlay ← Image_new RGBA (size, size) (ColorTuple [0; 0; 0; 0]);
  overlay_draw ← ImageDraw_Draw overlay;
  ImageDraw_rounded_rectangle overlay_draw
    ((rect_x, rect_y), (rect_x + rect_size, rect_y + rect_size))
    rect_radius (ColorTuple [255; 255; 255; 51]);;
  img ← Image_alpha_composite img overlay;
  draw ← ImageDraw_Draw img;
  let book_color := ColorTuple [255; 255; 255; 255] in
  book_width ← lift (int_mul size (dec 32 100));
  book_height ← lift (int_mul size (dec 40 100));
  let book_x := (size - book_width) `div` 2 in
  let book_y := (size - book_height) `div` 2 in
  book_overlay ← Image_new RGBA (size, size) (ColorTuple [0; 0; 0; 0]);
  book_draw ← ImageDraw_Draw book_overlay;
  spine_w ← lift (int_mul book_width (dec 18 100));
  book_radius ← lift (int_mul size (dec 2 100));
  ImageDraw_rounded_rectangle book_draw
    ((book_x, book_y), (book_x + book_width, book_y + book_height))
    book_radius book_color;;
  spine_indent ← Image_new RGBA (size, size) (ColorTuple [0; 0; 0; 0]);
  spine_draw ← ImageDraw_Draw spine_indent;
  let spine_x := book_x + spine_w in
  spine_top ← lift (int_mul size (dec 15 1000));
  spine_bottom ← lift (int_mul size (dec 15 1000));
  spine_width ← lift (int_mul size (dec 8 1000));
  ImageDraw_line spine_draw
    ((spine_x, book_y + spine_top), (spine_x, book_y + book_height - spine_bottom))
    (ColorTuple [200; 150; 100; 80]) spine_width;;
  pages_width ← lift (int_mul size (dec 25 1000));
  let pages_x := book_x + book_width - pages_width in
  for_range 4 (fun i =>
    line_off ← lift (int_mul (i * size) (dec 5 1000));
    let line_x := pages_x + line_off in
    page_top ← lift (int_mul size (dec 25 1000));
    page_bottom ← lift (int_mul size (dec 25 1000));
    page_width ← lift (int_mul size (dec 3 1000));
    ImageDraw_line book_draw
      ((line_x, book_y + page_top), (line_x, book_y + book_height - page_bottom))
      (ColorTuple [220; 180; 140; 120]) page_width);;
  img ← Image_alpha_composite img book_overlay;
  img ← Image_alpha_composite img spine_indent;
  mret img.

Definition nl : string := String "010"%char EmptyString.
Definition dq : string := String "034"%char EmptyString.

(** The manifest literal of lines 133-146. *)
Definition contents_json : string :=
  "{" +:+ nl +:+
  "  " +:+ dq +:+ "images" +:+ dq +:+ " : [" +:+ nl +:+
  "    {" +:+ nl +:+
  "      " +:+ dq +:+ "filename" +:+ dq +:+ " : " +:+ dq +:+ "AppIcon.png" +:+ dq +:+ "," +:+ nl +:+
  "      " +:+ dq +:+ "idiom" +:+ dq +:+ " : " +:+ dq +:+ "universal" +:+ dq +:+ "," +:+ nl +:+
  "      " +:+ dq +:+ "platform" +:+ dq +:+ " : " +:+ dq +:+ "ios" +:+ dq +:+ "," +:+ nl +:+
  "      " +:+ dq +:+ "size" +:+ dq +:+ " : " +:+ dq +:+ "1024x1024" +:+ dq +:+ nl +:+
  "    }" +:+ nl +:+
  "  ]," +:+ nl +:+
  "  " +:+ dq +:+ "info" +:+ dq +:+ " : {" +:+ nl +:+
  "    " +:+ dq +:+ "author" +:+ dq +:+ " : " +:+ dq +:+ "xcode" +:+ dq +:+ "," +:+ nl +:+
  "    " +:+ dq +:+ "version" +:+ dq +:+ " : 1" +:+ nl +:+
  "  }" +:+ nl +:+
  "}".

Definition output_dir : string := "Vellum/Assets.xcassets/AppIcon.appiconset".

(** [main()] (lines 118-154). *)
Definition main : py unit :=
  print "Generating Vellum app icon...";;
  icon ← create_app_icon 1024;
  os_makedirs output_dir true;;
  let output_path := os_path_join output_dir "AppIcon.png" in
  Image_save icon output_path "PNG";;
  print ("✓ Saved: " +:+ output_path);;
  let contents_path := os_path_join output_dir "Contents.json" in
  open_write contents_path contents_json;;
  print ("✓ Updated: " +:+ contents_path);;
  print (nl +:+ "✅ App icon generated successfully!");;
  print "Open Xcode and the icon should appear in Assets.xcassets".

End Script.

(** A fresh interpreter over the file system [files]. *)
Definition fresh (files : gmap string node) : pystate :=
  {| heap := []; calls := []; fs := files; stdout := [] |}.

(** ** The layout and the layers of the icon, as values

    What a run of [create_app_icon] computes, named: the scalars of the
    layout, the image objects in allocation order and the trace.  The
    execution lemmas below relate them to the monadic script. *)

Record layout := {
  corner_radius : Z;
  rect_size : Z;
  rect_radius : Z;
  book_width : Z;
  book_height : Z;
  spine_w : Z;
  book_radius : Z;
  spine_inset : Z;
  spine_width : Z;
  pages_width : Z;
  line_off : Z -> Z;
  page_inset : Z;
  page_width : Z
}.

Section Layers.
Context `{Rasteriser}.

(** [g] holds the values the script computes for [size]. *)
Definition is_layout (size : Z) (g : layout) : Prop :=
  int_mul size (dec 22 100) = Ok (corner_radius g) /\
  int_mul size (dec 55 100) = Ok (rect_size g) /\
  int_mul size (dec 95 1000) = Ok (rect_radius g) /\
  int_mul size (dec 32 100) = Ok (book_width g) /\
  int_mul size (dec 40 100) = Ok (book_height g) /\
  int_mul (book_width g) (dec 18 100) = Ok (spine_w g) /\
  int_mul size (dec 2 100) = Ok (book_radius g) /\
  int_mul size (dec 15 1000) = Ok (spine_inset g) /\
  int_mul size (dec 8 1000) = Ok (spine_width g) /\
  int_mul size (dec 25 1000) = Ok (pages_width g) /\
  (forall i, 0 <= i < 4 -> int_mul (i * size) (dec 5 1000) = Ok (line_off g i)) /\
  int_mul size (dec 25 1000) = Ok (page_inset g) /\
  int_mul size (dec 3 1000) = Ok (page_width g).

Definition rect_x (size : Z) (g : layout) : Z := (size - rect_size g) `div` 2.
Definition book_x (size : Z) (g : layout) : Z := (size - book_width g) `div` 2.
Definition book_y (size : Z) (g : layout) : Z := (size - book_height g) `div` 2.
Definition spine_x (size : Z) (g : layout) : Z := book_x size g + spine_w g.
Definition pages_x (size : Z) (g : layout) : Z :=
  book_x size g + book_width g - pages_width g.

Definition transparent (size : Z) : Image :=
  blank size size (InkRGBA (Pixel 0 0 0 0)).

Definition row_color (c : Z * Z * Z) : color :=
  ColorTuple [item0 c; item1 c; item2 c].

Definition row_ink (c : Z * Z * Z) : ink :=
  InkRGBA (Pixel (CLIP8 (item0 c)) (CLIP8 (item1 c)) (CLIP8 (item2 c)) 255).

(** The canvas after [k] rows of the gradient loop, from row [y] on. *)
Fixpoint gradient_rows (k : nat) (y size : Z) (row : Z -> Z * Z * Z) (im : Image) : Image :=
  match k with
  | O => im
  | S k' => gradient_rows k' (y + 1) size row (paint (stroke_covers 0 y size y 0) (row_ink (row y)) im)
  end.

Definition gradient_layer (size : Z) (row : Z -> Z * Z * Z) : Image :=
  gradient_rows (Z.to_nat size) 0 size row (transparent size).

Definition mask_layer (size : Z) (g : layout) : Image :=
  paint (rounded_rect_covers 0 0 size size (corner_radius g)) (InkL 255)
    (blank size size (InkL 0)).

(** Object 0: the gradient with the mask as its alpha band. *)
Definition canvas_layer (size : Z) (g : layout) (row : Z -> Z * Z * Z) : Image :=
  put_alpha (gradient_layer size row) (mask_layer size g).

Definition overlay_layer (size : Z) (g : layout) : Image :=
  paint (rounded_rect_covers (rect_x size g) (rect_x size g)
           (rect_x size g + rect_size g) (rect_x size g + rect_size g) (rect_radius g))
    (InkRGBA (Pixel 255 255 255 51)) (transparent size).

Definition page_stroke (size : Z) (g : layout) (i : Z) (im : Image) : Image :=
  paint (stroke_covers (pages_x size g + line_off g i) (book_y size g + page_inset g)
           (pages_x size g + line_off g i) (book_y size g + book_height g - page_inset g)
           (page_width g))
    (InkRGBA (Pixel 220 180 140 120)) im.

Definition book_cover (size : Z) (g : layout) : Image :=
  paint (rounded_rect_covers (book_x size g) (book_y size g)
           (book_x size g + book_width g) (book_y size g + book_height g) (book_radius g))
    (InkRGBA (Pixel 255 255 255 255)) (transparent size).

Definition book_layer (size : Z) (g : layout) : Image :=
  page_stroke size g 3 (page_stroke size g 2 (page_stroke size g 1
    (page_stroke size g 0 (book_cover size g)))).

Definition spine_layer (size : Z) (g : layout) : Image :=
  paint (stroke_covers (spine_x size g) (book_y size g + spine_inset g)
           (spine_x size g) (book_y size g + book_height g - spine_inset g)
           (spine_width g))
    (InkRGBA (Pixel 200 150 100 80)) (transparent size).

Definition panel_canvas (size : Z) (g : layout) (row : Z -> Z * Z * Z) : Image :=
  over (canvas_layer size g row) (overlay_layer size g).

Definition book_canvas (size : Z) (g : layout) (row : Z -> Z * Z * Z) : Image :=
  over (panel_canvas size g row) (book_layer size g).

Definition final_canvas (size : Z) (g : layout) (row : Z -> Z * Z * Z) : Image :=
  over (book_canvas size g row) (spine_layer size g).

(** The image objects of a run, by identity. *)
Definition icon_heap (size : Z) (g : layout) (row : Z -> Z * Z * Z) : list Image :=
  [canvas_layer size g row; mask_layer size g; overlay_layer size g;
   panel_canvas size g row; book_layer size g; spine_layer size g;
   book_canvas size g row; final_canvas size g row].

Definition gradient_call (size : Z) (row : Z -> Z * Z * Z) (y : Z) : call :=
  CallLine 0 0 y size y (row_color (row y)) 0.

Definition page_call (size : Z) (g : layout) (i : Z) : call :=
  CallLine 4 (pages_x size g + line_off g i) (book_y size g + page_inset g)
    (pages_x size g + line_off g i) (book_y size g + book_height g - page_inset g)
    (ColorTuple [220; 180; 140; 120]) (page_width g).

(** The trace of a run. *)
Definition icon_calls (size : Z) (g : layout) (row : Z -> Z * Z * Z) : list call :=
  [CallNew 0 RGBA size size (ColorTuple [0; 0; 0; 0])] ++
  map (gradient_call size row) (seqZ 0 size) ++
  [CallNew 1 L size size (ColorInt 0);
   CallRoundedRectangle 1 0 0 size size (corner_radius g) (ColorInt 255);
   CallPutAlpha 0 1;
   CallNew 2 RGBA size size (ColorTuple [0; 0; 0; 0]);
   CallRoundedRectangle 2 (rect_x size g) (rect_x size g)
     (rect_x size g + rect_size g) (rect_x size g + rect_size g)
     (rect_radius g) (ColorTuple [255; 255; 255; 51]);
   CallAlphaComposite 0 2 3;
   CallNew 4 RGBA size size (ColorTuple [0; 0; 0; 0]);
   CallRoundedRectangle 4 (book_x size g) (book_y size g)
     (book_x size g + book_width g) (book_y size g + book_height g)
     (book_radius g) (ColorTuple [255; 255; 255; 255]);
   CallNew 5 RGBA size size (ColorTuple [0; 0; 0; 0]);
   CallLine 5 (spine_x size g) (book_y size g + spine_inset g)
     (spine_x size g) (book_y size g + book_height g - spine_inset g)
     (ColorTuple [200; 150; 100; 80]) (spine_width g);
   page_call size g 0; page_call size g 1; page_call size g 2; page_call size g 3;
   CallAlphaComposite 3 4 6;
   CallAlphaComposite 6 5 7].

(** The row colours of a canvas of edge [size] (black where the script
    raises). *)
Definition row_of (size : Z) (y : Z) : Z * Z * Z :=
  match gradient_rgb size y with
  | Ok c => c
  | Err _ => (0, 0, 0)
  end.

End Layers.

(** The layout of the 1024-pixel icon. *)
Definition layout_1024 : layout :=
  {| corner_radius := 225; rect_size := 563; rect_radius := 97;
     book_width := 327; book_height := 409; spine_w := 58; book_radius := 20;
     spine_inset := 15; spine_width := 8; pages_width := 25;
     line_off := fun i => 5 * i; page_inset := 25; page_width := 3 |}.

(** ** Reading the trace *)

(** The image a call draws on or creates. *)
Definition call_target (c : call) : option nat :=
  match c with
  | CallNew id _ _ _ _ => Some id
  | CallLine t _ _ _ _ _ _ => Some t
  | CallRoundedRectangle t _ _ _ _ _ _ => Some t
  | CallPutAlpha t _ => Some t
  | CallAlphaComposite _ _ _ | CallMkdir _ | CallWriteFile _ => None
  end.

Definition on_image (id : nat) (c : call) : bool :=
  match call_target c with
  | Some t => Nat.eqb t id
  | None => false
  end.


Definition is_composite (c : call) : bool :=
  match c with CallAlphaComposite _ _ _ => true | _ => false end.


Definition is_fs_call (c : call) : bool :=
  match c with CallMkdir _ | CallWriteFile _ => true | _ => false end.

(** ** JSON

    A reader for the fragment of RFC 8259 without string escapes and
    without fractions or exponents: what it accepts is JSON. *)

#[local] Set Warnings "-register-all".

Inductive json :=
| JNull
| JBool (b : bool)
| JNumber (n : Z)
| JString (s : string)
| JArray (items : list json)
| JObject (members : list (string * json)).

Definition is_ws (c : ascii) : bool :=
  match nat_of_ascii c with
  | 32%nat | 9%nat | 10%nat | 13%nat => true
  | _ => false
  end.

Fixpoint skip_ws (s : list ascii) : list ascii :=
  match s with
  | c :: r => if is_ws c then skip_ws r else s
  | [] => []
  end.

Definition digit_of (c : ascii) : option Z :=
  let n := nat_of_ascii c in
  if (48 <=? n)%nat && (n <=? 57)%nat then Some (Z.of_nat n - 48) else None.

(** The characters of a string literal after its opening quote. *)
Fixpoint read_string (s : list ascii) : option (string * list ascii) :=
  match s with
  | [] => None
  | c :: r =>
      if Ascii.eqb c "034" then Some (EmptyString, r)
      else if Ascii.eqb c "\" || (nat_of_ascii c <? 32)%nat then None
      else '(t, r') ← read_string r; Some (String c t, r')
  end.

Fixpoint read_digits (acc : Z) (s : list ascii) : Z * list ascii :=
  match s with
  | c :: r =>
      match digit_of c with
      | Some d => read_digits (10 * acc + d) r
      | None => (acc, s)
      end
  | [] => (acc, [])
  end.

(** An integer: [-]? then [0] or a non-zero digit and digits. *)
Definition read_number (s : list ascii) : option (Z * list ascii) :=
  let '(neg, s') := match s with
                    | c :: r => if Ascii.eqb c "-" then (true, r) else (false, s)
                    | [] => (false, s)
                    end in
  match s' with
  | c :: r =>
      match digit_of c with
      | Some 0 =>
          match r with
          | c' :: _ => match digit_of c' with Some _ => None | None => Some (0, r) end
          | [] => Some (0, r)
          end
      | Some d => let '(n, r') := read_digits d r in Some (if neg : bool then - n else n, r')
      | None => None
      end
  | [] => None
  end.

Definition expect (word : string) (v : json) (s : list ascii) : option (json * list ascii) :=
  let w := String.list_ascii_of_string word in
  if bool_decide (take (length w) s = w) then Some (v, drop (length w) s) else None.

Fixpoint read_value (fuel : nat) (s : list ascii) {struct fuel} : option (json * list ascii) :=
  match fuel with
  | O => None
  | S fuel =>
      match skip_ws s with
      | [] => None
      | c :: r =>
          if Ascii.eqb c "{" then
            match skip_ws r with
            | c' :: r' =>
                if Ascii.eqb c' "}" then Some (JObject [], r')
                else '(ms, r'') ← read_members fuel (c' :: r'); Some (JObject ms, r'')
            | [] => None
            end
          else if Ascii.eqb c "[" then
            match skip_ws r with
            | c' :: r' =>
                if Ascii.eqb c' "]" then Some (JArray [], r')
                else '(vs, r'') ← read_items fuel (c' :: r'); Some (JArray vs, r'')
            | [] => None
            end
          else if Ascii.eqb c "034" then
            '(t, r') ← read_string r; Some (JString t, r')
          else if Ascii.eqb c "t" then expect "true" (JBool true) (c :: r)
          else if Ascii.eqb c "f" then expect "false" (JBool false) (c :: r)
          else if Ascii.eqb c "n" then expect "null" JNull (c :: r)
          else '(n, r') ← read_number (c :: r); Some (JNumber n, r')
      end
  end
with read_items (fuel : nat) (s : list ascii) {struct fuel} : option (list json * list ascii) :=
  match fuel with
  | O => None
  | S fuel =>
      '(v, r) ← read_value fuel s;
      match skip_ws r with
      | c :: r' =>
          if Ascii.eqb c "," then '(vs, r'') ← read_items fuel r'; Some (v :: vs, r'')
          else if Ascii.eqb c "]" then Some ([v], r')
          else None
      | [] => None
      end
  end
with read_members (fuel : nat) (s : list ascii) {struct fuel}
  : option (list (string * json) * list ascii) :=
  match fuel with
  | O => None
  | S fuel =>
      match skip_ws s with
      | q :: r0 =>
          if Ascii.eqb q "034" then
            '(k, r1) ← read_string r0;
            match skip_ws r1 with
            | c :: r2 =>
                if Ascii.eqb c ":" then
                  '(v, r3) ← read_value fuel r2;
                  match skip_ws r3 with
                  | c' :: r4 =>
                      if Ascii.eqb c' "," then
                        '(ms, r5) ← read_members fuel r4; Some ((k, v) :: ms, r5)
                      else if Ascii.eqb c' "}" then Some ([(k, v)], r4)
                      else None
                  | [] => None
                  end
                else None
            | [] => None
            end
          else None
      | [] => None
      end
  end.

(** [json.loads(s)]: [None] when [s] is not a JSON text of the fragment. *)
Definition parse_json (s : string) : option json :=
  let cs := String.list_ascii_of_string s in
  '(v, r) ← read_value (S (length cs)) cs;
  match skip_ws r with
  | [] => Some v
  | _ => None
  end.

(** [obj[key]] on a parsed object. *)
Fixpoint member (key : string) (ms : list (string * json)) : option json :=
  match ms with
  | [] => None
  | (k, v) :: r => if String.eqb k key then Some v else member key r
  end.

(** [str(n)] and the [size] string of an image. *)
Definition str (n : Z) : string := NilZero.string_of_int (Z.to_int n).

Definition size_string (im : Image) : string :=
  str (im_width im) +:+ "x" +:+ str (im_height im).

(** ** The program's files *)

Definition assets_dir : string := "Vellum/Assets.xcassets".
Definition png_path : string := os_path_join output_dir "AppIcon.png".
Definition json_path : string := os_path_join output_dir "Contents.json".

Definition is_file_at (files : gmap string node) (p : string) : bool :=
  match files !! p with Some (File _) => true | _ => false end.

Definition is_dir_at (files : gmap string node) (p : string) : bool :=
  match files !! p with Some Dir => true | _ => false end.

(** Nothing is in the way of the program's output: no regular file where a
    directory is to be, no directory where a file is to be. *)
Definition ready (files : gmap string node) : bool :=
  negb (is_file_at files "Vellum") && negb (is_file_at files assets_dir)
  && negb (is_file_at files output_dir)
  && negb (is_dir_at files png_path) && negb (is_dir_at files json_path).

(** The directory [p] made in [files] unless something is there. *)
Definition ensure_dir (p : string) (files : gmap string node) : gmap string node :=
  match files !! p with
  | Some _ => files
  | None => <[p := Dir]> files
  end.

Definition mkdir_call (p : string) (files : gmap string node) : list call :=
  match files !! p with
  | Some _ => []
  | None => [CallMkdir p]
  end.

(** What [os.makedirs(output_dir, exist_ok=True)] leaves and does. *)
Definition ensure_dirs (files : gmap string node) : gmap string node :=
  ensure_dir output_dir
    (match files !! assets_dir with
     | Some _ => files
     | None => ensure_dir assets_dir (ensure_dir "Vellum" files)
     end).

Definition mkdir_calls (files : gmap string node) : list call :=
  match files !! assets_dir with
  | Some _ => []
  | None => mkdir_call "Vellum" files ++ [CallMkdir assets_dir]
  end ++ mkdir_call output_dir files.

Definition main_stdout : list string :=
  ["Generating Vellum app icon...";
   "✓ Saved: Vellum/Assets.xcassets/AppIcon.appiconset/AppIcon.png";
   "✓ Updated: Vellum/Assets.xcassets/AppIcon.appiconset/Contents.json";
   nl +:+ "✅ App icon generated successfully!";
   "Open Xcode and the icon should appear in Assets.xcassets"].

(** [os.mkdir(name)] as [makedirs] ends with it under [exist_ok=True]. *)
Definition mkdir_or_pass (name : string) : py unit :=
  try_except (os_mkdir name) is_OSError
    (fun e => d ← os_path_isdir name; if negb true || negb d then raise e else mret tt).

Section Outcome.
Context `{Rasteriser}.

(** The trace and the file system after a run of [main]. *)
Definition main_calls (files : gmap string node) : list call :=
  icon_calls 1024 layout_1024 (row_of 1024) ++ mkdir_calls files
  ++ [CallWriteFile png_path; CallWriteFile json_path].

Definition main_fs (files : gmap string node) : gmap string node :=
  <[json_path := File (Text contents_json)]>
    (<[png_path := File (Png (final_canvas 1024 layout_1024 (row_of 1024)))]>
       (ensure_dirs files)).

(** ** The layers of the icon, pixel by pixel *)

(** The [i]-th page stroke covers [(x, y)]. *)
Definition page_covers (size : Z) (g : layout) (i x y : Z) : bool :=
  stroke_covers (pages_x size g + line_off g i) (book_y size g + page_inset g)
    (pages_x size g + line_off g i) (book_y size g + book_height g - page_inset g)
    (page_width g) x y.

(** The layers of the 1024-pixel icon at a pixel of the canvas. *)
Definition silhouette (x y : Z) : bool := rounded_rect_covers 0 0 1024 1024 225 x y.

Definition panel_px (x y : Z) : pixel :=
  if rounded_rect_covers 230 230 793 793 97 x y
  then Pixel 255 255 255 51 else Pixel 0 0 0 0.

Definition book_px (x y : Z) : pixel :=
  if page_covers 1024 layout_1024 3 x y || page_covers 1024 layout_1024 2 x y
     || page_covers 1024 layout_1024 1 x y || page_covers 1024 layout_1024 0 x y
  then Pixel 220 180 140 120
  else if rounded_rect_covers 348 307 675 716 20 x y
       then Pixel 255 255 255 255 else Pixel 0 0 0 0.

Definition spine_px (x y : Z) : pixel :=
  if stroke_covers 406 322 406 701 8 x y then Pixel 200 150 100 80 else Pixel 0 0 0 0.

Definition canvas_px (x y : Z) : pixel :=
  Pixel (CLIP8 (item0 (row_of 1024 y))) (CLIP8 (item1 (row_of 1024 y))) (CLIP8 (item2 (row_of 1024 y)))
    (if silhouette x y then 255 else 0).

End Outcome.




(** ** Determinism *)

(** Two outcomes agree: the same value and the same image objects, or the
    same exception. *)
Definition agree {A : Type} (r1 r2 : result (A * pystate)) : Prop :=
  match r1, r2 with
  | Ok (a1, s1), Ok (a2, s2) => a1 = a2 /\ heap s1 = heap s2
  | Err e1, Err e2 => e1 = e2
  | _, _ => False
  end.

(** A computation whose value and image objects depend on the image
    objects only (not on the trace, the file system or standard output). *)
Definition heap_only {A : Type} (m : py A) : Prop :=
  forall s1 s2, heap s1 = heap s2 -> agree (m s1) (m s2).

(** ** Magnitudes of floats *)

(** Magnitude class of a float: finite (or zero), of sign [s] when not zero,
    with [digits + exponent <= K] and [exponent <= E]. *)
Definition fbound (s : bool) (K E : Z) (x : spec_float) : Prop :=
  match x with
  | S754_zero _ => True
  | S754_finite s' m e => s' = s /\ Zpos (digits2_pos m) + e <= K /\ e <= E
  | _ => False
  end.

(** ** Rounding of floats

    The round and sticky bits after [j] right shifts of a mantissa, against
    the remainder [R] of the mantissa modulo [2^j]. *)
Definition loc_rel (R j : Z) (r s : bool) : Prop :=
  match r, s with
  | false, false => R = 0
  | false, true => 0 < R /\ 2 * R < 2 ^ j
  | true, false => 2 * R = 2 ^ j
  | true, true => 2 ^ j < 2 * R
  end.

(** [mrs] is what [j] right shifts leave of the mantissa [P]. *)
Definition shr_inv (P j : Z) (mrs : shr_record) : Prop :=
  0 <= shr_m mrs /\
  exists R, 0 <= R < 2 ^ j /\ P = shr_m mrs * 2 ^ j + R /\
            loc_rel R j (shr_r mrs) (shr_s mrs).

(** The double [c] is close enough to [num / den] for [int(n * c)] to be
    the floor of [n * num / den] for every [n] below [2^B]: with
    [c = mc * 2^ec] and [rho = den * mc - num * 2^(-ec)] the scaled error
    of [c], the product stays a whole ulp below the next integer, and a
    product just below an integer rounds to it. *)
Definition close_enough (num den B : Z) (c : Float.float) : bool :=
  match c with
  | S754_finite false mc ec =>
      let rho := den * Zpos mc - num * 2 ^ (- ec) in
      (Zdigits2 (Zpos mc) =? 53) && (-1000 <=? ec) && (ec <=? -53) && (0 <? den)
      && (0 <=? B) && (B <=? 53)
      && (2 ^ B * (Z.max rho 0 + 4 * den) <=? 2 ^ (- ec))
      && (2 ^ B * (- rho) <=? 2 ^ (- ec))
      && (2 ^ 54 * (- rho) <=? den * Zpos mc)
  | _ => false
  end.

(** ** A reference rasteriser

    Strokes along an axis are rectangles, [w] pixels wide ([floor((w-1)/2)]
    before the axis, [ceil((w-1)/2)] after); other strokes are the pixels
    nearest to the segment.  A rounded rectangle is the set of pixels of
    the bounding box within the corner radius of the core rectangle. *)

Definition between (a x b : Z) : bool := (a <=? x) && (x <=? b).

Definition stroke_reference (x0 y0 x1 y1 w x y : Z) : bool :=
  let lo := (Z.max w 1 - 1) `div` 2 in
  let hi := Z.max w 1 `div` 2 in
  if y0 =? y1 then
    between (y0 - lo) y (y0 + hi) && between (Z.min x0 x1) x (Z.max x0 x1)
  else if x0 =? x1 then
    between (x0 - lo) x (x0 + hi) && between (Z.min y0 y1) y (Z.max y0 y1)
  else
    between (Z.min x0 x1 - Z.max w 0) x (Z.max x0 x1 + Z.max w 0) &&
    between (Z.min y0 y1 - Z.max w 0) y (Z.max y0 y1 + Z.max w 0) &&
    (let dx := x1 - x0 in
     let dy := y1 - y0 in
     let cross := Z.abs ((y - y0) * dx - (x - x0) * dy) in
     let along := (x - x0) * dx + (y - y0) * dy in
     between 0 along (dx * dx + dy * dy) &&
     (2 * cross <=? Z.max w 1 * Z.max (Z.abs dx) (Z.abs dy))).

Definition rounded_rect_reference (x0 y0 x1 y1 r x y : Z) : bool :=
  let r' := Z.max 0 (Z.min r (Z.min ((x1 - x0) `div` 2) ((y1 - y0) `div` 2))) in
  let cx := Z.max (x0 + r') (Z.min x (x1 - r')) in
  let cy := Z.max (y0 + r') (Z.min y (y1 - r')) in
  between x0 x x1 && between y0 y y1 &&
  ((x - cx) * (x - cx) + (y - cy) * (y - cy) <=? r' * r').

#[global, refine] Instance reference_rasteriser : Rasteriser := {|
  stroke_covers := stroke_reference;
  rounded_rect_covers := rounded_rect_reference
|}.
Proof.
  - intros x0 x1 y0 w x y Hw. unfold stroke_reference, between.
    rewrite Z.eqb_refl.
    replace (Z.max w 1) with 1 by lia. change ((1 - 1) `div` 2) with 0.
    change (1 `div` 2) with 0.
    destruct (Z.eqb_spec y y0); [subst; simpl|];
      repeat match goal with |- context [?a <=? ?b] => destruct (Z.leb_spec a b) end;
      simpl; try reflexivity; lia.
  - intros x0 y0 y1 w x y Hw. unfold stroke_reference, between.
    rewrite Z.eqb_refl.
    replace (Z.max w 1) with 1 by lia. change ((1 - 1) `div` 2) with 0.
    change (1 `div` 2) with 0.
    destruct (Z.eqb_spec y0 y1), (Z.eqb_spec x x0); subst;
      repeat match goal with |- context [?a <=? ?b] => destruct (Z.leb_spec a b) end;
      simpl; try reflexivity; lia.
  - intros x0 y0 x1 y1 w x y. unfold stroke_reference, between.
    assert (Hlo : 0 <= (Z.max w 1 - 1) `div` 2 <= Z.max w 0).
    { split; [apply Z.div_pos; lia|]. apply Z.div_le_upper_bound; lia. }
    assert (Hhi : 0 <= Z.max w 1 `div` 2 <= Z.max w 0).
    { split; [apply Z.div_pos; lia|].
      destruct (Z_le_gt_dec w 1).
      - replace (Z.max w 1) with 1 by lia. change (1 `div` 2) with 0. lia.
      - apply Z.div_le_upper_bound; lia. }
    destruct (Z.eqb_spec y0 y1); [|destruct (Z.eqb_spec x0 x1)];
      rewrite ?andb_true_iff, ?Z.leb_le; lia.
  - intros x0 y0 x1 y1 r x y. unfold rounded_rect_reference, between.
    rewrite ?andb_true_iff, ?Z.leb_le. lia.
  - intros x0 y0 x1 y1 r x y Hr Hx Hy Hc. unfold rounded_rect_reference, between.
    assert (0 <= (x1 - x0) `div` 2 /\ 2 * ((x1 - x0) `div` 2) <= x1 - x0).
    { split; [apply Z.div_pos; lia|]. apply Z.mul_div_le; lia. }
    assert (0 <= (y1 - y0) `div` 2 /\ 2 * ((y1 - y0) `div` 2) <= y1 - y0).
    { split; [apply Z.div_pos; lia|]. apply Z.mul_div_le; lia. }
    set (r' := Z.max 0 _).
    assert (0 <= r' <= r /\ 2 * r' <= x1 - x0 /\ 2 * r' <= y1 - y0) by (subst r'; lia).
    rewrite ?andb_true_iff, ?Z.leb_le. split; [lia|].
    destruct Hc as [Hc|Hc].
    + replace (Z.max (x0 + r') (Z.min x (x1 - r'))) with x by lia.
      assert (- r' <= y - Z.max (y0 + r') (Z.min y (y1 - r')) <= r') by lia. nia.
    + replace (Z.max (y0 + r') (Z.min y (y1 - r'))) with y by lia.
      assert (- r' <= x - Z.max (x0 + r') (Z.min x (x1 - r')) <= r') by lia. nia.
  - intros x0 y0 x1 y1 r x y Hr Hw Hh. unfold rounded_rect_reference, between.
    assert (r <= (x1 - x0) `div` 2) by (apply Z.div_le_lower_bound; lia).
    assert (r <= (y1 - y0) `div` 2) by (apply Z.div_le_lower_bound; lia).
    replace (Z.max 0 _) with r by lia.
    rewrite ?andb_true_iff, ?Z.leb_le. cbv zeta. nia.
Defined.

(** A file system that holds an older manifest. *)
Definition stale_files : gmap string node :=
  <[json_path := File (Text "{}")]> (<[output_dir := Dir]> (<[assets_dir := Dir]>
    (<["Vellum" := Dir]> ∅))).

(** ** Vocabulary of the further properties *)

(** *** The silhouette on a small canvas *)



(** *** Compositing over an opaque pixel *)

(** The band [s] of opacity [a] over the opaque band [d]: the weighted mean,
    rounded to the nearest integer. *)
Definition mix (a s d : Z) : Z := (2 * (s * a + d * (255 - a)) + 255) / 510.

(** The pixel [s] over the opaque pixel [d]. *)
Definition mix_pixel (d s : pixel) : pixel :=
  if alpha s =? 0 then d
  else Pixel (mix (alpha s) (red s) (red d)) (mix (alpha s) (green s) (green d))
             (mix (alpha s) (blue s) (blue d)) 255.

Definition is_byte (v : Z) : Prop := 0 <= v <= 255.

Definition byte_pixel (p : pixel) : Prop :=
  is_byte (red p) /\ is_byte (green p) /\ is_byte (blue p) /\ is_byte (alpha p).

(** [f] holds at the [n] integers from [z] on. *)
Fixpoint all_from (n : nat) (z : Z) (f : Z -> bool) : bool :=
  match n with
  | O => true
  | S k => f z && all_from k (z + 1) f
  end.

(** The fixed-point blend of the C code agrees with the rounded mean at the
    weighted sum [t] of two bytes. *)
Definition blend_ok (t : Z) : bool :=
  Z.shiftr (SHIFTFORDIV255 (128 * t + 16384)) 7 =? (2 * t + 255) / 510.

(** *** What stands in the way of [main] *)

Definition exists_at (files : gmap string node) (p : string) : bool :=
  match files !! p with Some _ => true | None => false end.

(** The directories of the program are laid out as on a disk: an entry at
    the assets directory has the directory [Vellum] above it, an entry at
    the output directory has the assets directory above it. *)
Definition dirs_nested (files : gmap string node) : bool :=
  (negb (exists_at files assets_dir) || is_dir_at files "Vellum")
  && (negb (exists_at files output_dir) || is_dir_at files assets_dir).

(** The exception [main] ends with, if any: the first thing in its way. *)
Definition main_error (files : gmap string node) : option exn :=
  if is_file_at files "Vellum" then Some NotADirectoryError
  else if is_file_at files assets_dir then Some NotADirectoryError
  else if is_file_at files output_dir then Some FileExistsError
  else if is_dir_at files png_path then Some IsADirectoryError
  else if is_dir_at files json_path then Some IsADirectoryError
  else None.

(** A file system with a regular file where the directory [Vellum] is to
    be. *)
Definition blocked_files : gmap string node := <["Vellum" := File (Text "")]> ∅.

(** *** The gradient *)

(** A float between 0 and 1: zero, or [m * 2^e] on 53 bits with
    [m <= 2^(-e)]. *)
Definition unit_float (f : Float.float) : Prop :=
  match f with
  | S754_zero false => True
  | S754_finite false m e =>
      2 ^ 52 <= Zpos m < 2 ^ 53 /\ -1073 <= e <= -52 /\ Zpos m <= 2 ^ (- e)
  | _ => False
  end.

(** At the ratio [k / 38] the channel that starts at [top] is [top - k]. *)
Definition exact_at (top k : Z) : bool :=
  match Float.true_div k 38 with
  | Ok ratio =>
      match interpolate top (top - 38) ratio with
      | Ok v => v =? top - k
      | Err _ => false
      end
  | Err _ => false
  end.

Definition exact_row (k : Z) : bool :=
  exact_at 153 k && exact_at 115 k && exact_at 89 k.

(** * Verification *)

(** * Floats: every operation the script performs returns *)

Section FloatBounds.

Lemma fexp_eq e : fexp Float.prec Float.emax e = Z.max (e - 53) (-1074).
Proof. reflexivity. Qed.

Lemma digits2_pos_size p : digits2_pos p = Pos.size p.
Proof. induction p; simpl; congruence. Qed.

Lemma Zdigits2_nonneg m : 0 <= Zdigits2 m.
Proof. destruct m; simpl; lia. Qed.

Lemma Zdigits2_lt_pow m : 0 <= m -> m < 2 ^ Zdigits2 m.
Proof.
  destruct m as [|p|p]; intros H; simpl; try lia.
  rewrite digits2_pos_size.
  pose proof (Pos.size_gt p) as G.
  apply Pos2Z.pos_lt_pos in G. rewrite Pos2Z.inj_pow in G. exact G.
Qed.

Lemma Zdigits2_le m k : 0 <= m -> 0 <= k -> m < 2 ^ k -> Zdigits2 m <= k.
Proof.
  destruct m as [|p|p]; intros H Hk Hlt; simpl; try lia.
  rewrite digits2_pos_size.
  pose proof (Pos.size_le p) as G.
  destruct (Z_lt_le_dec k (Zpos (Pos.size p))) as [L|L]; [|lia].
  exfalso.
  assert (2 ^ k * 2 <= 2 ^ Zpos (Pos.size p)).
  { replace (Zpos (Pos.size p)) with (k + 1 + (Zpos (Pos.size p) - k - 1)) by lia.
    rewrite Z.pow_add_r, Z.pow_add_r by lia.
    assert (1 <= 2 ^ (Zpos (Pos.size p) - k - 1)) by (apply Z.pow_le_mono_r with (b := 0); lia).
    assert (0 < 2 ^ k) by (apply Z.pow_pos_nonneg; lia).
    change (2 ^ 1) with 2. nia. }
  assert (Zpos (2 ^ Pos.size p) <= Zpos p~0) by (apply Pos2Z.pos_le_pos; exact G).
  rewrite Pos2Z.inj_pow in H1. lia.
Qed.

Lemma shr_1_m mrs : 0 <= shr_m mrs -> shr_m (shr_1 mrs) = shr_m mrs / 2.
Proof.
  destruct mrs as [m r s]; simpl; intros H.
  destruct m as [|[p|p|]|p]; cbn [shr_m]; try reflexivity; try lia.
  - apply Z.div_unique with (r := 1); lia.
  - apply Z.div_unique with (r := 0); lia.
Qed.

Lemma iter_shr_1_m p : forall mrs, 0 <= shr_m mrs ->
  shr_m (SpecFloat.iter_pos shr_1 p mrs) = shr_m mrs / 2 ^ Zpos p.
Proof.
  assert (Hn : forall m, 0 <= m -> 0 <= m / 2) by (intros; apply Z.div_pos; lia).
  induction p as [p IH|p IH|]; intros mrs H; simpl SpecFloat.iter_pos.
  - assert (H1 : 0 <= shr_m (shr_1 mrs)) by (rewrite shr_1_m; auto).
    assert (H2 : 0 <= shr_m (SpecFloat.iter_pos shr_1 p (shr_1 mrs))).
    { rewrite IH by auto. apply Z.div_pos; lia. }
    rewrite IH, IH, shr_1_m by auto.
    assert (Hp : 0 < 2 ^ Zpos p) by (apply Z.pow_pos_nonneg; lia).
    rewrite !Z.div_div by lia. f_equal.
    replace (Zpos p~1) with (1 + Zpos p + Zpos p) by lia.
    rewrite !Z.pow_add_r by lia. change (2 ^ 1) with 2. ring.
  - assert (H2 : 0 <= shr_m (SpecFloat.iter_pos shr_1 p mrs)).
    { rewrite IH by auto. apply Z.div_pos; lia. }
    rewrite IH, IH by auto.
    assert (Hp : 0 < 2 ^ Zpos p) by (apply Z.pow_pos_nonneg; lia).
    rewrite !Z.div_div by lia. f_equal.
    replace (Zpos p~0) with (Zpos p + Zpos p) by lia.
    rewrite !Z.pow_add_r by lia. ring.
  - rewrite shr_1_m by auto. reflexivity.
Qed.

Lemma shr_record_of_loc_m m l : shr_m (shr_record_of_loc m l) = m.
Proof. destruct l as [|[]]; reflexivity. Qed.

(** What [shr_fexp] leaves of a non-negative mantissa: the exponent only
    grows, to at most [971] when the magnitude class [K] allows it. *)
Lemma shr_fexp_bound m e l K E mrs e' :
  0 <= m -> e <= E -> Zdigits2 m + e <= K ->
  K - 53 <= E -> -1074 <= E -> -1074 <= K ->
  shr_fexp Float.prec Float.emax m e l = (mrs, e') ->
  0 <= shr_m mrs /\ e' <= E /\ Zdigits2 (shr_m mrs) + e' <= K.
Proof.
  intros Hm He HK HKE HE HK' Heq.
  unfold shr_fexp, shr in Heq. rewrite fexp_eq in Heq.
  pose proof (Zdigits2_nonneg m) as Hd.
  destruct (Z.max (Zdigits2 m + e - 53) (-1074) - e) as [|n|n] eqn:Hn;
    inversion Heq; subst; clear Heq; rewrite ?shr_record_of_loc_m; try (split; [|split]; lia).
  rewrite iter_shr_1_m by (rewrite shr_record_of_loc_m; lia).
  rewrite shr_record_of_loc_m.
  assert (Hq : 0 <= m / 2 ^ Zpos n) by (apply Z.div_pos; lia).
  split; [exact Hq|]. split; [lia|].
  destruct (Z.eq_dec (m / 2 ^ Zpos n) 0) as [->|Hnz]; [simpl; lia|].
  assert (Hpow : 0 < 2 ^ Zpos n) by (apply Z.pow_pos_nonneg; lia).
  assert (Hge : 2 ^ Zpos n <= m).
  { destruct (Z_lt_le_dec m (2 ^ Zpos n)); [|lia]. rewrite Z.div_small in Hnz; lia. }
  pose proof (Zdigits2_lt_pow m Hm) as Hlt.
  assert (Hnd : Zpos n < Zdigits2 m).
  { destruct (Z_lt_le_dec (Zpos n) (Zdigits2 m)); [lia|].
    assert (2 ^ Zdigits2 m <= 2 ^ Zpos n) by (apply Z.pow_le_mono_r; lia). lia. }
  assert (Zdigits2 (m / 2 ^ Zpos n) <= Zdigits2 m - Zpos n).
  { apply Zdigits2_le; try lia.
    apply Z.div_lt_upper_bound; [lia|].
    rewrite <- Z.pow_add_r by lia. replace (Zpos n + (Zdigits2 m - Zpos n)) with (Zdigits2 m) by lia.
    exact Hlt. }
  lia.
Qed.

Lemma Zdigits2_succ m : 0 <= m -> Zdigits2 (m + 1) <= Zdigits2 m + 1.
Proof.
  intros Hm. pose proof (Zdigits2_nonneg m). pose proof (Zdigits2_lt_pow m Hm).
  apply Zdigits2_le; try lia.
  rewrite Z.pow_add_r by lia. change (2 ^ 1) with 2. lia.
Qed.

Lemma round_nearest_even_bound m l :
  0 <= m -> 0 <= round_nearest_even m l /\ Zdigits2 (round_nearest_even m l) <= Zdigits2 m + 1.
Proof.
  intros Hm. pose proof (Zdigits2_succ m Hm).
  unfold round_nearest_even. destruct l as [|[]]; try destruct (Z.even m); lia.
Qed.

Lemma binary_round_aux_bound s mx ex lx K E :
  0 <= mx -> ex <= E -> Zdigits2 mx + ex <= K ->
  K - 52 <= E -> -1074 <= E -> -1074 <= K -> E <= 971 ->
  fbound s (K + 1) E (binary_round_aux Float.prec Float.emax s mx ex lx).
Proof.
  intros Hm He HK HKE HE HK' HE'.
  unfold binary_round_aux.
  destruct (shr_fexp Float.prec Float.emax mx ex lx) as [mrs1 e1] eqn:H1.
  destruct (shr_fexp_bound _ _ _ K E _ _ Hm He HK ltac:(lia) HE HK' H1) as (A1 & A2 & A3).
  destruct (round_nearest_even_bound (shr_m mrs1) (loc_of_shr_record mrs1) A1) as (R1 & R2).
  destruct (shr_fexp Float.prec Float.emax _ e1 loc_Exact) as [mrs2 e2] eqn:H2.
  destruct (shr_fexp_bound _ _ _ (K + 1) E _ _ R1 A2 ltac:(lia) ltac:(lia) HE ltac:(lia) H2)
    as (B1 & B2 & B3).
  destruct (shr_m mrs2) as [|m|m] eqn:Hm2; [exact I| |lia].
  change (Float.emax - Float.prec) with 971.
  destruct (Z.leb_spec e2 971); [|lia].
  simpl. simpl in B3. repeat split; [lia|exact B2].
Qed.

Lemma binary_round_aux_sign s mx ex lx s' m e :
  binary_round_aux Float.prec Float.emax s mx ex lx = S754_finite s' m e -> s' = s.
Proof.
  unfold binary_round_aux.
  destruct (shr_fexp _ _ mx ex lx) as [mrs1 e1].
  destruct (shr_fexp _ _ _ e1 loc_Exact) as [mrs2 e2].
  destruct (shr_m mrs2); try discriminate.
  destruct (e2 <=? _); [|discriminate]. congruence.
Qed.

Lemma digits2_pos_iter_xO d m :
  Zpos (digits2_pos (Pos.iter xO m d)) = Zpos (digits2_pos m) + Zpos d.
Proof.
  induction d as [|d IH] using Pos.peano_ind.
  - simpl. lia.
  - rewrite Pos.iter_succ. simpl digits2_pos. rewrite Pos2Z.inj_succ, IH. lia.
Qed.

Lemma shl_align_spec mx ex ex' mz ez :
  shl_align mx ex ex' = (mz, ez) ->
  ez = Z.min ex ex' /\ Zpos (digits2_pos mz) + ez = Zpos (digits2_pos mx) + ex.
Proof.
  unfold shl_align. destruct (ex' - ex) as [|d|d] eqn:Hd; intros Heq; inversion Heq; subst.
  - lia.
  - lia.
  - rewrite digits2_pos_iter_xO. lia.
Qed.

Lemma binary_round_bound s m e K E :
  Zpos (digits2_pos m) + e <= K -> e <= E ->
  K - 52 <= E -> -1074 <= E -> -1074 <= K -> E <= 971 ->
  fbound s (K + 1) E (binary_round Float.prec Float.emax s m e).
Proof.
  intros HK He HKE HE HK' HE'. unfold binary_round.
  destruct (shl_align m e _) as [mz ez] eqn:Hs.
  apply shl_align_spec in Hs. destruct Hs as [Hez Hd].
  apply binary_round_aux_bound; simpl; lia.
Qed.

Lemma fbound_weaken s K E K' E' x :
  fbound s K E x -> K <= K' -> E <= E' -> fbound s K' E' x.
Proof. destruct x; simpl; intuition lia. Qed.

(** [float(n)]. *)
Lemma of_int_bound n :
  Z.abs n < 2 ^ 1023 ->
  exists f, Float.of_int n = Ok f /\
    fbound (n <? 0) (Zdigits2 n + 1) (Z.max 0 (Zdigits2 n - 52)) f.
Proof.
  intros Hn. unfold Float.of_int.
  assert (Hd : Zdigits2 n <= 1023).
  { destruct n as [|p|p]; [simpl; lia| |].
    - apply Zdigits2_le; lia.
    - change (Zdigits2 (Zneg p)) with (Zdigits2 (Zpos p)). apply Zdigits2_le; lia. }
  assert (Hb : fbound (n <? 0) (Zdigits2 n + 1) (Z.max 0 (Zdigits2 n - 52))
                 (binary_normalize Float.prec Float.emax n 0 false)).
  { destruct n as [|p|p]; simpl binary_normalize; [exact I| |];
      apply binary_round_bound; simpl in *; lia. }
  destruct (binary_normalize Float.prec Float.emax n 0 false); simpl in Hb; try contradiction;
    eexists; split; try reflexivity; simpl; auto.
Qed.

Lemma Zdigits2_mul a b :
  0 <= a -> 0 <= b -> Zdigits2 (a * b) <= Zdigits2 a + Zdigits2 b.
Proof.
  intros Ha Hb.
  pose proof (Zdigits2_nonneg a). pose proof (Zdigits2_nonneg b).
  pose proof (Zdigits2_lt_pow a Ha). pose proof (Zdigits2_lt_pow b Hb).
  apply Zdigits2_le; try lia.
  rewrite Z.pow_add_r by lia. nia.
Qed.

Lemma SFmul_bound sx Kx Ex x sy Ky Ey y E :
  fbound sx Kx Ex x -> fbound sy Ky Ey y ->
  Ex + Ey <= E -> Kx + Ky - 52 <= E -> -1074 <= E -> -1074 <= Kx + Ky -> E <= 971 ->
  fbound (xorb sx sy) (Kx + Ky + 1) E (SFmul Float.prec Float.emax x y).
Proof.
  intros Hx Hy H1 H2 H3 H4 H5.
  destruct x as [| | |s1 m1 e1], y as [| | |s2 m2 e2]; simpl in Hx, Hy; try contradiction;
    try exact I.
  destruct Hx as (-> & Hx1 & Hx2), Hy as (-> & Hy1 & Hy2).
  unfold SFmul. apply binary_round_aux_bound; try lia.
  pose proof (Zdigits2_mul (Zpos m1) (Zpos m2) ltac:(lia) ltac:(lia)) as Hm.
  simpl in Hm. simpl. lia.
Qed.

(** [int(f)]. *)
Lemma to_int_bound s K E f :
  fbound s K E f ->
  exists v, Float.to_int f = Ok v /\ Z.abs v < 2 ^ Z.max K 0 /\ (s = false -> 0 <= v).
Proof.
  destruct f as [| | |s' m e]; simpl; try contradiction.
  - intros _. exists 0. split; [reflexivity|]. split; [|lia].
    simpl. apply Z.pow_pos_nonneg; lia.
  - intros (-> & HK & HE). eexists. split; [reflexivity|].
    pose proof (Zdigits2_lt_pow (Zpos m) ltac:(lia)) as Hm. simpl in Hm.
    set (d := Zpos (digits2_pos m)) in *.
    assert (Hv : 0 <= (if 0 <=? e then Zpos m * 2 ^ e else Zpos m / 2 ^ (- e)) < 2 ^ Z.max K 0).
    { destruct (Z.leb_spec 0 e).
      - assert (0 < 2 ^ e) by (apply Z.pow_pos_nonneg; lia).
        split; [nia|].
        apply Z.lt_le_trans with (2 ^ d * 2 ^ e); [nia|].
        rewrite <- Z.pow_add_r by lia. apply Z.pow_le_mono_r; lia.
      - assert (0 < 2 ^ (- e)) by (apply Z.pow_pos_nonneg; lia).
        split; [apply Z.div_pos; lia|].
        destruct (Z_le_gt_dec d (- e)).
        + rewrite Z.div_small; [apply Z.pow_pos_nonneg; lia|].
          split; [lia|]. apply Z.lt_le_trans with (2 ^ d); [lia|].
          apply Z.pow_le_mono_r; lia.
        + apply Z.div_lt_upper_bound; [lia|].
          apply Z.lt_le_trans with (2 ^ d); [lia|].
          rewrite <- Z.pow_add_r by lia. apply Z.pow_le_mono_r; lia. }
    destruct s; split; try lia; intros; try discriminate; lia.
Qed.

(** [int(n * c)] for a non-negative [int] and a constant below one. *)
Lemma int_mul_bound n c k :
  0 <= n < 2 ^ k -> 0 <= k <= 1022 -> fbound false 0 0 c ->
  exists v, int_mul n c = Ok v /\ 0 <= v < 2 ^ (k + 2).
Proof.
  intros Hn Hk Hc. unfold int_mul, Float.mul_int.
  assert (Hd : Zdigits2 n <= k) by (apply Zdigits2_le; lia).
  pose proof (Zdigits2_nonneg n) as Hd0.
  assert (Hlt : 2 ^ k <= 2 ^ 1023) by (apply Z.pow_le_mono_r; lia).
  destruct (of_int_bound n ltac:(lia)) as (x & -> & Hx).
  replace (n <? 0) with false in Hx by (symmetry; apply Z.ltb_ge; lia).
  pose proof (SFmul_bound _ _ _ _ _ _ _ _ (Z.max 1 (Zdigits2 n - 51)) Hx Hc
                ltac:(lia) ltac:(lia) ltac:(lia) ltac:(lia) ltac:(lia)) as Hp.
  simpl xorb in Hp. simpl.
  destruct (to_int_bound _ _ _ _ Hp) as (v & Hv & Hb & Hs).
  exists v. split; [exact Hv|]. specialize (Hs eq_refl). split; [lia|].
  apply Z.lt_le_trans with (2 ^ Z.max (Zdigits2 n + 1 + 0 + 1) 0); [lia|].
  apply Z.pow_le_mono_r; lia.
Qed.

(** [y / size] for a row of the canvas. *)
Lemma true_div_bound y size :
  0 <= y < size -> exists f, Float.true_div y size = Ok f /\ fbound false 1 0 f.
Proof.
  intros Hy. unfold Float.true_div.
  destruct (Z.eqb_spec size 0); [lia|].
  destruct (Z.eqb_spec y 0).
  { eexists. split; [reflexivity|exact I]. }
  replace (y <? 0) with false by (symmetry; apply Z.ltb_ge; lia).
  replace (size <? 0) with false by (symmetry; apply Z.ltb_ge; lia).
  rewrite !Z.abs_eq by lia.
  unfold SFdiv_core_binary.
  set (e' := Z.min _ (0 - 0)).
  assert (He' : e' <= 0) by (subst e'; lia).
  set (m' := match 0 - 0 - e' with Z0 => y | Zpos _ => Z.shiftl y (0 - 0 - e') | Zneg _ => 0 end).
  assert (Hm' : m' = y * 2 ^ (- e')).
  { subst m'. destruct (0 - 0 - e') as [|p|p] eqn:Hs.
    - replace (- e') with 0 by lia. simpl. lia.
    - rewrite Z.shiftl_mul_pow2 by lia. f_equal. f_equal. lia.
    - lia. }
  assert (Hpow : 0 < 2 ^ (- e')) by (apply Z.pow_pos_nonneg; lia).
  pose proof (Z_div_mod m' size ltac:(lia)) as Hdm.
  destruct (Z.div_eucl m' size) as [q r]. destruct Hdm as [Hq Hr].
  assert (Hq0 : 0 <= q) by nia.
  assert (Hq1 : q < 2 ^ (- e')) by nia.
  assert (Hdq : Zdigits2 q <= - e') by (apply Zdigits2_le; lia).
  pose proof (binary_round_aux_bound false q e' (new_location size r) 0 0
                Hq0 He' ltac:(lia) ltac:(lia) ltac:(lia) ltac:(lia) ltac:(lia)) as Hb.
  simpl xorb.
  destruct (binary_round_aux _ _ false q e' _) eqn:Hres; simpl in Hb; try contradiction;
    eexists; (split; [reflexivity|]); simpl; auto.
Qed.

Lemma SFadd_bound sx sy K E x y :
  fbound sx K E x -> fbound sy K E y ->
  K - 51 <= E -> -1074 <= E -> -1074 <= K -> E <= 971 ->
  exists s, fbound s (K + 2) E (SFadd Float.prec Float.emax x y).
Proof.
  intros Hx Hy H1 H2 H3 H4.
  destruct x as [sx'| | |sx' mx ex], y as [sy'| | |sy' my ey]; simpl in Hx, Hy;
    try contradiction.
  - exists false. simpl. destruct sx', sy'; exact I.
  - exists sy. simpl. intuition lia.
  - exists sx. simpl. intuition lia.
  - destruct Hx as (-> & Hx1 & Hx2), Hy as (-> & Hy1 & Hy2).
    unfold SFadd.
    set (ez := Z.min ex ey).
    destruct (shl_align mx ex ez) as [mx' ex'] eqn:Hsx.
    destruct (shl_align my ey ez) as [my' ey'] eqn:Hsy.
    apply shl_align_spec in Hsx, Hsy. destruct Hsx as [Hex Hdx], Hsy as [Hey Hdy].
    simpl fst.
    pose proof (Zdigits2_lt_pow (Zpos mx') ltac:(lia)) as Hmx. simpl in Hmx.
    pose proof (Zdigits2_lt_pow (Zpos my') ltac:(lia)) as Hmy. simpl in Hmy.
    assert (Hpx : 2 ^ Zpos (digits2_pos mx') <= 2 ^ (K - ez)) by (apply Z.pow_le_mono_r; lia).
    assert (Hpy : 2 ^ Zpos (digits2_pos my') <= 2 ^ (K - ez)) by (apply Z.pow_le_mono_r; lia).
    set (z := cond_Zopp sx (Zpos mx') + cond_Zopp sy (Zpos my')).
    assert (Hz : Z.abs z < 2 ^ (K - ez + 1)).
    { rewrite Z.pow_add_r by lia. change (2 ^ 1) with 2.
      subst z. unfold cond_Zopp. destruct sx, sy; lia. }
    assert (Hdz : Zdigits2 (Z.abs z) <= K - ez + 1) by (apply Zdigits2_le; lia).
    destruct z as [|m|m] eqn:Hzz.
    + exists false. exact I.
    + exists false. simpl binary_normalize.
      replace (K + 2) with (K + 1 + 1) by lia.
      apply binary_round_bound; simpl in *; lia.
    + exists true. simpl binary_normalize.
      replace (K + 2) with (K + 1 + 1) by lia.
      apply binary_round_bound; simpl in *; lia.
Qed.

(** [int(top + (bottom - top) * ratio)] for colour channels. *)
Lemma interpolate_ok top bottom ratio :
  Z.abs top < 2 ^ 10 -> Z.abs (bottom - top) < 2 ^ 10 -> fbound false 1 0 ratio ->
  exists v, interpolate top bottom ratio = Ok v.
Proof.
  intros Ht Hb Hr. unfold interpolate, Float.mul_int, Float.add_int.
  assert (Hp10 : 2 ^ 10 < 2 ^ 1023) by (apply Z.pow_lt_mono_r; lia).
  destruct (of_int_bound (bottom - top) ltac:(lia)) as (x & -> & Hx).
  assert (Hdx : Zdigits2 (bottom - top) <= 10).
  { destruct (bottom - top) as [|p|p] eqn:E; [simpl; lia| |].
    - apply Zdigits2_le; lia.
    - change (Zdigits2 (Zneg p)) with (Zdigits2 (Zpos p)). apply Zdigits2_le; lia. }
  pose proof (Zdigits2_nonneg (bottom - top)).
  pose proof (SFmul_bound _ _ _ _ _ _ _ _ 0 Hx Hr
                ltac:(lia) ltac:(lia) ltac:(lia) ltac:(lia) ltac:(lia)) as Hp.
  simpl.
  destruct (of_int_bound top ltac:(lia)) as (t & -> & Hxt).
  assert (Hdt : Zdigits2 top <= 10).
  { destruct top as [|p|p] eqn:E; [simpl; lia| |].
    - apply Zdigits2_le; lia.
    - change (Zdigits2 (Zneg p)) with (Zdigits2 (Zpos p)). apply Zdigits2_le; lia. }
  pose proof (Zdigits2_nonneg top).
  simpl.
  destruct (SFadd_bound _ _ 13 0 _ _
              (fbound_weaken _ _ _ 13 0 _ Hxt ltac:(lia) ltac:(lia))
              (fbound_weaken _ _ _ 13 0 _ Hp ltac:(lia) ltac:(lia))
              ltac:(lia) ltac:(lia) ltac:(lia) ltac:(lia)) as (s & Hs).
  destruct (to_int_bound _ _ _ _ Hs) as (v & Hv & _).
  exists v. exact Hv.
Qed.

(** Every row of the gradient has a colour. *)
Lemma gradient_rgb_ok size y :
  0 <= y < size -> exists c, gradient_rgb size y = Ok c.
Proof.
  intros Hy. unfold gradient_rgb.
  destruct (true_div_bound y size Hy) as (ratio & -> & Hr).
  destruct (interpolate_ok (item0 top_color) (item0 bottom_color) ratio) as (r & Er);
    [vm_compute; reflexivity | vm_compute; reflexivity | exact Hr |].
  destruct (interpolate_ok (item1 top_color) (item1 bottom_color) ratio) as (g & Eg);
    [vm_compute; reflexivity | vm_compute; reflexivity | exact Hr |].
  destruct (interpolate_ok (item2 top_color) (item2 bottom_color) ratio) as (b & Eb);
    [vm_compute; reflexivity | vm_compute; reflexivity | exact Hr |].
  unfold mbind, result_bind. rewrite Er, Eg, Eb. eexists; reflexivity.
Qed.

End FloatBounds.

(** * Floats: [int(n * c)] is the exact proportion, truncated *)

Lemma Zdigits2_ge_pow m : 0 < m -> 2 ^ (Zdigits2 m - 1) <= m.
Proof.
  destruct m as [|p|p]; intros H; try lia. simpl Zdigits2. rewrite digits2_pos_size.
  pose proof (Pos.size_le p) as G.
  assert (G' : Zpos (2 ^ Pos.size p) <= Zpos p~0) by (apply Pos2Z.pos_le_pos; exact G).
  rewrite Pos2Z.inj_pow in G'.
  replace (Zpos (Pos.size p)) with (1 + (Zpos (Pos.size p) - 1)) in G' by lia.
  rewrite Z.pow_add_r in G' by lia. change (2 ^ 1) with 2 in G'. lia.
Qed.

Lemma Zdigits2_eq m d : 2 ^ (d - 1) <= m < 2 ^ d -> 0 < d -> Zdigits2 m = d.
Proof.
  intros [Hl Hu] Hd.
  assert (Hm : 0 < m).
  { assert (0 < 2 ^ (d - 1)) by (apply Z.pow_pos_nonneg; lia). lia. }
  pose proof (Zdigits2_le m d ltac:(lia) ltac:(lia) Hu).
  pose proof (Zdigits2_ge_pow m Hm).
  pose proof (Zdigits2_nonneg m).
  destruct (Z_lt_le_dec (Zdigits2 m) d) as [L|L]; [|lia].
  exfalso.
  assert (Hz : 0 < Zdigits2 m) by (destruct m; simpl; lia).
  pose proof (Zdigits2_lt_pow m ltac:(lia)).
  assert (2 ^ Zdigits2 m <= 2 ^ (d - 1)) by (apply Z.pow_le_mono_r; lia). lia.
Qed.

Lemma shr_1_inv P j mrs : 0 <= j -> shr_inv P j mrs -> shr_inv P (j + 1) (shr_1 mrs).
Proof.
  intros Hj (Hm & R & HR & HP & Hl).
  assert (Hp : 0 < 2 ^ j) by (apply Z.pow_pos_nonneg; lia).
  assert (E : 2 ^ (j + 1) = 2 * 2 ^ j)
    by (rewrite Z.pow_add_r by lia; change (2 ^ 1) with 2; lia).
  destruct mrs as [m r s]. cbn [shr_m shr_r shr_s] in *.
  unfold shr_inv. rewrite E. set (X := 2 ^ j) in *.
  destruct m as [|[p|p|]|p]; try lia; cbn [shr_1 shr_m shr_r shr_s]; (split; [lia|]).
  - exists R. split; [lia|]. split; [lia|]. destruct r, s; simpl in *; lia.
  - exists (X + R). split; [lia|]. split; [lia|]. destruct r, s; simpl in *; lia.
  - exists R. split; [lia|]. split; [lia|]. destruct r, s; simpl in *; lia.
  - exists (X + R). split; [lia|]. split; [lia|]. destruct r, s; simpl in *; lia.
Qed.

Lemma iter_shr_1_inv P p : forall j mrs, 0 <= j -> shr_inv P j mrs ->
  shr_inv P (j + Zpos p) (SpecFloat.iter_pos shr_1 p mrs).
Proof.
  induction p as [p IH|p IH|]; intros j mrs Hj Hi; simpl SpecFloat.iter_pos.
  - replace (j + Zpos p~1) with (j + 1 + Zpos p + Zpos p) by lia.
    apply IH; [lia|]. apply IH; [lia|]. apply shr_1_inv; assumption.
  - replace (j + Zpos p~0) with (j + Zpos p + Zpos p) by lia.
    apply IH; [lia|]. apply IH; assumption.
  - apply shr_1_inv; assumption.
Qed.

Lemma shr_inv_div P j mrs : 0 <= j -> shr_inv P j mrs ->
  shr_m mrs = P / 2 ^ j /\ loc_rel (P mod 2 ^ j) j (shr_r mrs) (shr_s mrs).
Proof.
  intros Hj (Hm & R & HR & HP & Hl).
  assert (Hp : 0 < 2 ^ j) by (apply Z.pow_pos_nonneg; lia).
  assert (E1 : shr_m mrs = P / 2 ^ j) by (apply Z.div_unique with R; lia).
  assert (E2 : R = P mod 2 ^ j) by (apply Z.mod_unique with (shr_m mrs); lia).
  subst R. split; assumption.
Qed.

Lemma shr_fexp_inv P e :
  0 < P -> 53 <= Zdigits2 P -> -1074 <= Zdigits2 P + e - 53 ->
  exists mrs,
    shr_fexp Float.prec Float.emax P e loc_Exact = (mrs, e + (Zdigits2 P - 53)) /\
    shr_inv P (Zdigits2 P - 53) mrs.
Proof.
  intros HP Hd He. unfold shr_fexp. rewrite fexp_eq.
  replace (Z.max (Zdigits2 P + e - 53) (-1074) - e) with (Zdigits2 P - 53) by lia.
  assert (H0 : shr_inv P 0 (shr_record_of_loc P loc_Exact)).
  { split; [simpl; lia|]. exists 0. simpl. lia. }
  unfold shr. destruct (Zdigits2 P - 53) as [|k|k] eqn:Hk; try lia.
  - eexists. split; [f_equal; lia|exact H0].
  - eexists. split; [reflexivity|]. apply (iter_shr_1_inv P k 0); [lia|exact H0].
Qed.

Lemma round_nearest_even_loc m R j r s :
  loc_rel R j r s -> 0 <= R < 2 ^ j ->
  m <= round_nearest_even m (loc_of_shr_record (Build_shr_record m r s)) <= m + 1 /\
  (2 ^ j < 2 * R ->
   round_nearest_even m (loc_of_shr_record (Build_shr_record m r s)) = m + 1) /\
  (2 * R < 2 ^ j ->
   round_nearest_even m (loc_of_shr_record (Build_shr_record m r s)) = m).
Proof.
  destruct r, s; simpl; intros; try destruct (Z.even m); lia.
Qed.

(** Rounding a product to 53 bits: the mantissa [mr] kept is the quotient of
    [P] by [2^k], or one more, and it is one more when the remainder is
    above half of [2^k]. *)
Lemma binary_round_aux_value P e :
  0 < P -> 53 <= Zdigits2 P -> -1074 <= Zdigits2 P + e - 53 -> Zdigits2 P + e <= 1023 ->
  exists m2 e2 mr,
    binary_round_aux Float.prec Float.emax false P e loc_Exact = S754_finite false m2 e2 /\
    P / 2 ^ (Zdigits2 P - 53) <= mr <= P / 2 ^ (Zdigits2 P - 53) + 1 /\
    (2 ^ (Zdigits2 P - 53) < 2 * (P mod 2 ^ (Zdigits2 P - 53)) ->
     mr = P / 2 ^ (Zdigits2 P - 53) + 1) /\
    (2 * (P mod 2 ^ (Zdigits2 P - 53)) < 2 ^ (Zdigits2 P - 53) ->
     mr = P / 2 ^ (Zdigits2 P - 53)) /\
    e + (Zdigits2 P - 53) <= e2 /\
    mr = Zpos m2 * 2 ^ (e2 - (e + (Zdigits2 P - 53))) /\
    (mr < 2 ^ 53 -> Zpos m2 = mr /\ e2 = e + (Zdigits2 P - 53)).
Proof.
  intros HP Hd He Ho. unfold binary_round_aux.
  destruct (shr_fexp_inv P e HP Hd He) as (mrs & -> & Hi).
  set (k := Zdigits2 P - 53) in *.
  assert (Hk : 0 <= k) by (subst k; lia).
  assert (Hp : 0 < 2 ^ k) by (apply Z.pow_pos_nonneg; lia).
  destruct (shr_inv_div P k mrs Hk Hi) as [Hm Hl].
  pose proof (Z.mod_pos_bound P (2 ^ k) Hp) as HR.
  destruct mrs as [m1 r s]. cbn [shr_m shr_r shr_s] in *.
  destruct (round_nearest_even_loc m1 _ _ _ _ Hl HR) as (R1 & R2 & R3).
  set (mr := round_nearest_even m1 (loc_of_shr_record (Build_shr_record m1 r s))) in *.
  (* the quotient has 53 bits *)
  pose proof (Zdigits2_ge_pow P HP) as Hlo.
  pose proof (Zdigits2_lt_pow P ltac:(lia)) as Hhi.
  assert (E52 : 2 ^ (Zdigits2 P - 1) = 2 ^ 52 * 2 ^ k).
  { rewrite <- Z.pow_add_r by lia. f_equal. subst k. lia. }
  assert (E53 : 2 ^ Zdigits2 P = 2 ^ 53 * 2 ^ k).
  { rewrite <- Z.pow_add_r by lia. f_equal. subst k. lia. }
  assert (Hm1 : 2 ^ 52 <= m1 < 2 ^ 53).
  { rewrite Hm. split.
    - apply Z.div_le_lower_bound; lia.
    - apply Z.div_lt_upper_bound; lia. }
  destruct (Z_lt_le_dec mr (2 ^ 53)) as [Hlt|Hge].
  - assert (Hdm : Zdigits2 mr = 53) by (apply Zdigits2_eq; [change (53 - 1) with 52|]; lia).
    unfold shr_fexp. rewrite fexp_eq, Hdm.
    replace (Z.max (53 + (e + k) - 53) (-1074) - (e + k)) with 0 by lia.
    cbn [shr shr_record_of_loc shr_m].
    destruct mr as [|m2|m2] eqn:Emr; try lia.
    change (Float.emax - Float.prec) with 971.
    destruct (Z.leb_spec (e + k) 971); [|lia].
    exists m2, (e + k), (Zpos m2).
    rewrite <- Hm. replace (e + k - (e + k)) with 0 by lia.
    repeat split; try lia; auto.
  - assert (Emr : mr = 2 ^ 53) by lia.
    rewrite Emr.
    unfold shr_fexp. rewrite fexp_eq.
    change (Zdigits2 (2 ^ 53)) with 54.
    replace (Z.max (54 + (e + k) - 53) (-1074) - (e + k)) with 1 by lia.
    cbn [shr shr_record_of_loc SpecFloat.iter_pos].
    change (shr_m (shr_1 {| shr_m := 2 ^ 53; shr_r := false; shr_s := false |}))
      with (2 ^ 52).
    change (2 ^ 52) with (Zpos (2 ^ 52)) at 1.
    cbv iota beta.
    change (Float.emax - Float.prec) with 971.
    destruct (Z.leb_spec (e + k + 1) 971); [|lia].
    exists (2 ^ 52)%positive, (e + k + 1), mr.
    rewrite <- Hm. replace (e + k + 1 - (e + k)) with 1 by lia.
    rewrite Emr.
    repeat split; try lia; auto.
Qed.

Lemma iter_xO_value d m : Zpos (Pos.iter xO m d) = Zpos m * 2 ^ Zpos d.
Proof.
  induction d as [|d IH] using Pos.peano_ind.
  - simpl. lia.
  - rewrite Pos.iter_succ, Pos2Z.inj_succ, Z.pow_succ_r by lia.
    rewrite Pos2Z.inj_xO, IH. lia.
Qed.

(** [float(n)] is exact below [2^53]. *)
Lemma of_int_exact n :
  0 < n < 2 ^ 53 ->
  exists mx,
    Float.of_int n = Ok (S754_finite false mx (Zdigits2 n - 53)) /\
    Zpos mx = n * 2 ^ (53 - Zdigits2 n) /\ Zdigits2 (Zpos mx) = 53.
Proof.
  intros Hn. destruct n as [|p|p]; try lia.
  pose proof (Zdigits2_le (Zpos p) 53 ltac:(lia) ltac:(lia) ltac:(lia)) as Hd.
  assert (Hd1 : 0 < Zdigits2 (Zpos p)) by (simpl; lia).
  unfold Float.of_int. cbn [binary_normalize]. unfold binary_round.
  rewrite fexp_eq.
  destruct (shl_align p 0 _) as [mz ez] eqn:Hs.
  assert (Hz : ez = Zdigits2 (Zpos p) - 53 /\
               Zpos mz = Zpos p * 2 ^ (53 - Zdigits2 (Zpos p))).
  { unfold shl_align in Hs. cbn [Zdigits2] in *.
    destruct (Z.max (Zpos (digits2_pos p) + 0 - 53) (-1074) - 0) as [|d|d] eqn:Hx;
      injection Hs as Hmz Hez; rewrite <- Hmz, <- Hez.
    - replace (53 - Zpos (digits2_pos p)) with 0 by lia. simpl. lia.
    - lia.
    - rewrite iter_xO_value. split; [lia|]. f_equal. f_equal. lia. }
  destruct Hz as [-> Hmz].
  assert (Hdz : Zdigits2 (Zpos mz) = 53).
  { pose proof (Zdigits2_ge_pow (Zpos p) ltac:(lia)) as Hlo.
    pose proof (Zdigits2_lt_pow (Zpos p) ltac:(lia)) as Hhi.
    assert (0 < 2 ^ (53 - Zdigits2 (Zpos p))) by (apply Z.pow_pos_nonneg; lia).
    apply Zdigits2_eq; [|lia]. rewrite Hmz. split.
    - replace (53 - 1) with (Zdigits2 (Zpos p) - 1 + (53 - Zdigits2 (Zpos p))) by lia.
      rewrite Z.pow_add_r by lia. nia.
    - replace 53 with (Zdigits2 (Zpos p) + (53 - Zdigits2 (Zpos p))) at 2 by lia.
      rewrite Z.pow_add_r by lia. nia. }
  destruct (binary_round_aux_value (Zpos mz) (Zdigits2 (Zpos p) - 53))
    as (m2 & e2 & mr & -> & A1 & _ & A3 & _ & _ & A6); try lia.
  rewrite Hdz in *. change (2 ^ (53 - 53)) with 1 in *.
  rewrite Z.mod_1_r, Z.div_1_r in *.
  assert (Emr : mr = Zpos mz) by (apply A3; lia).
  pose proof (Zdigits2_lt_pow (Zpos mz) ltac:(lia)) as Hlt. rewrite Hdz in Hlt.
  destruct A6 as [B1 B2]; [lia|].
  assert (m2 = mz) by lia. subst m2.
  exists mz. split; [f_equal; f_equal; lia|]. split; assumption.
Qed.

Lemma to_int_value m2 e2 mr t :
  0 <= t -> 0 <= e2 + t -> mr = Zpos m2 * 2 ^ (e2 + t) ->
  Float.to_int (S754_finite false m2 e2) = Ok (mr / 2 ^ t).
Proof.
  intros Ht He ->. cbn [Float.to_int]. f_equal.
  assert (Hp : 0 < 2 ^ t) by (apply Z.pow_pos_nonneg; lia).
  destruct (Z.leb_spec 0 e2).
  - rewrite Z.pow_add_r, Z.mul_assoc, Z.div_mul by lia. reflexivity.
  - assert (Hq : 0 < 2 ^ (e2 + t)) by (apply Z.pow_pos_nonneg; lia).
    replace t with (- e2 + (e2 + t)) at 2 by lia.
    rewrite (Z.pow_add_r 2 (- e2) (e2 + t)) by lia.
    rewrite Z.div_mul_cancel_r by lia. reflexivity.
Qed.

(** [int(n * c)] is the floor of the exact product [n * num / den] when the
    double [c = mc * 2^ec] is close enough to [num / den] for the size of
    [n]: [rho] is the error of [c], scaled. *)
Lemma int_mul_exact n mc ec num den rho B :
  0 < n < 2 ^ B -> 0 <= B <= 53 ->
  Zdigits2 (Zpos mc) = 53 -> -1000 <= ec <= -53 ->
  0 < den ->
  den * Zpos mc = num * 2 ^ (- ec) + rho ->
  2 ^ B * (Z.max rho 0 + 4 * den) <= 2 ^ (- ec) ->
  2 ^ B * (- rho) <= 2 ^ (- ec) ->
  2 ^ 54 * (- rho) <= den * Zpos mc ->
  int_mul n (S754_finite false mc ec) = Ok (n * num / den).
Proof.
  intros Hn HB Hdc Hec Hden Hrho Hup Hlow Hhalf.
  assert (Hn53 : n < 2 ^ 53).
  { apply Z.lt_le_trans with (2 ^ B); [lia|]. apply Z.pow_le_mono_r; lia. }
  destruct (of_int_exact n ltac:(lia)) as (mx & Hof & Hmx & Hdx).
  unfold int_mul, Float.mul_int. rewrite Hof.
  cbn [mbind result_bind SFmul xorb].
  (* sizes *)
  pose proof (Zdigits2_le n B ltac:(lia) ltac:(lia) ltac:(lia)) as HdB.
  assert (Hdn : 0 < Zdigits2 n) by (destruct n; simpl; lia).
  set (a := 53 - Zdigits2 n) in *.
  assert (Ha : 0 <= a) by (subst a; pose proof (Zdigits2_le n 53 ltac:(lia) ltac:(lia) Hn53); lia).
  pose proof (Zdigits2_ge_pow (Zpos mx) ltac:(lia)) as Hx1.
  pose proof (Zdigits2_lt_pow (Zpos mx) ltac:(lia)) as Hx2.
  pose proof (Zdigits2_ge_pow (Zpos mc) ltac:(lia)) as Hc1.
  pose proof (Zdigits2_lt_pow (Zpos mc) ltac:(lia)) as Hc2.
  rewrite Hdx in Hx1, Hx2. rewrite Hdc in Hc1, Hc2.
  change (53 - 1) with 52 in *.
  rewrite Pos2Z.inj_mul.
  set (P := Zpos mx * Zpos mc).
  assert (HP1 : 2 ^ 104 <= P) by (subst P; change (2 ^ 104) with (2 ^ 52 * 2 ^ 52); nia).
  assert (HP2 : P < 2 ^ 106) by (subst P; change (2 ^ 106) with (2 ^ 53 * 2 ^ 53); nia).
  assert (HdP : 105 <= Zdigits2 P <= 106).
  { split.
    - pose proof (Zdigits2_lt_pow P ltac:(lia)) as Hq.
      destruct (Z_lt_le_dec (Zdigits2 P) 105); [|lia]. exfalso.
      pose proof (Zdigits2_nonneg P).
      assert (2 ^ Zdigits2 P <= 2 ^ 104) by (apply Z.pow_le_mono_r; lia). lia.
    - apply Zdigits2_le; lia. }
  assert (Hex : Zdigits2 n - 53 = - a) by (subst a; lia).
  rewrite Hex.
  destruct (binary_round_aux_value P (- a + ec))
    as (m2 & e2 & mr & -> & A1 & A2 & _ & A4 & A5 & _); try lia.
  set (k := Zdigits2 P - 53) in *.
  set (t := a - ec - k).
  assert (Ht : 0 <= t) by (subst t k a; lia).
  rewrite (to_int_value m2 e2 mr t); try lia;
    [|rewrite A5; f_equal; f_equal; subst t; lia].
  f_equal.
  (* the arithmetic *)
  pose proof (Zdigits2_ge_pow P ltac:(lia)) as HG1.
  pose proof (Zdigits2_lt_pow P ltac:(lia)) as HG2.
  replace (Zdigits2 P - 1) with (52 + k) in HG1 by (subst k; lia).
  replace (Zdigits2 P) with (53 + k) in HG2 by (subst k; lia).
  rewrite Z.pow_add_r in HG1, HG2 by (subst k; lia).
  assert (HU : 2 ^ (a - ec) = 2 ^ k * 2 ^ t).
  { rewrite <- Z.pow_add_r by (subst k; lia). f_equal; subst t; lia. }
  assert (HXE : 2 ^ (a - ec) = 2 ^ a * 2 ^ (- ec)).
  { rewrite <- Z.pow_add_r by lia. f_equal; lia. }
  assert (HG : 0 < 2 ^ k) by (apply Z.pow_pos_nonneg; subst k; lia).
  assert (HT : 0 < 2 ^ t) by (apply Z.pow_pos_nonneg; lia).
  assert (HX : 0 < 2 ^ a) by (apply Z.pow_pos_nonneg; lia).
  assert (HE : 0 < 2 ^ (- ec)) by (apply Z.pow_pos_nonneg; lia).
  assert (HBp : 0 < 2 ^ B) by (apply Z.pow_pos_nonneg; lia).
  fold a in Hmx.
  set (G := 2 ^ k) in *. set (T := 2 ^ t) in *. set (X := 2 ^ a) in *.
  set (E := 2 ^ (- ec)) in *. set (U := 2 ^ (a - ec)) in *.
  set (M := Zpos mc) in *. set (mxz := Zpos mx) in *.
  pose proof (Z.div_mod (n * num) den ltac:(lia)) as Hq.
  pose proof (Z.mod_pos_bound (n * num) den Hden) as Hf.
  set (q := n * num / den) in *. set (f := (n * num) mod den) in *.
  pose proof (Z.div_mod P G ltac:(lia)) as HPd.
  pose proof (Z.mod_pos_bound P G HG) as HR.
  set (m1 := P / G) in *. set (R := P mod G) in *.
  (* den * P = (q * den + f) * U + mxz * rho *)
  assert (Hstar : den * P = (q * den + f) * U + mxz * rho).
  { subst P. replace (den * (mxz * M)) with (mxz * (den * M)) by ring.
    rewrite Hrho, Hmx, HXE.
    replace (q * den + f) with (n * num) by lia. ring. }
  assert (HnE : n * (Z.max rho 0 + 4 * den) <= E).
  { apply Z.le_trans with (2 ^ B * (Z.max rho 0 + 4 * den)); [|exact Hup].
    apply Z.mul_le_mono_nonneg_r; lia. }
  assert (HnE' : n * (- rho) <= E).
  { destruct (Z_le_gt_dec 0 rho).
    - assert (n * (- rho) <= 0) by (apply Z.mul_nonneg_nonpos; lia). lia.
    - apply Z.le_trans with (2 ^ B * (- rho)); [|exact Hlow].
      apply Z.mul_le_mono_nonneg_r; lia. }
  assert (HU0 : 0 < U) by (rewrite HU; apply Z.mul_pos_pos; assumption).
  assert (Hmxp : 0 < mxz) by (subst mxz; lia).
  assert (HmU : forall c, n * c <= E -> mxz * c <= U).
  { intros c Hc. rewrite HXE, Hmx.
    replace (n * X * c) with (X * (n * c)) by ring.
    apply Z.mul_le_mono_nonneg_l; lia. }
  assert (HPM : P = mxz * M) by reflexivity.
  assert (Hup' : m1 + 2 <= (q + 1) * T).
  { assert (HGm : G <= 2 * mxz).
    { assert (mxz * M <= mxz * 2 ^ 53) by (apply Z.mul_le_mono_nonneg_l; lia).
      change (2 ^ 53) with (2 * 2 ^ 52) in H.
      assert (2 ^ 52 * G <= 2 ^ 52 * (2 * mxz)) by lia.
      apply Z.mul_le_mono_pos_l in H0; lia. }
    assert (H1 : mxz * (Z.max rho 0 + 4 * den) <= U) by (apply HmU; exact HnE).
    assert (H1a : mxz * rho <= mxz * Z.max rho 0)
      by (apply Z.mul_le_mono_nonneg_l; lia).
    assert (H1b : den * G <= den * (2 * mxz))
      by (apply Z.mul_le_mono_nonneg_l; lia).
    assert (H1c : (f + 1) * U <= den * U)
      by (apply Z.mul_le_mono_nonneg_r; lia).
    assert (H2 : den * (P + 2 * G) <= den * ((q + 1) * U)) by lia.
    apply Z.mul_le_mono_pos_l in H2; [|lia].
    rewrite HU in H2.
    assert (H4 : (m1 + 2) * G <= ((q + 1) * T) * G) by lia.
    apply Z.mul_le_mono_pos_r in H4; lia. }
  assert (Hlo' : q * T <= mr).
  { destruct (Z_le_gt_dec 0 (f * U + mxz * rho)) as [Hc|Hc].
    - assert (H3 : den * (q * U) <= den * P) by lia.
      apply Z.mul_le_mono_pos_l in H3; [|lia].
      rewrite HU in H3.
      assert (q * T <= m1); [|lia].
      subst m1. apply Z.div_le_lower_bound; [lia|]. lia.
    - assert (Hr : rho < 0).
      { destruct (Z_lt_le_dec rho 0); [assumption|]. exfalso.
        assert (0 <= f * U) by (apply Z.mul_nonneg_nonneg; lia).
        assert (0 <= mxz * rho) by (apply Z.mul_nonneg_nonneg; lia). lia. }
      assert (Hf0 : f = 0).
      { destruct (Z.eq_dec f 0); [assumption|]. exfalso.
        assert (mxz * (- rho) <= U) by (apply HmU; exact HnE').
        assert (1 * U <= f * U) by (apply Z.mul_le_mono_nonneg_r; lia). lia. }
      rewrite Hf0 in *.
      assert (HD : den * (q * U - P) = mxz * (- rho)) by lia.
      assert (H2D : 2 * (q * U - P) < G).
      { assert (Ha1 : mxz * (2 ^ 54 * (- rho)) <= mxz * (den * M))
          by (apply Z.mul_le_mono_nonneg_l; lia).
        assert (Ha2 : den * P < den * (2 ^ 53 * G))
          by (apply Z.mul_lt_mono_pos_l; lia).
        change (2 ^ 54) with (2 * 2 ^ 53) in Ha1.
        assert (Ha3 : (den * 2 ^ 53) * (2 * (q * U - P)) < (den * 2 ^ 53) * G) by lia.
        apply Z.mul_lt_mono_pos_l in Ha3; lia. }
      assert (HDp : 0 < q * U - P).
      { assert (0 < mxz * (- rho)) by (apply Z.mul_pos_pos; lia).
        assert (den * 0 < den * (q * U - P)) by lia.
        apply Z.mul_lt_mono_pos_l in H0; lia. }
      rewrite HU in HDp, H2D.
      assert (Em1 : m1 = q * T - 1).
      { subst m1. symmetry.
        apply Z.div_unique with (G - (q * (G * T) - P)); [lia|]. ring. }
      assert (ER : R = G - (q * (G * T) - P)).
      { subst R. symmetry.
        apply Z.mod_unique with (q * T - 1); [lia|]. ring. }
      rewrite A2 by lia. lia. }
  symmetry. apply Z.div_unique with (mr - q * T); lia.
Qed.

Lemma int_mul_floor num den B c n :
  close_enough num den B c = true -> 0 <= n < 2 ^ B ->
  int_mul n c = Ok (n * num / den).
Proof.
  intros Hc Hn. destruct c as [| | |[|] mc ec]; try discriminate.
  unfold close_enough in Hc. cbv zeta in Hc.
  repeat (apply andb_prop in Hc; destruct Hc as [Hc ?]).
  destruct (Z.eq_dec n 0) as [->|Hnz].
  { rewrite Z.mul_0_l, Z.div_0_l by lia. reflexivity. }
  apply (int_mul_exact n mc ec num den (den * Zpos mc - num * 2 ^ (- ec)) B); lia.
Qed.

Lemma dec_floor_ok :
  close_enough 22 100 33 (dec 22 100) = true /\
  close_enough 55 100 33 (dec 55 100) = true /\
  close_enough 95 1000 33 (dec 95 1000) = true /\
  close_enough 32 100 33 (dec 32 100) = true /\
  close_enough 40 100 33 (dec 40 100) = true /\
  close_enough 18 100 33 (dec 18 100) = true /\
  close_enough 2 100 33 (dec 2 100) = true /\
  close_enough 15 1000 33 (dec 15 1000) = true /\
  close_enough 8 1000 33 (dec 8 1000) = true /\
  close_enough 25 1000 33 (dec 25 1000) = true /\
  close_enough 5 1000 33 (dec 5 1000) = true /\
  close_enough 3 1000 33 (dec 3 1000) = true.
Proof. vm_compute. repeat split. Qed.

(** The proportion a measure of the icon is: [int(n * c)] is [n * num / den]
    truncated. *)
Lemma int_mul_proportion num den n v :
  close_enough num den 33 (dec num den) = true -> 0 <= n < 2 ^ 33 ->
  int_mul n (dec num den) = Ok v -> v = n * num / den.
Proof.
  intros Hc Hn Hv. rewrite (int_mul_floor num den 33 _ n Hc Hn) in Hv. congruence.
Qed.

(** * Execution of the Pillow calls *)

Section Exec.
Context `{Rasteriser}.

Lemma bind_ok {A B : Type} (m : py A) (f : A -> py B) st a st' :
  m st = Ok (a, st') -> (m ≫= f) st = f a st'.
Proof. unfold mbind, py_bind. intros ->. reflexivity. Qed.

Lemma bind_err {A B : Type} (m : py A) (f : A -> py B) st e :
  m st = Err e -> (m ≫= f) st = Err e.
Proof. unfold mbind, py_bind. intros ->. reflexivity. Qed.

Lemma lift_ok {A : Type} (r : result A) a st : r = Ok a -> lift r st = Ok (a, st).
Proof. intros ->. reflexivity. Qed.

Lemma Image_new_ok m w h c k st :
  0 <= w < 2 ^ 31 -> 0 <= h < 2 ^ 31 -> getink m c = Ok k ->
  Image_new m (w, h) c st
  = Ok (length (heap st),
        {| heap := heap st ++ [blank w h k];
           calls := calls st ++ [CallNew (length (heap st)) m w h c];
           fs := fs st; stdout := stdout st |}).
Proof.
  intros Hw Hh Hk. unfold Image_new.
  replace (w <? 0) with false by (symmetry; apply Z.ltb_ge; lia).
  replace (h <? 0) with false by (symmetry; apply Z.ltb_ge; lia).
  replace (2 ^ 31 <=? w) with false by (symmetry; apply Z.leb_gt; lia).
  replace (2 ^ 31 <=? h) with false by (symmetry; apply Z.leb_gt; lia).
  cbn [orb]. unfold mbind, py_bind, lift. rewrite Hk. reflexivity.
Qed.

Lemma ImageDraw_Draw_ok id im st :
  heap st !! id = Some im -> ImageDraw_Draw id st = Ok ({| draw_target := id |}, st).
Proof. intros Hi. unfold ImageDraw_Draw, mbind, py_bind, deref. rewrite Hi. reflexivity. Qed.

Lemma ImageDraw_line_ok id im x0 y0 x1 y1 c w k st :
  heap st !! id = Some im -> getink (im_mode im) c = Ok k ->
  ImageDraw_line {| draw_target := id |} ((x0, y0), (x1, y1)) c w st
  = Ok (tt, {| heap := <[id := paint (stroke_covers x0 y0 x1 y1 w) k im]> (heap st);
               calls := calls st ++ [CallLine id x0 y0 x1 y1 c w];
               fs := fs st; stdout := stdout st |}).
Proof.
  intros Hi Hk. unfold ImageDraw_line, mbind, py_bind, deref, lift. cbn [draw_target].
  rewrite Hi, Hk. reflexivity.
Qed.

Lemma ImageDraw_rounded_rectangle_ok id im x0 y0 x1 y1 r c k st :
  x0 <= x1 -> y0 <= y1 ->
  heap st !! id = Some im -> getink (im_mode im) c = Ok k ->
  ImageDraw_rounded_rectangle {| draw_target := id |} ((x0, y0), (x1, y1)) r c st
  = Ok (tt, {| heap := <[id := paint (rounded_rect_covers x0 y0 x1 y1 r) k im]> (heap st);
               calls := calls st ++ [CallRoundedRectangle id x0 y0 x1 y1 r c];
               fs := fs st; stdout := stdout st |}).
Proof.
  intros Hx Hy Hi Hk. unfold ImageDraw_rounded_rectangle.
  replace (x1 <? x0) with false by (symmetry; apply Z.ltb_ge; lia).
  replace (y1 <? y0) with false by (symmetry; apply Z.ltb_ge; lia).
  cbn [orb]. unfold mbind, py_bind, deref, lift. cbn [draw_target].
  rewrite Hi, Hk. reflexivity.
Qed.

Lemma Image_putalpha_ok im mask i a st :
  heap st !! im = Some i -> heap st !! mask = Some a ->
  im_mode i = RGBA -> im_mode a = L -> same_size i a = true ->
  Image_putalpha im mask st
  = Ok (tt, {| heap := <[im := put_alpha i a]> (heap st);
               calls := calls st ++ [CallPutAlpha im mask];
               fs := fs st; stdout := stdout st |}).
Proof.
  intros Hi Ha Mi Ma Hs. unfold Image_putalpha, mbind, py_bind, deref.
  rewrite Hi, Ha, Mi, Ma, Hs. reflexivity.
Qed.

Lemma Image_alpha_composite_ok im1 im2 d s st :
  heap st !! im1 = Some d -> heap st !! im2 = Some s ->
  im_mode d = RGBA -> im_mode s = RGBA -> same_size d s = true ->
  Image_alpha_composite im1 im2 st
  = Ok (length (heap st),
        {| heap := heap st ++ [over d s];
           calls := calls st ++ [CallAlphaComposite im1 im2 (length (heap st))];
           fs := fs st; stdout := stdout st |}).
Proof.
  intros Hd Hs Md Ms Hz. unfold Image_alpha_composite, mbind, py_bind, deref.
  rewrite Hd, Hs, Md, Ms, Hz. reflexivity.
Qed.

(** Modes and sizes of painted and composed images. *)
Lemma paint_mode cov k im : im_mode (paint cov k im) = im_mode im.
Proof. destruct im as [w h [f|f]], k; reflexivity. Qed.

Lemma paint_width cov k im : im_width (paint cov k im) = im_width im.
Proof. destruct im as [w h [f|f]], k; reflexivity. Qed.

Lemma paint_height cov k im : im_height (paint cov k im) = im_height im.
Proof. destruct im as [w h [f|f]], k; reflexivity. Qed.

Lemma gradient_rows_mode k : forall y size row im,
  im_mode (gradient_rows k y size row im) = im_mode im.
Proof. induction k; intros; simpl; [reflexivity|]. rewrite IHk. apply paint_mode. Qed.

Lemma gradient_rows_width k : forall y size row im,
  im_width (gradient_rows k y size row im) = im_width im.
Proof. induction k; intros; simpl; [reflexivity|]. rewrite IHk. apply paint_width. Qed.

Lemma gradient_rows_height k : forall y size row im,
  im_height (gradient_rows k y size row im) = im_height im.
Proof. induction k; intros; simpl; [reflexivity|]. rewrite IHk. apply paint_height. Qed.

Lemma put_alpha_mode i a : im_mode (put_alpha i a) = im_mode i.
Proof. destruct i as [w h [f|f]], a as [w' h' [g|g]]; reflexivity. Qed.

Lemma put_alpha_width i a : im_width (put_alpha i a) = im_width i.
Proof. destruct i as [w h [f|f]], a as [w' h' [g|g]]; reflexivity. Qed.

Lemma put_alpha_height i a : im_height (put_alpha i a) = im_height i.
Proof. destruct i as [w h [f|f]], a as [w' h' [g|g]]; reflexivity. Qed.

Lemma over_mode d s : im_mode (over d s) = im_mode d.
Proof. destruct d as [w h [f|f]], s as [w' h' [g|g]]; reflexivity. Qed.

Lemma over_width d s : im_width (over d s) = im_width d.
Proof. destruct d as [w h [f|f]], s as [w' h' [g|g]]; reflexivity. Qed.

Lemma over_height d s : im_height (over d s) = im_height d.
Proof. destruct d as [w h [f|f]], s as [w' h' [g|g]]; reflexivity. Qed.

(** The gradient loop (lines 30-35). *)
Lemma gradient_loop_ok size row k : forall y im cs f o,
  (forall j, y <= j < y + Z.of_nat k -> gradient_rgb size j = Ok (row j)) ->
  im_mode im = RGBA ->
  for_upto k y (fun y =>
      '(r, g, b) ← lift (gradient_rgb size y);
      ImageDraw_line {| draw_target := 0 |} ((0, y), (size, y)) (ColorTuple [r; g; b]) 0)
    {| heap := [im]; calls := cs; fs := f; stdout := o |}
  = Ok (tt, {| heap := [gradient_rows k y size row im];
               calls := cs ++ map (gradient_call size row) (seqZ y (Z.of_nat k));
               fs := f; stdout := o |}).
Proof.
  induction k as [|k IH]; intros y im cs f o Hrow Hm.
  - simpl. rewrite app_nil_r. reflexivity.
  - cbn [for_upto].
    pose proof (Hrow y ltac:(lia)) as Hy0.
    destruct (row y) as [[r g] b] eqn:Hy.
    erewrite bind_ok; cycle 1.
    { erewrite bind_ok by (apply lift_ok, Hy0).
      apply (ImageDraw_line_ok 0%nat im); [reflexivity|]. rewrite Hm. reflexivity. }
    cbn [heap calls fs stdout insert list_insert].
    rewrite IH; [|intros; apply Hrow; lia|rewrite paint_mode; exact Hm].
    cbn [gradient_rows]. rewrite Hy.
    f_equal. f_equal. f_equal.
    rewrite <- app_assoc. f_equal.
    replace (Z.of_nat (S k)) with (Z.succ (Z.of_nat k)) by lia.
    rewrite (seqZ_cons y (Z.succ (Z.of_nat k))) by lia. cbn [map]. unfold gradient_call at 2. rewrite Hy.
    replace (Z.pred (Z.succ (Z.of_nat k))) with (Z.of_nat k) by lia.
    replace (Z.succ y) with (y + 1) by lia.
    reflexivity.
Qed.

Ltac tidy := cbn [heap calls fs stdout length app insert list_insert].

Ltac step tac := erewrite bind_ok by tac; tidy.

Ltac step_lift E := step ltac:(apply lift_ok; exact E).

Ltac step_new := step ltac:(apply Image_new_ok; [lia | lia | reflexivity]).

Ltac step_draw := step ltac:(eapply ImageDraw_Draw_ok; reflexivity).

Ltac layer_mode :=
  rewrite ?over_mode, ?put_alpha_mode, ?gradient_rows_mode, ?paint_mode; reflexivity.

Ltac layer_size :=
  unfold same_size;
  rewrite ?over_width, ?put_alpha_width, ?gradient_rows_width, ?paint_width,
    ?over_height, ?put_alpha_height, ?gradient_rows_height, ?paint_height;
  cbn [blank im_width im_height]; rewrite !Z.eqb_refl; reflexivity.

Ltac step_rect :=
  step ltac:(eapply ImageDraw_rounded_rectangle_ok; [lia | lia | reflexivity | reflexivity]).

Ltac step_line :=
  step ltac:(eapply ImageDraw_line_ok; [reflexivity | rewrite ?paint_mode; reflexivity]).

Ltac step_over :=
  step ltac:(eapply Image_alpha_composite_ok;
             [reflexivity | reflexivity | layer_mode | layer_mode | layer_size]).

(** A run of [create_app_icon] from a fresh heap, when the scalar
    computations return: the objects and the trace it leaves. *)
Lemma create_app_icon_ok size g row cs f o :
  0 <= size < 2 ^ 31 -> is_layout size g ->
  0 <= rect_size g -> 0 <= book_width g -> 0 <= book_height g ->
  (forall y, 0 <= y < size -> gradient_rgb size y = Ok (row y)) ->
  create_app_icon size {| heap := []; calls := cs; fs := f; stdout := o |}
  = Ok (7%nat, {| heap := icon_heap size g row;
                  calls := cs ++ icon_calls size g row;
                  fs := f; stdout := o |}).
Proof.
  intros Hsize (E1 & E2 & E3 & E4 & E5 & E6 & E7 & E8 & E9 & E10 & E11 & E12 & E13)
    Hrs Hbw Hbh Hrow.
  unfold create_app_icon.
  step_new. step_draw. step_lift E1.
  step ltac:(unfold for_range; apply gradient_loop_ok;
             [intros; apply Hrow; lia | reflexivity]).
  step_new. step_draw. step_rect.
  step ltac:(eapply Image_putalpha_ok;
             [reflexivity | reflexivity | layer_mode | layer_mode | layer_size]).
  step_lift E2. cbv zeta. step_lift E3.
  step_new. step_draw. step_rect. step_over. step_draw.
  step_lift E4. step_lift E5. step_new. step_draw. step_lift E6. step_lift E7.
  step_rect. step_new. step_draw.
  step_lift E8. step_lift E8. step_lift E9. step_line.
  step_lift E10. cbv zeta.
  step ltac:(unfold for_range; change (Z.to_nat 4) with 4%nat; cbn [for_upto];
             step ltac:(step_lift (E11 0 ltac:(lia)); step_lift E12; step_lift E12;
                        step_lift E13;
                        eapply ImageDraw_line_ok;
                        [reflexivity | rewrite ?paint_mode; reflexivity]);
             step ltac:(step_lift (E11 (0 + 1) ltac:(lia)); step_lift E12; step_lift E12;
                        step_lift E13;
                        eapply ImageDraw_line_ok;
                        [reflexivity | rewrite ?paint_mode; reflexivity]);
             step ltac:(step_lift (E11 (0 + 1 + 1) ltac:(lia)); step_lift E12; step_lift E12;
                        step_lift E13;
                        eapply ImageDraw_line_ok;
                        [reflexivity | rewrite ?paint_mode; reflexivity]);
             step ltac:(step_lift (E11 (0 + 1 + 1 + 1) ltac:(lia)); step_lift E12;
                        step_lift E12; step_lift E13;
                        eapply ImageDraw_line_ok;
                        [reflexivity | rewrite ?paint_mode; reflexivity]);
             reflexivity).
  step_over. step_over.
  unfold mret, py_ret. rewrite <- !app_assoc, Z2Nat.id by lia. reflexivity.
Qed.
End Exec.

(** * The layout exists, and the layout of the 1024-pixel icon *)

Ltac small_constant :=
  vm_compute; repeat split; try reflexivity; intro; discriminate.

Lemma dec_22_100 : fbound false 0 0 (dec 22 100). Proof. small_constant. Qed.
Lemma dec_55_100 : fbound false 0 0 (dec 55 100). Proof. small_constant. Qed.
Lemma dec_95_1000 : fbound false 0 0 (dec 95 1000). Proof. small_constant. Qed.
Lemma dec_32_100 : fbound false 0 0 (dec 32 100). Proof. small_constant. Qed.
Lemma dec_40_100 : fbound false 0 0 (dec 40 100). Proof. small_constant. Qed.
Lemma dec_18_100 : fbound false 0 0 (dec 18 100). Proof. small_constant. Qed.
Lemma dec_2_100 : fbound false 0 0 (dec 2 100). Proof. small_constant. Qed.
Lemma dec_15_1000 : fbound false 0 0 (dec 15 1000). Proof. small_constant. Qed.
Lemma dec_8_1000 : fbound false 0 0 (dec 8 1000). Proof. small_constant. Qed.
Lemma dec_25_1000 : fbound false 0 0 (dec 25 1000). Proof. small_constant. Qed.
Lemma dec_5_1000 : fbound false 0 0 (dec 5 1000). Proof. small_constant. Qed.
Lemma dec_3_1000 : fbound false 0 0 (dec 3 1000). Proof. small_constant. Qed.

(** Every scalar of the layout is computed without exception, and is not
    negative, for a canvas edge below [2^1020]. *)
Lemma layout_exists size :
  0 <= size < 2 ^ 1020 ->
  exists g, is_layout size g /\
    0 <= rect_size g /\ 0 <= book_width g /\ 0 <= book_height g.
Proof.
  intros Hs.
  assert (Hs' : 0 <= size < 2 ^ 1022).
  { split; [lia|]. apply Z.lt_le_trans with (2 ^ 1020); [lia|].
    apply Z.pow_le_mono_r; lia. }
  assert (H3 : forall i, 0 <= i < 4 -> 0 <= i * size < 2 ^ 1022).
  { intros i Hi. split; [nia|].
    change (2 ^ 1022) with (4 * 2 ^ 1020). nia. }
  destruct (int_mul_bound size _ 1022 Hs' ltac:(lia) dec_22_100) as (v1 & E1 & _).
  destruct (int_mul_bound size _ 1022 Hs' ltac:(lia) dec_55_100) as (v2 & E2 & B2).
  destruct (int_mul_bound size _ 1022 Hs' ltac:(lia) dec_95_1000) as (v3 & E3 & _).
  destruct (int_mul_bound size _ 1020 Hs ltac:(lia) dec_32_100) as (v4 & E4 & B4).
  destruct (int_mul_bound size _ 1022 Hs' ltac:(lia) dec_40_100) as (v5 & E5 & B5).
  destruct (int_mul_bound v4 _ 1022 B4 ltac:(lia) dec_18_100) as (v6 & E6 & _).
  destruct (int_mul_bound size _ 1022 Hs' ltac:(lia) dec_2_100) as (v7 & E7 & _).
  destruct (int_mul_bound size _ 1022 Hs' ltac:(lia) dec_15_1000) as (v8 & E8 & _).
  destruct (int_mul_bound size _ 1022 Hs' ltac:(lia) dec_8_1000) as (v9 & E9 & _).
  destruct (int_mul_bound size _ 1022 Hs' ltac:(lia) dec_25_1000) as (v10 & E10 & _).
  destruct (int_mul_bound (0 * size) _ 1022 (H3 0 ltac:(lia)) ltac:(lia) dec_5_1000)
    as (o0 & O0 & _).
  destruct (int_mul_bound (1 * size) _ 1022 (H3 1 ltac:(lia)) ltac:(lia) dec_5_1000)
    as (o1 & O1 & _).
  destruct (int_mul_bound (2 * size) _ 1022 (H3 2 ltac:(lia)) ltac:(lia) dec_5_1000)
    as (o2 & O2 & _).
  destruct (int_mul_bound (3 * size) _ 1022 (H3 3 ltac:(lia)) ltac:(lia) dec_5_1000)
    as (o3 & O3 & _).
  destruct (int_mul_bound size _ 1022 Hs' ltac:(lia) dec_3_1000) as (v13 & E13 & _).
  exists {| corner_radius := v1; rect_size := v2; rect_radius := v3;
            book_width := v4; book_height := v5; spine_w := v6; book_radius := v7;
            spine_inset := v8; spine_width := v9; pages_width := v10;
            line_off := fun i => if i =? 0 then o0 else if i =? 1 then o1
                                 else if i =? 2 then o2 else o3;
            page_inset := v10; page_width := v13 |}.
  unfold is_layout. cbn [corner_radius rect_size rect_radius book_width book_height
    spine_w book_radius spine_inset spine_width pages_width line_off page_inset page_width].
  repeat split; try assumption; try lia.
  intros i Hi.
  assert (Hc : i = 0 \/ i = 1 \/ i = 2 \/ i = 3) by lia.
  destruct Hc as [-> | [-> | [-> | ->]]]; assumption.
Qed.

Lemma row_of_ok size y :
  0 <= y < size -> gradient_rgb size y = Ok (row_of size y).
Proof.
  intros Hy. unfold row_of.
  destruct (gradient_rgb_ok size y Hy) as (c & ->). reflexivity.
Qed.

Lemma layout_1024_ok : is_layout 1024 layout_1024.
Proof.
  unfold is_layout, layout_1024.
  cbn [corner_radius rect_size rect_radius book_width book_height
    spine_w book_radius spine_inset spine_width pages_width line_off page_inset page_width].
  repeat split; try (vm_compute; reflexivity).
  intros i Hi.
  assert (Hc : i = 0 \/ i = 1 \/ i = 2 \/ i = 3) by lia.
  destruct Hc as [-> | [-> | [-> | ->]]]; vm_compute; reflexivity.
Qed.

(** * Pixels of painted and composed images *)

Section Pixels.
Context `{Rasteriser}.

Lemma in_image_paint cov k im x y : in_image (paint cov k im) x y = in_image im x y.
Proof. unfold in_image. rewrite paint_width, paint_height. reflexivity. Qed.

Lemma getpixel_blank w h p x y :
  getpixel (blank w h (InkRGBA p)) x y
  = if (0 <=? x) && (x <? w) && (0 <=? y) && (y <? h) then Some p else None.
Proof. reflexivity. Qed.

Lemma getvalue_blank w h v x y :
  getvalue (blank w h (InkL v)) x y
  = if (0 <=? x) && (x <? w) && (0 <=? y) && (y <? h) then Some v else None.
Proof. reflexivity. Qed.

Lemma getpixel_paint cov p im x y q :
  getpixel im x y = Some q ->
  getpixel (paint cov (InkRGBA p) im) x y = Some (if cov x y then p else q).
Proof.
  destruct im as [w h [f|f]]; unfold getpixel, paint, in_image; cbn; [discriminate|].
  destruct (_ && _ && _ && _); [|discriminate].
  intros [= <-]. cbn. destruct (cov x y); reflexivity.
Qed.

Lemma getvalue_paint cov v im x y q :
  getvalue im x y = Some q ->
  getvalue (paint cov (InkL v) im) x y = Some (if cov x y then v else q).
Proof.
  destruct im as [w h [f|f]]; unfold getvalue, paint, in_image; cbn; [|discriminate].
  destruct (_ && _ && _ && _); [|discriminate].
  intros [= <-]. cbn. destruct (cov x y); reflexivity.
Qed.

Lemma getpixel_put_alpha i a x y p v :
  getpixel i x y = Some p -> getvalue a x y = Some v ->
  getpixel (put_alpha i a) x y = Some (Pixel (red p) (green p) (blue p) v).
Proof.
  destruct i as [w h [f|f]], a as [w' h' [g|g]]; unfold getpixel, getvalue, put_alpha, in_image;
    cbn; try discriminate.
  destruct (_ && _ && _ && _); [|discriminate].
  destruct (_ && _ && _ && _); [|discriminate].
  intros [= <-] [= <-]. reflexivity.
Qed.

Lemma getpixel_over d s x y p q :
  getpixel d x y = Some p -> getpixel s x y = Some q ->
  getpixel (over d s) x y = Some (alpha_composite_pixel p q).
Proof.
  destruct d as [w h [f|f]], s as [w' h' [g|g]]; unfold getpixel, over, in_image;
    cbn; try discriminate.
  destruct (_ && _ && _ && _); [|discriminate].
  destruct (_ && _ && _ && _); [|discriminate].
  intros [= <-] [= <-]. reflexivity.
Qed.

(** Compositing a transparent pixel changes nothing; compositing an
    opaque one replaces the pixel. *)
Lemma alpha_composite_transparent p q : alpha q = 0 -> alpha_composite_pixel p q = p.
Proof. intros Hq. unfold alpha_composite_pixel. rewrite Hq. reflexivity. Qed.

Lemma alpha_composite_alpha_zero p q :
  alpha p = 0 -> alpha q = 0 -> alpha (alpha_composite_pixel p q) = 0.
Proof. intros Hp Hq. rewrite alpha_composite_transparent; assumption. Qed.

(** The gradient: after the loop every pixel has the colour of its row. *)
Lemma getpixel_gradient_rows size row k : forall y0 im x y q,
  0 <= size -> im_width im = size -> 0 <= y0 ->
  getpixel im x y = Some q ->
  getpixel (gradient_rows k y0 size row im) x y
  = Some (if (y0 <=? y) && (y <? y0 + Z.of_nat k)
          then Pixel (CLIP8 (item0 (row y))) (CLIP8 (item1 (row y)))
                 (CLIP8 (item2 (row y))) 255
          else q).
Proof.
  induction k as [|k IH]; intros y0 im x y q Hs Hw Hy0 Hq.
  - cbn [gradient_rows]. rewrite Hq. f_equal.
    destruct (Z.leb_spec y0 y), (Z.ltb_spec y (y0 + Z.of_nat 0)); try reflexivity; lia.
  - cbn [gradient_rows].
    assert (Hin : 0 <= x < size).
    { destruct im as [w h [f|f]]; unfold getpixel, in_image in Hq; cbn in *; [discriminate|].
      destruct (Z.leb_spec 0 x), (Z.ltb_spec x w); cbn in Hq; try discriminate. lia. }
    erewrite IH; [|exact Hs|rewrite paint_width; exact Hw|lia|
                   apply getpixel_paint; exact Hq].
    f_equal. rewrite stroke_horizontal by lia.
    unfold row_ink.
    destruct (Z.eqb_spec y y0) as [->|Hne].
    + replace (Z.min 0 size <=? x) with true by (symmetry; apply Z.leb_le; lia).
      replace (x <=? Z.max 0 size) with true by (symmetry; apply Z.leb_le; lia).
      cbn [andb].
      destruct (Z.leb_spec (y0 + 1) y0), (Z.leb_spec y0 y0),
        (Z.ltb_spec y0 (y0 + Z.of_nat (S k))); cbn [andb]; try reflexivity; lia.
    + cbn [andb].
      destruct (Z.leb_spec (y0 + 1) y), (Z.leb_spec y0 y),
        (Z.ltb_spec y (y0 + 1 + Z.of_nat k)), (Z.ltb_spec y (y0 + Z.of_nat (S k)));
        cbn [andb]; try reflexivity; lia.
Qed.

(** ** The layers, pixel by pixel *)

Lemma transparent_pixel size x y :
  0 <= x < size -> 0 <= y < size ->
  getpixel (transparent size) x y = Some (Pixel 0 0 0 0).
Proof.
  intros Hx Hy. unfold transparent. rewrite getpixel_blank.
  destruct (Z.leb_spec 0 x), (Z.ltb_spec x size), (Z.leb_spec 0 y), (Z.ltb_spec y size);
    try lia. reflexivity.
Qed.

Lemma mask_value size g x y :
  0 <= x < size -> 0 <= y < size ->
  getvalue (mask_layer size g) x y
  = Some (if rounded_rect_covers 0 0 size size (corner_radius g) x y then 255 else 0).
Proof.
  intros Hx Hy. unfold mask_layer. apply getvalue_paint. rewrite getvalue_blank.
  destruct (Z.leb_spec 0 x), (Z.ltb_spec x size), (Z.leb_spec 0 y), (Z.ltb_spec y size);
    try lia. reflexivity.
Qed.

Lemma gradient_pixel size row x y :
  0 <= x < size -> 0 <= y < size ->
  getpixel (gradient_layer size row) x y
  = Some (Pixel (CLIP8 (item0 (row y))) (CLIP8 (item1 (row y))) (CLIP8 (item2 (row y))) 255).
Proof.
  intros Hx Hy. unfold gradient_layer.
  erewrite getpixel_gradient_rows;
    [|lia|reflexivity|lia|apply transparent_pixel; assumption].
  rewrite Z2Nat.id by lia.
  destruct (Z.leb_spec 0 y), (Z.ltb_spec y (0 + size)); try lia. reflexivity.
Qed.

Lemma canvas_pixel size g row x y :
  0 <= x < size -> 0 <= y < size ->
  getpixel (canvas_layer size g row) x y
  = Some (Pixel (CLIP8 (item0 (row y))) (CLIP8 (item1 (row y))) (CLIP8 (item2 (row y)))
            (if rounded_rect_covers 0 0 size size (corner_radius g) x y then 255 else 0)).
Proof.
  intros Hx Hy. unfold canvas_layer.
  erewrite getpixel_put_alpha;
    [|apply gradient_pixel; assumption|apply mask_value; assumption].
  reflexivity.
Qed.

Lemma overlay_pixel size g x y :
  0 <= x < size -> 0 <= y < size ->
  getpixel (overlay_layer size g) x y
  = Some (if rounded_rect_covers (rect_x size g) (rect_x size g)
               (rect_x size g + rect_size g) (rect_x size g + rect_size g)
               (rect_radius g) x y
          then Pixel 255 255 255 51 else Pixel 0 0 0 0).
Proof.
  intros Hx Hy. unfold overlay_layer. apply getpixel_paint, transparent_pixel; assumption.
Qed.

Lemma book_cover_pixel size g x y :
  0 <= x < size -> 0 <= y < size ->
  getpixel (book_cover size g) x y
  = Some (if rounded_rect_covers (book_x size g) (book_y size g)
               (book_x size g + book_width g) (book_y size g + book_height g)
               (book_radius g) x y
          then Pixel 255 255 255 255 else Pixel 0 0 0 0).
Proof.
  intros Hx Hy. unfold book_cover. apply getpixel_paint, transparent_pixel; assumption.
Qed.

Lemma book_pixel size g x y :
  0 <= x < size -> 0 <= y < size ->
  getpixel (book_layer size g) x y
  = Some (if page_covers size g 3 x y || page_covers size g 2 x y
             || page_covers size g 1 x y || page_covers size g 0 x y
          then Pixel 220 180 140 120
          else if rounded_rect_covers (book_x size g) (book_y size g)
                    (book_x size g + book_width g) (book_y size g + book_height g)
                    (book_radius g) x y
               then Pixel 255 255 255 255 else Pixel 0 0 0 0).
Proof.
  intros Hx Hy. unfold book_layer, page_stroke.
  erewrite getpixel_paint; [|erewrite getpixel_paint; [|erewrite getpixel_paint;
    [|erewrite getpixel_paint; [|apply book_cover_pixel; assumption]; reflexivity];
    reflexivity]; reflexivity].
  unfold page_covers. f_equal.
  repeat match goal with |- context [stroke_covers ?a ?b ?c ?d ?e x y] =>
    destruct (stroke_covers a b c d e x y) end; reflexivity.
Qed.

Lemma spine_pixel size g x y :
  0 <= x < size -> 0 <= y < size ->
  getpixel (spine_layer size g) x y
  = Some (if stroke_covers (spine_x size g) (book_y size g + spine_inset g)
               (spine_x size g) (book_y size g + book_height g - spine_inset g)
               (spine_width g) x y
          then Pixel 200 150 100 80 else Pixel 0 0 0 0).
Proof.
  intros Hx Hy. unfold spine_layer. apply getpixel_paint, transparent_pixel; assumption.
Qed.

End Pixels.

(** * The 1024-pixel icon *)

Section Icon1024.
Context `{Rasteriser}.

Abbreviation g := layout_1024.
Abbreviation row := (row_of 1024).

(** The run of the program's one call, [create_app_icon(1024)]. *)
Lemma create_app_icon_1024 cs f o :
  create_app_icon 1024 {| heap := []; calls := cs; fs := f; stdout := o |}
  = Ok (7%nat, {| heap := icon_heap 1024 g row;
                  calls := cs ++ icon_calls 1024 g row;
                  fs := f; stdout := o |}).
Proof.
  apply create_app_icon_ok; try (cbn; lia).
  - apply layout_1024_ok.
  - intros y Hy. apply row_of_ok. exact Hy.
Qed.

(** Where the shapes of the icon are: the silhouette covers the columns
    strictly between the corner squares, and every later layer lies there. *)
Lemma silhouette_cross x y :
  225 < x < 799 -> 0 <= y < 1024 -> rounded_rect_covers 0 0 1024 1024 225 x y = true.
Proof. intros Hx Hy. apply rounded_rect_cross; lia. Qed.

Lemma silhouette_corner x y :
  (x = 0 \/ x = 1023) -> (y = 0 \/ y = 1023) ->
  rounded_rect_covers 0 0 1024 1024 225 x y = false.
Proof.
  intros Hx Hy.
  destruct (rounded_rect_covers 0 0 1024 1024 225 x y) eqn:E; [|reflexivity].
  apply rounded_rect_corner in E; [|lia..]. cbv zeta in E.
  destruct Hx as [-> | ->], Hy as [-> | ->]; vm_compute in E; exfalso; apply E; reflexivity.
Qed.

Lemma panel_inside x y :
  rounded_rect_covers 230 230 793 793 97 x y = true -> 230 <= x <= 793 /\ 230 <= y <= 793.
Proof. apply rounded_rect_bbox. Qed.

Lemma cover_inside x y :
  rounded_rect_covers 348 307 675 716 20 x y = true -> 348 <= x <= 675 /\ 307 <= y <= 716.
Proof. apply rounded_rect_bbox. Qed.

Lemma pages_inside i x y :
  0 <= i < 4 -> page_covers 1024 g i x y = true -> 647 <= x <= 668 /\ 329 <= y <= 694.
Proof.
  intros Hi.
  assert (Hc : i = 0 \/ i = 1 \/ i = 2 \/ i = 3) by lia.
  destruct Hc as [-> | [-> | [-> | ->]]]; intros E.
  - change (stroke_covers 650 332 650 691 3 x y = true) in E.
    apply stroke_envelope in E. lia.
  - change (stroke_covers 655 332 655 691 3 x y = true) in E.
    apply stroke_envelope in E. lia.
  - change (stroke_covers 660 332 660 691 3 x y = true) in E.
    apply stroke_envelope in E. lia.
  - change (stroke_covers 665 332 665 691 3 x y = true) in E.
    apply stroke_envelope in E. lia.
Qed.

Lemma spine_inside x y :
  stroke_covers 406 322 406 701 8 x y = true -> 398 <= x <= 414 /\ 314 <= y <= 709.
Proof. intros E. apply stroke_envelope in E. lia. Qed.

Lemma layers_1024 x y :
  0 <= x < 1024 -> 0 <= y < 1024 ->
  getvalue (mask_layer 1024 g) x y = Some (if silhouette x y then 255 else 0) /\
  getpixel (canvas_layer 1024 g row) x y = Some (canvas_px x y) /\
  getpixel (overlay_layer 1024 g) x y = Some (panel_px x y) /\
  getpixel (book_layer 1024 g) x y = Some (book_px x y) /\
  getpixel (spine_layer 1024 g) x y = Some (spine_px x y) /\
  getpixel (panel_canvas 1024 g row) x y
  = Some (alpha_composite_pixel (canvas_px x y) (panel_px x y)) /\
  getpixel (book_canvas 1024 g row) x y
  = Some (alpha_composite_pixel
            (alpha_composite_pixel (canvas_px x y) (panel_px x y)) (book_px x y)) /\
  getpixel (final_canvas 1024 g row) x y
  = Some (alpha_composite_pixel
            (alpha_composite_pixel
               (alpha_composite_pixel (canvas_px x y) (panel_px x y)) (book_px x y))
            (spine_px x y)).
Proof.
  intros Hx Hy.
  pose proof (mask_value 1024 g x y Hx Hy) as Hm.
  pose proof (canvas_pixel 1024 g row x y Hx Hy) as Hc.
  pose proof (overlay_pixel 1024 g x y Hx Hy) as Ho.
  pose proof (book_pixel 1024 g x y Hx Hy) as Hb.
  pose proof (spine_pixel 1024 g x y Hx Hy) as Hs.
  assert (Hp : getpixel (panel_canvas 1024 g row) x y
               = Some (alpha_composite_pixel (canvas_px x y) (panel_px x y)))
    by (apply getpixel_over; assumption).
  assert (Hk : getpixel (book_canvas 1024 g row) x y
               = Some (alpha_composite_pixel
                         (alpha_composite_pixel (canvas_px x y) (panel_px x y))
                         (book_px x y)))
    by (apply getpixel_over; assumption).
  repeat split; try assumption.
  apply getpixel_over; assumption.
Qed.

Lemma panel_px_outside x y :
  ~ (230 <= x <= 793 /\ 230 <= y <= 793) -> panel_px x y = Pixel 0 0 0 0.
Proof.
  intros Hn. unfold panel_px.
  destruct (rounded_rect_covers 230 230 793 793 97 x y) eqn:E; [|reflexivity].
  apply panel_inside in E. tauto.
Qed.

Lemma book_px_outside x y :
  ~ (348 <= x <= 675 /\ 307 <= y <= 716) -> book_px x y = Pixel 0 0 0 0.
Proof.
  intros Hn. unfold book_px.
  destruct (page_covers 1024 g 3 x y) eqn:E3; [apply pages_inside in E3; lia|].
  destruct (page_covers 1024 g 2 x y) eqn:E2; [apply pages_inside in E2; lia|].
  destruct (page_covers 1024 g 1 x y) eqn:E1; [apply pages_inside in E1; lia|].
  destruct (page_covers 1024 g 0 x y) eqn:E0; [apply pages_inside in E0; lia|].
  cbn [orb].
  destruct (rounded_rect_covers 348 307 675 716 20 x y) eqn:E; [|reflexivity].
  apply cover_inside in E. tauto.
Qed.

Lemma spine_px_outside x y :
  ~ (398 <= x <= 414 /\ 314 <= y <= 709) -> spine_px x y = Pixel 0 0 0 0.
Proof.
  intros Hn. unfold spine_px.
  destruct (stroke_covers 406 322 406 701 8 x y) eqn:E; [|reflexivity].
  apply spine_inside in E. tauto.
Qed.

(** Inside the cover and away from the page strokes the book layer is
    opaque white. *)
Lemma book_px_cover x y :
  368 < x < 647 -> 307 <= y <= 716 -> book_px x y = Pixel 255 255 255 255.
Proof.
  intros Hx Hy. unfold book_px.
  destruct (page_covers 1024 g 3 x y) eqn:E3; [apply pages_inside in E3; lia|].
  destruct (page_covers 1024 g 2 x y) eqn:E2; [apply pages_inside in E2; lia|].
  destruct (page_covers 1024 g 1 x y) eqn:E1; [apply pages_inside in E1; lia|].
  destruct (page_covers 1024 g 0 x y) eqn:E0; [apply pages_inside in E0; lia|].
  cbn [orb]. rewrite rounded_rect_cross; [reflexivity|lia..].
Qed.

Lemma panel_px_inside x y :
  327 < x < 696 -> 230 <= y <= 793 -> panel_px x y = Pixel 255 255 255 51.
Proof.
  intros Hx Hy. unfold panel_px. rewrite rounded_rect_cross; [reflexivity|lia..].
Qed.

Lemma alpha_composite_opaque_white p :
  alpha_composite_pixel p (Pixel 255 255 255 255) = Pixel 255 255 255 255.
Proof.
  unfold alpha_composite_pixel. cbn [alpha red green blue].
  change (255 =? 0) with false. cbv iota zeta.
  change (255 - 255) with 0. rewrite !Z.mul_0_r.
  vm_compute. reflexivity.
Qed.

End Icon1024.

(** * The claims about the 1024-pixel icon *)

Section Claims1024.
Context `{Rasteriser}.

Abbreviation g := layout_1024.
Abbreviation row := (row_of 1024).

Lemma row_0 : row 0 = (153, 115, 89).
Proof. vm_compute. reflexivity. Qed.

Lemma row_1023 : row 1023 = (115, 77, 51).
Proof. vm_compute. reflexivity. Qed.

Lemma row_512 : row 512 = (134, 96, 70).
Proof. vm_compute. reflexivity. Qed.

Lemma canvas_px_column_512 y :
  0 <= y < 1024 ->
  canvas_px 512 y
  = Pixel (CLIP8 (item0 (row y))) (CLIP8 (item1 (row y))) (CLIP8 (item2 (row y))) 255.
Proof.
  intros Hy. unfold canvas_px, silhouette. rewrite silhouette_cross by lia. reflexivity.
Qed.

(** C1: for size 1024 the gradient computed with [t = y / size] and
    truncation gives the top row the colour (153,115,89), the bottom row
    (115,77,51) and row 512 the midpoint colour (134,96,70); the canvas
    holds these colours along the whole row, opaque at column 512, and the
    returned raster keeps the top and bottom ones at column 512. *)
Theorem gradient_rows_of_the_icon (files : gmap string node) :
  gradient_rgb 1024 0 = Ok (153, 115, 89) /\
  gradient_rgb 1024 1023 = Ok (115, 77, 51) /\
  gradient_rgb 1024 512 = Ok (134, 96, 70) /\
  exists st canvas icon,
    create_app_icon 1024 (fresh files) = Ok (7%nat, st) /\
    heap st !! 0%nat = Some canvas /\ heap st !! 7%nat = Some icon /\
    (forall x, 0 <= x < 1024 ->
       exists a0 a1 a2,
         getpixel canvas x 0 = Some (Pixel 153 115 89 a0) /\
         getpixel canvas x 1023 = Some (Pixel 115 77 51 a1) /\
         getpixel canvas x 512 = Some (Pixel 134 96 70 a2)) /\
    getpixel canvas 512 0 = Some (Pixel 153 115 89 255) /\
    getpixel canvas 512 1023 = Some (Pixel 115 77 51 255) /\
    getpixel canvas 512 512 = Some (Pixel 134 96 70 255) /\
    getpixel icon 512 0 = Some (Pixel 153 115 89 255) /\
    getpixel icon 512 1023 = Some (Pixel 115 77 51 255).
Proof.
  split; [vm_compute; reflexivity|].
  split; [vm_compute; reflexivity|].
  split; [vm_compute; reflexivity|].
  eexists _, _, _. split; [apply create_app_icon_1024|].
  cbn [heap icon_heap lookup list_lookup].
  split; [reflexivity|]. split; [reflexivity|].
  assert (C0 : canvas_px 512 0 = Pixel 153 115 89 255)
    by (rewrite canvas_px_column_512 by lia; rewrite row_0; reflexivity).
  assert (C1 : canvas_px 512 1023 = Pixel 115 77 51 255)
    by (rewrite canvas_px_column_512 by lia; rewrite row_1023; reflexivity).
  assert (C2 : canvas_px 512 512 = Pixel 134 96 70 255)
    by (rewrite canvas_px_column_512 by lia; rewrite row_512; reflexivity).
  split.
  { intros x Hx.
    destruct (layers_1024 x 0 Hx ltac:(lia)) as (_ & L0 & _).
    destruct (layers_1024 x 1023 Hx ltac:(lia)) as (_ & L1 & _).
    destruct (layers_1024 x 512 Hx ltac:(lia)) as (_ & L2 & _).
    rewrite L0, L1, L2. unfold canvas_px. rewrite row_0, row_1023, row_512.
    eexists _, _, _. repeat split; reflexivity. }
  destruct (layers_1024 512 0 ltac:(lia) ltac:(lia)) as (_ & L0 & _ & _ & _ & _ & _ & F0).
  destruct (layers_1024 512 1023 ltac:(lia) ltac:(lia)) as (_ & L1 & _ & _ & _ & _ & _ & F1).
  destruct (layers_1024 512 512 ltac:(lia) ltac:(lia)) as (_ & L2 & _).
  rewrite L0, L1, L2, F0, F1, C0, C1, C2.
  rewrite !panel_px_outside, !book_px_outside, !spine_px_outside by lia.
  repeat split; reflexivity.
Qed.

(** C2: in the raster returned for size 1024 the four corner pixels are
    fully transparent and the centre pixel is fully opaque. *)
Theorem corners_transparent_centre_opaque (files : gmap string node) :
  exists st icon,
    create_app_icon 1024 (fresh files) = Ok (7%nat, st) /\
    heap st !! 7%nat = Some icon /\
    alpha <$> getpixel icon 0 0 = Some 0 /\
    alpha <$> getpixel icon 1023 0 = Some 0 /\
    alpha <$> getpixel icon 0 1023 = Some 0 /\
    alpha <$> getpixel icon 1023 1023 = Some 0 /\
    alpha <$> getpixel icon 512 512 = Some 255.
Proof.
  eexists _, _. split; [apply create_app_icon_1024|].
  cbn [heap icon_heap lookup list_lookup]. split; [reflexivity|].
  assert (Hc : forall x y, (x = 0 \/ x = 1023) -> (y = 0 \/ y = 1023) ->
             alpha <$> getpixel (final_canvas 1024 g row) x y = Some 0).
  { intros x y Hx Hy.
    destruct (layers_1024 x y ltac:(lia) ltac:(lia)) as (_ & _ & _ & _ & _ & _ & _ & F).
    rewrite F, panel_px_outside, book_px_outside, spine_px_outside by lia.
    unfold canvas_px, silhouette. rewrite silhouette_corner by assumption. reflexivity. }
  repeat split; try (apply Hc; lia).
  destruct (layers_1024 512 512 ltac:(lia) ltac:(lia)) as (_ & _ & _ & _ & _ & _ & _ & F).
  rewrite F, (spine_px_outside 512 512), (book_px_cover 512 512) by lia.
  rewrite alpha_composite_opaque_white. reflexivity.
Qed.

(** C10: for size 1024 the centre pixel (512,512) of the returned raster
    is opaque white: the book layer is opaque white there, over the canvas
    with its translucent panel, and the spine layer is transparent there
    (no stroke covers the centre column). *)
Theorem centre_pixel_is_white (files : gmap string node) :
  exists st overlay panel book spine icon,
    create_app_icon 1024 (fresh files) = Ok (7%nat, st) /\
    heap st !! 2%nat = Some overlay /\ heap st !! 3%nat = Some panel /\
    heap st !! 4%nat = Some book /\ heap st !! 5%nat = Some spine /\
    heap st !! 7%nat = Some icon /\
    getpixel overlay 512 512 = Some (Pixel 255 255 255 51) /\
    alpha <$> getpixel panel 512 512 = Some 255 /\
    getpixel book 512 512 = Some (Pixel 255 255 255 255) /\
    getpixel spine 512 512 = Some (Pixel 0 0 0 0) /\
    (forall x y, 0 <= x < 1024 -> 0 <= y < 1024 ->
       getpixel spine x y <> Some (Pixel 0 0 0 0) -> 398 <= x <= 414) /\
    (forall x y, 0 <= x < 1024 -> 0 <= y < 1024 ->
       getpixel book x y = Some (Pixel 220 180 140 120) -> 647 <= x <= 668) /\
    getpixel icon 512 512 = Some (Pixel 255 255 255 255).
Proof.
  eexists _, _, _, _, _, _. split; [apply create_app_icon_1024|].
  cbn [heap icon_heap lookup list_lookup].
  do 5 (split; [reflexivity|]).
  destruct (layers_1024 512 512 ltac:(lia) ltac:(lia))
    as (_ & Lc & Lo & Lb & Ls & Lp & _ & F).
  rewrite Lo, Lp, Lb, Ls, F.
  rewrite (spine_px_outside 512 512), (book_px_cover 512 512),
    (panel_px_inside 512 512) by lia.
  rewrite alpha_composite_opaque_white.
  split; [reflexivity|].
  split.
  { unfold canvas_px, silhouette. rewrite silhouette_cross by lia.
    rewrite row_512. vm_compute. reflexivity. }
  split; [reflexivity|]. split; [reflexivity|].
  split.
  { intros x y Hx Hy Hne.
    destruct (layers_1024 x y Hx Hy) as (_ & _ & _ & _ & Ls' & _).
    rewrite Ls' in Hne.
    destruct (Z_le_dec 398 x), (Z_le_dec x 414); try lia;
      rewrite spine_px_outside in Hne by lia; congruence. }
  split; [|reflexivity].
  intros x y Hx Hy Hb.
  destruct (layers_1024 x y Hx Hy) as (_ & _ & _ & Lb' & _).
  rewrite Lb' in Hb. injection Hb as Hb. unfold book_px in Hb.
  destruct (page_covers 1024 g 3 x y) eqn:E3; [apply pages_inside in E3; lia|].
  destruct (page_covers 1024 g 2 x y) eqn:E2; [apply pages_inside in E2; lia|].
  destruct (page_covers 1024 g 1 x y) eqn:E1; [apply pages_inside in E1; lia|].
  destruct (page_covers 1024 g 0 x y) eqn:E0; [apply pages_inside in E0; lia|].
  cbn [orb] in Hb. destruct (rounded_rect_covers 348 307 675 716 20 x y); discriminate.
Qed.

End Claims1024.

(** * Tables over a range of integers *)

Lemma all_from_spec n f : forall z t,
  all_from n z f = true -> z <= t < z + Z.of_nat n -> f t = true.
Proof.
  induction n as [|n IH]; intros z t Ha Ht; [lia|].
  cbn [all_from] in Ha. apply andb_prop in Ha. destruct Ha as [H0 H1].
  destruct (Z.eq_dec t z) as [->|Hne]; [exact H0|].
  apply (IH (z + 1)); [exact H1|lia].
Qed.


(** * The claims about every size *)

Section ClaimsAnySize.
Context `{Rasteriser}.

(** A run for any canvas edge [Image.new] accepts. *)
Lemma create_app_icon_runs size cs f o :
  0 <= size < 2 ^ 31 ->
  exists g,
    is_layout size g /\
    0 <= rect_size g /\ 0 <= book_width g /\ 0 <= book_height g /\
    create_app_icon size {| heap := []; calls := cs; fs := f; stdout := o |}
    = Ok (7%nat, {| heap := icon_heap size g (row_of size);
                    calls := cs ++ icon_calls size g (row_of size);
                    fs := f; stdout := o |}).
Proof.
  intros Hs.
  assert (Hs' : 0 <= size < 2 ^ 1020).
  { split; [lia|]. apply Z.lt_le_trans with (2 ^ 31); [lia|].
    apply Z.pow_le_mono_r; lia. }
  destruct (layout_exists size Hs') as (g & Hg & H1 & H2 & H3).
  exists g. do 4 (split; [assumption|]).
  apply create_app_icon_ok; try assumption; try lia.
  intros y Hy. apply row_of_ok. exact Hy.
Qed.

Lemma final_canvas_shape size g row :
  im_mode (final_canvas size g row) = RGBA /\
  im_width (final_canvas size g row) = size /\
  im_height (final_canvas size g row) = size.
Proof.
  unfold final_canvas, book_canvas, panel_canvas, canvas_layer, gradient_layer.
  rewrite !over_mode, !over_width, !over_height, put_alpha_mode, put_alpha_width,
    put_alpha_height, gradient_rows_mode, gradient_rows_width, gradient_rows_height.
  repeat split.
Qed.

(** C4, as amended: for every positive size below [2^31]
    [create_app_icon(size)] returns an RGBA raster of dimensions
    [size x size] (the memory the imaging library can allocate apart);
    from [2^31] on it returns nothing: its first statement, [Image.new],
    raises [OverflowError]. *)
Theorem create_app_icon_dimensions (size : Z) (files : gmap string node) :
  0 < size ->
  (size < 2 ^ 31 ->
   exists st icon,
     create_app_icon size (fresh files) = Ok (7%nat, st) /\
     heap st !! 7%nat = Some icon /\
     im_mode icon = RGBA /\ im_width icon = size /\ im_height icon = size) /\
  (2 ^ 31 <= size ->
   Image_new RGBA (size, size) (ColorTuple [0; 0; 0; 0]) (fresh files) = Err OverflowError /\
   create_app_icon size (fresh files) = Err OverflowError).
Proof.
  intros Hs. split.
  - intros Hlt.
    destruct (create_app_icon_runs size [] files [] ltac:(lia)) as (g & _ & _ & _ & _ & Hrun).
    eexists _, _. split; [exact Hrun|].
    cbn [heap icon_heap lookup list_lookup]. split; [reflexivity|].
    apply final_canvas_shape.
  - intros Hge.
    assert (Hnew : Image_new RGBA (size, size) (ColorTuple [0; 0; 0; 0]) (fresh files)
                   = Err OverflowError).
    { unfold Image_new.
      replace (size <? 0) with false by (symmetry; apply Z.ltb_ge; lia).
      replace (2 ^ 31 <=? size) with true by (symmetry; apply Z.leb_le; lia).
      reflexivity. }
    split; [exact Hnew|]. unfold create_app_icon. apply bind_err. exact Hnew.
Qed.

Lemma filter_gradient_calls (p : call -> bool) size row l :
  (forall x0 y0 x1 y1 c w, p (CallLine 0 x0 y0 x1 y1 c w) = false) ->
  List.filter p (map (gradient_call size row) l) = [].
Proof.
  intros Hp. induction l as [|y l IH]; [reflexivity|].
  cbn [map List.filter]. unfold gradient_call at 1. rewrite Hp. exact IH.
Qed.

(** C6: on the book layer (object 4, created transparent)
    [create_app_icon] draws a filled rounded rectangle in opaque white,
    of corner radius [int(size * 0.02)], over the centred box of width
    [int(size * 0.32)] and height [int(size * 0.40)], and then exactly four
    vertical strokes at [pages_x + int(i * size * 0.005)] for [i] in
    [0, 4), with [pages_x = book_x + book_width - int(size * 0.025)], each
    from [book_y + int(size * 0.025)] to
    [book_y + book_height - int(size * 0.025)], of colour
    (220,180,140,120) and width [int(size * 0.003)]; the layer's pixels are
    the strokes over the cover over transparency.  For a canvas edge below
    [2^31] each of these measures is the stated proportion of [size],
    truncated to whole pixels. *)
Theorem book_layer_drawing (size : Z) (files : gmap string node) :
  0 < size < 2 ^ 31 ->
  exists st book book_width book_height book_radius pages_width line_off inset width,
    create_app_icon size (fresh files) = Ok (7%nat, st) /\
    int_mul size (dec 32 100) = Ok book_width /\
    int_mul size (dec 40 100) = Ok book_height /\
    int_mul size (dec 2 100) = Ok book_radius /\
    int_mul size (dec 25 1000) = Ok pages_width /\
    (forall i, 0 <= i < 4 -> int_mul (i * size) (dec 5 1000) = Ok (line_off i)) /\
    int_mul size (dec 25 1000) = Ok inset /\
    int_mul size (dec 3 1000) = Ok width /\
    (size < 2 ^ 31 ->
     book_width = size * 32 / 100 /\ book_height = size * 40 / 100 /\
     book_radius = size * 2 / 100 /\ pages_width = size * 25 / 1000 /\
     (forall i, 0 <= i < 4 -> line_off i = i * size * 5 / 1000) /\
     inset = size * 25 / 1000 /\ width = size * 3 / 1000) /\
    let book_x := (size - book_width) `div` 2 in
    let book_y := (size - book_height) `div` 2 in
    let pages_x := book_x + book_width - pages_width in
    let stroke i :=
      CallLine 4 (pages_x + line_off i) (book_y + inset)
        (pages_x + line_off i) (book_y + book_height - inset)
        (ColorTuple [220; 180; 140; 120]) width in
    let stroke_at i x y :=
      stroke_covers (pages_x + line_off i) (book_y + inset)
        (pages_x + line_off i) (book_y + book_height - inset) width x y in
    0 <= size - book_width - 2 * book_x <= 1 /\
    0 <= size - book_height - 2 * book_y <= 1 /\
    List.filter (on_image 4) (calls st)
    = [CallNew 4 RGBA size size (ColorTuple [0; 0; 0; 0]);
       CallRoundedRectangle 4 book_x book_y (book_x + book_width) (book_y + book_height)
         book_radius (ColorTuple [255; 255; 255; 255]);
       stroke 0; stroke 1; stroke 2; stroke 3] /\
    heap st !! 4%nat = Some book /\
    forall x y, 0 <= x < size -> 0 <= y < size ->
      getpixel book x y
      = Some (if stroke_at 3 x y || stroke_at 2 x y || stroke_at 1 x y || stroke_at 0 x y
              then Pixel 220 180 140 120
              else if rounded_rect_covers book_x book_y (book_x + book_width)
                        (book_y + book_height) book_radius x y
                   then Pixel 255 255 255 255
                   else Pixel 0 0 0 0).
Proof.
  intros Hs.
  destruct (create_app_icon_runs size [] files [] ltac:(lia))
    as (g & Hg & _ & Hbw & Hbh & Hrun).
  destruct Hg as (_ & _ & _ & E4 & E5 & _ & E7 & _ & _ & E10 & E11 & E12 & E13).
  exists {| heap := icon_heap size g (row_of size);
            calls := [] ++ icon_calls size g (row_of size);
            fs := files; stdout := [] |},
    (book_layer size g), (book_width g), (book_height g),
    (book_radius g), (pages_width g), (line_off g),
    (page_inset g), (page_width g).
  split; [exact Hrun|].
  do 7 (split; [assumption|]).
  split.
  { intros Hlt.
    assert (H33 : 2 ^ 33 = 4 * 2 ^ 31) by reflexivity.
    pose proof dec_floor_ok
      as (_ & _ & _ & F32 & F40 & _ & F2 & _ & _ & F25 & F5 & F3).
    split; [apply (int_mul_proportion 32 100 size); [exact F32|lia|assumption]|].
    split; [apply (int_mul_proportion 40 100 size); [exact F40|lia|assumption]|].
    split; [apply (int_mul_proportion 2 100 size); [exact F2|lia|assumption]|].
    split; [apply (int_mul_proportion 25 1000 size); [exact F25|lia|assumption]|].
    split.
    { intros i Hi. apply (int_mul_proportion 5 1000 (i * size)); [exact F5|nia|].
      apply E11. exact Hi. }
    split; [apply (int_mul_proportion 25 1000 size); [exact F25|lia|assumption]|].
    apply (int_mul_proportion 3 1000 size); [exact F3|lia|assumption]. }
  cbv zeta. cbn [heap calls app].
  split; [pose proof (Z.div_mod (size - book_width g) 2 ltac:(lia));
          pose proof (Z.mod_pos_bound (size - book_width g) 2 ltac:(lia)); lia|].
  split; [pose proof (Z.div_mod (size - book_height g) 2 ltac:(lia));
          pose proof (Z.mod_pos_bound (size - book_height g) 2 ltac:(lia)); lia|].
  split.
  { unfold icon_calls. rewrite !List.filter_app, filter_gradient_calls by reflexivity.
    reflexivity. }
  split; [reflexivity|].
  intros x y Hx Hy. rewrite book_pixel by assumption. reflexivity.
Qed.

(** C7: on a layer of its own (object 5, created transparent)
    [create_app_icon] draws exactly one vertical stroke, at
    [book_x + spine_w] with [spine_w = int(book_width * 0.18)], from
    [book_y + int(size * 0.015)] to
    [book_y + book_height - int(size * 0.015)], of colour (200,150,100,80)
    and width [int(size * 0.008)]; the last two calls composite the book
    layer (object 4) onto the canvas and then the spine layer onto the
    result, which is the raster returned.  For a canvas edge below [2^31]
    each of these measures is the stated proportion, truncated to whole
    pixels. *)
Theorem spine_layer_and_composite_order (size : Z) (files : gmap string node) :
  0 < size < 2 ^ 31 ->
  exists st before panel book spine icon book_width book_height spine_w inset width,
    create_app_icon size (fresh files) = Ok (7%nat, st) /\
    int_mul size (dec 32 100) = Ok book_width /\
    int_mul size (dec 40 100) = Ok book_height /\
    int_mul book_width (dec 18 100) = Ok spine_w /\
    int_mul size (dec 15 1000) = Ok inset /\
    int_mul size (dec 8 1000) = Ok width /\
    (size < 2 ^ 31 ->
     book_width = size * 32 / 100 /\ book_height = size * 40 / 100 /\
     spine_w = book_width * 18 / 100 /\
     inset = size * 15 / 1000 /\ width = size * 8 / 1000) /\
    let book_x := (size - book_width) `div` 2 in
    let book_y := (size - book_height) `div` 2 in
    List.filter (on_image 5) (calls st)
    = [CallNew 5 RGBA size size (ColorTuple [0; 0; 0; 0]);
       CallLine 5 (book_x + spine_w) (book_y + inset)
         (book_x + spine_w) (book_y + book_height - inset)
         (ColorTuple [200; 150; 100; 80]) width] /\
    calls st = before ++ [CallAlphaComposite 3 4 6; CallAlphaComposite 6 5 7] /\
    List.filter is_composite before = [CallAlphaComposite 0 2 3] /\
    List.filter (on_image 4) before = List.filter (on_image 4) (calls st) /\
    heap st !! 3%nat = Some panel /\ heap st !! 4%nat = Some book /\
    heap st !! 5%nat = Some spine /\ heap st !! 7%nat = Some icon /\
    icon = over (over panel book) spine /\
    forall x y, 0 <= x < size -> 0 <= y < size ->
      getpixel spine x y
      = Some (if stroke_covers (book_x + spine_w) (book_y + inset)
                   (book_x + spine_w) (book_y + book_height - inset) width x y
              then Pixel 200 150 100 80 else Pixel 0 0 0 0).
Proof.
  intros Hs.
  destruct (create_app_icon_runs size [] files [] ltac:(lia))
    as (g & Hg & _ & Hbw & Hbh & Hrun).
  destruct Hg as (_ & _ & _ & E4 & E5 & E6 & _ & E8 & E9 & _).
  exists {| heap := icon_heap size g (row_of size);
            calls := [] ++ icon_calls size g (row_of size);
            fs := files; stdout := [] |},
    ([CallNew 0 RGBA size size (ColorTuple [0; 0; 0; 0])] ++
     map (gradient_call size (row_of size)) (seqZ 0 size) ++
     [CallNew 1 L size size (ColorInt 0);
      CallRoundedRectangle 1 0 0 size size (corner_radius g) (ColorInt 255);
      CallPutAlpha 0 1;
      CallNew 2 RGBA size size (ColorTuple [0; 0; 0; 0]);
      CallRoundedRectangle 2 (rect_x size g) (rect_x size g)
        (rect_x size g + rect_size g) (rect_x size g + rect_size g)
        (rect_radius g) (ColorTuple [255; 255; 255; 51]);
      CallAlphaComposite 0 2 3;
      CallNew 4 RGBA size size (ColorTuple [0; 0; 0; 0]);
      CallRoundedRectangle 4 (book_x size g) (book_y size g)
        (book_x size g + book_width g) (book_y size g + book_height g)
        (book_radius g) (ColorTuple [255; 255; 255; 255]);
      CallNew 5 RGBA size size (ColorTuple [0; 0; 0; 0]);
      CallLine 5 (spine_x size g) (book_y size g + spine_inset g)
        (spine_x size g) (book_y size g + book_height g - spine_inset g)
        (ColorTuple [200; 150; 100; 80]) (spine_width g);
      page_call size g 0; page_call size g 1; page_call size g 2; page_call size g 3]),
    (panel_canvas size g (row_of size)), (book_layer size g), (spine_layer size g),
    (final_canvas size g (row_of size)),
    (book_width g), (book_height g), (spine_w g),
    (spine_inset g), (spine_width g).
  split; [exact Hrun|].
  do 5 (split; [assumption|]).
  split.
  { intros Hlt.
    assert (H33 : 2 ^ 33 = 4 * 2 ^ 31) by reflexivity.
    pose proof dec_floor_ok
      as (_ & _ & _ & F32 & F40 & F18 & _ & F15 & F8 & _).
    assert (Ew : book_width g = size * 32 / 100)
      by (apply (int_mul_proportion 32 100 size); [exact F32|lia|assumption]).
    split; [exact Ew|].
    split; [apply (int_mul_proportion 40 100 size); [exact F40|lia|assumption]|].
    split.
    { apply (int_mul_proportion 18 100 (book_width g)); [exact F18| |assumption].
      split; [lia|]. rewrite Ew. apply Z.div_lt_upper_bound; lia. }
    split; [apply (int_mul_proportion 15 1000 size); [exact F15|lia|assumption]|].
    apply (int_mul_proportion 8 1000 size); [exact F8|lia|assumption]. }
  cbv zeta. cbn [heap calls icon_heap lookup list_lookup].
  change ([] ++ icon_calls size g (row_of size)) with (icon_calls size g (row_of size)).
  split.
  { unfold icon_calls. rewrite !List.filter_app, filter_gradient_calls by reflexivity.
    reflexivity. }
  split.
  { unfold icon_calls. rewrite <- !app_assoc. reflexivity. }
  split.
  { rewrite !List.filter_app, filter_gradient_calls by reflexivity. reflexivity. }
  split.
  { unfold icon_calls. rewrite !List.filter_app, !filter_gradient_calls by reflexivity.
    reflexivity. }
  do 4 (split; [reflexivity|]).
  split; [reflexivity|].
  intros x y Hx Hy. rewrite spine_pixel by assumption. reflexivity.
Qed.

(** ** The mask and the layers after it *)



(** The measures of the icon are the proportions of the canvas edge,
    truncated, for every edge a raster can have. *)
Lemma layout_proportions size g :
  0 <= size < 2 ^ 31 -> is_layout size g ->
  corner_radius g = size * 22 / 100 /\
  rect_size g = size * 55 / 100 /\
  rect_radius g = size * 95 / 1000 /\
  book_width g = size * 32 / 100 /\
  book_height g = size * 40 / 100 /\
  spine_w g = book_width g * 18 / 100 /\
  book_radius g = size * 2 / 100 /\
  spine_inset g = size * 15 / 1000 /\
  spine_width g = size * 8 / 1000 /\
  pages_width g = size * 25 / 1000 /\
  (forall i, 0 <= i < 4 -> line_off g i = i * size * 5 / 1000) /\
  page_inset g = size * 25 / 1000 /\
  page_width g = size * 3 / 1000.
Proof.
  intros Hs (E1 & E2 & E3 & E4 & E5 & E6 & E7 & E8 & E9 & E10 & E11 & E12 & E13).
  assert (H33 : 2 ^ 33 = 4 * 2 ^ 31) by reflexivity.
  pose proof dec_floor_ok
    as (F22 & F55 & F95 & F32 & F40 & F18 & F2 & F15 & F8 & F25 & F5 & F3).
  assert (Ew : book_width g = size * 32 / 100)
    by (apply (int_mul_proportion 32 100 size); [exact F32|lia|exact E4]).
  split; [apply (int_mul_proportion 22 100 size); [exact F22|lia|exact E1]|].
  split; [apply (int_mul_proportion 55 100 size); [exact F55|lia|exact E2]|].
  split; [apply (int_mul_proportion 95 1000 size); [exact F95|lia|exact E3]|].
  split; [exact Ew|].
  split; [apply (int_mul_proportion 40 100 size); [exact F40|lia|exact E5]|].
  split.
  { apply (int_mul_proportion 18 100 (book_width g)); [exact F18| |exact E6].
    rewrite Ew. split; [apply Z.div_pos; lia|apply Z.div_lt_upper_bound; lia]. }
  split; [apply (int_mul_proportion 2 100 size); [exact F2|lia|exact E7]|].
  split; [apply (int_mul_proportion 15 1000 size); [exact F15|lia|exact E8]|].
  split; [apply (int_mul_proportion 8 1000 size); [exact F8|lia|exact E9]|].
  split; [apply (int_mul_proportion 25 1000 size); [exact F25|lia|exact E10]|].
  split.
  { intros i Hi. apply (int_mul_proportion 5 1000 (i * size)); [exact F5|nia|].
    apply E11. exact Hi. }
  split; [apply (int_mul_proportion 25 1000 size); [exact F25|lia|exact E12]|].
  apply (int_mul_proportion 3 1000 size); [exact F3|lia|exact E13].
Qed.

Lemma floor_bounds a c v : 0 < c -> v = a / c -> c * v <= a < c * v + c.
Proof.
  intros Hc ->. pose proof (Z.div_mod a c ltac:(lia)).
  pose proof (Z.mod_pos_bound a c Hc). lia.
Qed.

(** A pixel of the canvas outside the rounded silhouette lies in one of the
    four corner squares. *)
Lemma outside_silhouette size r x y :
  0 <= r -> 0 <= x < size -> 0 <= y < size ->
  rounded_rect_covers 0 0 size size r x y = false ->
  (x <= r \/ size - r <= x) /\ (y <= r \/ size - r <= y).
Proof.
  intros Hr Hx Hy Hc. split.
  - destruct (Z_le_dec x r); [lia|]. destruct (Z_le_dec (size - r) x); [lia|].
    rewrite rounded_rect_cross in Hc; [discriminate|lia..].
  - destruct (Z_le_dec y r); [lia|]. destruct (Z_le_dec (size - r) y); [lia|].
    rewrite rounded_rect_cross in Hc; [discriminate|lia..].
Qed.

(** For a canvas edge above 100 the panel, the book and the strokes stay
    between the corner squares of the silhouette. *)
Lemma layers_inside_silhouette size g x y :
  100 < size < 2 ^ 31 -> is_layout size g ->
  x <= corner_radius g \/ size - corner_radius g <= x ->
  rounded_rect_covers (rect_x size g) (rect_x size g)
    (rect_x size g + rect_size g) (rect_x size g + rect_size g) (rect_radius g) x y = false /\
  rounded_rect_covers (book_x size g) (book_y size g)
    (book_x size g + book_width g) (book_y size g + book_height g) (book_radius g) x y = false /\
  (forall i, 0 <= i < 4 -> page_covers size g i x y = false) /\
  stroke_covers (spine_x size g) (book_y size g + spine_inset g)
    (spine_x size g) (book_y size g + book_height g - spine_inset g)
    (spine_width g) x y = false.
Proof.
  intros Hs Hg Hx.
  destruct (layout_proportions size g ltac:(lia) Hg)
    as (P1 & P2 & P3 & P4 & P5 & P6 & P7 & P8 & P9 & P10 & P11 & P12 & P13).
  apply floor_bounds in P1, P2, P3, P4, P5, P6, P7, P8, P9, P10, P12, P13; try lia.
  pose proof (floor_bounds (size - rect_size g) 2 (rect_x size g) ltac:(lia) eq_refl) as Q1.
  pose proof (floor_bounds (size - book_width g) 2 (book_x size g) ltac:(lia) eq_refl) as Q2.
  split; [|split; [|split]].
  - destruct (rounded_rect_covers _ _ _ _ _ x y) eqn:E; [|reflexivity].
    apply rounded_rect_bbox in E. exfalso. lia.
  - destruct (rounded_rect_covers _ _ _ _ _ x y) eqn:E; [|reflexivity].
    apply rounded_rect_bbox in E. exfalso. lia.
  - intros i Hi. unfold page_covers.
    destruct (stroke_covers _ _ _ _ _ x y) eqn:E; [|reflexivity].
    apply stroke_envelope in E. unfold pages_x in E.
    pose proof (P11 i Hi) as Pi. apply floor_bounds in Pi; [|lia].
    assert (0 <= i * size <= 3 * size) by nia.
    exfalso. lia.
  - destruct (stroke_covers _ _ _ _ _ x y) eqn:E; [|reflexivity].
    apply stroke_envelope in E. unfold spine_x in E. exfalso. lia.
Qed.




End ClaimsAnySize.

(** * The run of [main] *)

Section MainRun.
Context `{Rasteriser}.

Lemma os_mkdir_new p st :
  fs st !! p = None -> parent_error (fs st) p = None ->
  os_mkdir p st
  = Ok (tt, {| heap := heap st; calls := calls st ++ [CallMkdir p];
               fs := <[p := Dir]> (fs st); stdout := stdout st |}).
Proof. intros Hp He. unfold os_mkdir. rewrite Hp, He. reflexivity. Qed.

(** [os.mkdir] under [exist_ok=True], as [makedirs] ends. *)
Lemma mkdir_exist_ok p st :
  ~ is_file_at (fs st) p -> (fs st !! p = None -> parent_error (fs st) p = None) ->
  try_except (os_mkdir p) is_OSError
    (fun e => d ← os_path_isdir p; if negb true || negb d then raise e else mret tt) st
  = Ok (tt, {| heap := heap st; calls := calls st ++ mkdir_call p (fs st);
               fs := ensure_dir p (fs st); stdout := stdout st |}).
Proof.
  intros Hf Hpar. unfold try_except, ensure_dir, mkdir_call, is_file_at in *.
  destruct (fs st !! p) as [[|c]|] eqn:Hp.
  - unfold os_mkdir. rewrite Hp. cbn [is_OSError].
    unfold mbind, py_bind, os_path_isdir. rewrite Hp. cbn.
    rewrite app_nil_r. destruct st; reflexivity.
  - exfalso. apply Hf. exact I.
  - rewrite os_mkdir_new by auto. reflexivity.
Qed.

Lemma write_file_ok p c st :
  ~ is_dir_at (fs st) p -> parent_error (fs st) p = None ->
  write_file p c st
  = Ok (tt, {| heap := heap st; calls := calls st ++ [CallWriteFile p];
               fs := <[p := File c]> (fs st); stdout := stdout st |}).
Proof.
  intros Hd He. unfold write_file, is_dir_at in *. rewrite He.
  destruct (fs st !! p) as [[|c']|]; [exfalso; apply Hd; exact I | reflexivity..].
Qed.

Lemma makedirs_base n name tail st :
  os_path_split name = (EmptyString, tail) -> tail <> EmptyString ->
  makedirs_fuel (S n) name true st = mkdir_or_pass name st.
Proof.
  intros Hsp Ht. cbn [makedirs_fuel]. rewrite Hsp.
  destruct tail as [|c t]; [congruence|]. reflexivity.
Qed.

Lemma makedirs_step n name head tail st :
  os_path_split name = (head, tail) ->
  head <> EmptyString -> tail <> EmptyString -> String.eqb tail "." = false ->
  makedirs_fuel (S n) name true st
  = match fs st !! head with
    | Some _ => mkdir_or_pass name st
    | None =>
        match makedirs_fuel n head true st with
        | Ok (_, st') => mkdir_or_pass name st'
        | Err FileExistsError => mkdir_or_pass name st
        | Err e => Err e
        end
    end.
Proof.
  intros Hsp Hh Ht Hdot. cbn [makedirs_fuel]. rewrite Hsp.
  destruct tail as [|c t]; [congruence|]. destruct head as [|c' h]; [congruence|].
  unfold mbind at 1, py_bind at 1. unfold mbind at 1, py_bind at 1.
  unfold os_path_exists at 1.
  destruct (fs st !! String c' h) as [nd|] eqn:Hl.
  - rewrite bool_decide_eq_true_2 by eauto. reflexivity.
  - rewrite bool_decide_eq_false_2 by (intros [? ?]; congruence).
    cbn [negb mret py_ret].
    unfold mbind at 1, py_bind at 1. unfold mbind at 1, py_bind at 1.
    unfold try_except at 1.
    destruct (makedirs_fuel n (String c' h) true st) as [[[] st']|e].
    + cbn [mret py_ret]. rewrite Hdot. reflexivity.
    + destruct e; try reflexivity. cbn [mret py_ret]. rewrite Hdot. reflexivity.
Qed.

Lemma lookup_ensure_dir_ne p q (files : gmap string node) :
  p <> q -> ensure_dir p files !! q = files !! q.
Proof.
  intros Hne. unfold ensure_dir. destruct (files !! p); [reflexivity|].
  apply lookup_insert_ne. exact Hne.
Qed.

Lemma lookup_ensure_dir p (files : gmap string node) :
  ~ is_file_at files p -> ensure_dir p files !! p = Some Dir.
Proof.
  unfold ensure_dir, is_file_at. intros Hf.
  destruct (files !! p) as [[|c]|] eqn:Hp; [exact Hp | exfalso; apply Hf; exact I |].
  apply lookup_insert_eq.
Qed.

Lemma mkdir_call_ensure_dir_ne p q (files : gmap string node) :
  p <> q -> mkdir_call q (ensure_dir p files) = mkdir_call q files.
Proof. intros Hne. unfold mkdir_call. rewrite lookup_ensure_dir_ne by exact Hne. reflexivity. Qed.

Lemma mkdir_or_pass_ok p st :
  ~ is_file_at (fs st) p -> (fs st !! p = None -> parent_error (fs st) p = None) ->
  mkdir_or_pass p st
  = Ok (tt, {| heap := heap st; calls := calls st ++ mkdir_call p (fs st);
               fs := ensure_dir p (fs st); stdout := stdout st |}).
Proof. apply mkdir_exist_ok. Qed.

Lemma parent_error_dir (files : gmap string node) p head tail :
  os_path_split p = (head, tail) -> files !! head = Some Dir -> parent_error files p = None.
Proof.
  intros Hsp Hd. unfold parent_error. rewrite Hsp. cbn [fst].
  destruct head; [reflexivity|]. rewrite Hd. reflexivity.
Qed.

(** [os.makedirs(output_dir, exist_ok=True)] (line 126). *)
Lemma makedirs_output_dir st :
  ~ is_file_at (fs st) "Vellum" -> ~ is_file_at (fs st) assets_dir ->
  ~ is_file_at (fs st) output_dir ->
  os_makedirs output_dir true st
  = Ok (tt, {| heap := heap st; calls := calls st ++ mkdir_calls (fs st);
               fs := ensure_dirs (fs st); stdout := stdout st |}).
Proof.
  intros HV HA HO. unfold os_makedirs.
  change (S (String.length output_dir)) with (S (S (S 39%nat))).
  rewrite (makedirs_step _ output_dir assets_dir "AppIcon.appiconset")
    by (reflexivity || discriminate).
  unfold ensure_dirs, mkdir_calls.
  destruct (fs st !! assets_dir) as [[|c]|] eqn:EA.
  - rewrite mkdir_or_pass_ok; [reflexivity | exact HO |].
    intros _. apply (parent_error_dir _ _ assets_dir "AppIcon.appiconset"); [reflexivity|exact EA].
  - exfalso. apply HA. unfold is_file_at. rewrite EA. exact I.
  - assert (Hassets : makedirs_fuel 41 assets_dir true st
              = Ok (tt, {| heap := heap st;
                           calls := calls st ++ mkdir_call "Vellum" (fs st) ++ [CallMkdir assets_dir];
                           fs := ensure_dir assets_dir (ensure_dir "Vellum" (fs st));
                           stdout := stdout st |})).
    { rewrite (makedirs_step _ assets_dir "Vellum" "Assets.xcassets")
        by (reflexivity || discriminate).
      assert (Hmk : forall st', ~ is_file_at (fs st') "Vellum" ->
                fs st' !! assets_dir = None -> fs st' !! "Vellum" = Some Dir ->
                mkdir_or_pass assets_dir st'
                = Ok (tt, {| heap := heap st'; calls := calls st' ++ [CallMkdir assets_dir];
                             fs := <[assets_dir := Dir]> (fs st'); stdout := stdout st' |})).
      { intros st' _ Ha Hv. rewrite mkdir_or_pass_ok.
        - unfold mkdir_call, ensure_dir. rewrite Ha. reflexivity.
        - unfold is_file_at. rewrite Ha. auto.
        - intros _. apply (parent_error_dir _ _ "Vellum" "Assets.xcassets");
            [reflexivity|exact Hv]. }
      unfold mkdir_call at 1. unfold ensure_dir at 2.
      destruct (fs st !! "Vellum") as [[|c]|] eqn:EV.
      + rewrite Hmk by assumption.
        unfold ensure_dir. rewrite EA. rewrite app_nil_l. reflexivity.
      + exfalso. apply HV. unfold is_file_at. rewrite EV. exact I.
      + rewrite (makedirs_base _ "Vellum" "Vellum") by (reflexivity || discriminate).
        rewrite mkdir_or_pass_ok;
          [|exact HV|intros _; unfold parent_error; reflexivity].
        unfold mkdir_call, ensure_dir at 1. rewrite EV.
        rewrite Hmk; cbn [fs heap calls stdout].
        * unfold ensure_dir. rewrite lookup_insert_ne by discriminate. rewrite EA.
          rewrite <- app_assoc. reflexivity.
        * unfold is_file_at. rewrite lookup_insert_eq. auto.
        * rewrite lookup_insert_ne by discriminate. exact EA.
        * apply lookup_insert_eq. }
    rewrite Hassets.
    rewrite mkdir_or_pass_ok; cbn [fs heap calls stdout].
    + rewrite !mkdir_call_ensure_dir_ne by discriminate.
      rewrite <- !app_assoc. reflexivity.
    + unfold is_file_at. rewrite !lookup_ensure_dir_ne by discriminate. exact HO.
    + intros _. apply (parent_error_dir _ _ assets_dir "AppIcon.appiconset"); [reflexivity|].
      apply lookup_ensure_dir. unfold is_file_at.
      rewrite lookup_ensure_dir_ne by discriminate. exact HA.
Qed.

Lemma ready_spec files :
  ready files = true ->
  ~ is_file_at files "Vellum" /\ ~ is_file_at files assets_dir /\
  ~ is_file_at files output_dir /\
  ~ is_dir_at files png_path /\ ~ is_dir_at files json_path.
Proof.
  unfold ready. rewrite !andb_true_iff, !negb_true_iff.
  intros ((((H1 & H2) & H3) & H4) & H5).
  rewrite H1, H2, H3, H4, H5. repeat split; intros [].
Qed.

Lemma ensure_dirs_output_dir files :
  ~ is_file_at files output_dir -> ensure_dirs files !! output_dir = Some Dir.
Proof.
  intros HO. unfold ensure_dirs. apply lookup_ensure_dir.
  unfold is_file_at in *. destruct (files !! assets_dir); [exact HO|].
  rewrite !lookup_ensure_dir_ne by discriminate. exact HO.
Qed.

Lemma ensure_dirs_other files p :
  p <> "Vellum" -> p <> assets_dir -> p <> output_dir ->
  ensure_dirs files !! p = files !! p.
Proof.
  intros H1 H2 H3. unfold ensure_dirs.
  rewrite lookup_ensure_dir_ne by congruence.
  destruct (files !! assets_dir); [reflexivity|].
  rewrite !lookup_ensure_dir_ne by congruence. reflexivity.
Qed.

Lemma print_ok s st :
  print s st = Ok (tt, {| heap := heap st; calls := calls st; fs := fs st;
                          stdout := stdout st ++ [s] |}).
Proof. reflexivity. Qed.

(** A run of [main] on a file system with nothing in the way. *)
Lemma main_ok files :
  ready files = true ->
  main (fresh files)
  = Ok (tt, {| heap := icon_heap 1024 layout_1024 (row_of 1024);
               calls := main_calls files;
               fs := main_fs files;
               stdout := main_stdout |}).
Proof.
  intros Hr. apply ready_spec in Hr. destruct Hr as (HV & HA & HO & HP & HJ).
  unfold main, fresh.
  erewrite bind_ok by apply print_ok. cbn [heap calls fs stdout app].
  erewrite bind_ok by apply create_app_icon_1024. cbn [app].
  erewrite bind_ok by (apply makedirs_output_dir; assumption).
  cbn [heap calls fs stdout]. cbv zeta.
  change (os_path_join output_dir "AppIcon.png") with png_path.
  change (os_path_join output_dir "Contents.json") with json_path.
  erewrite bind_ok; cycle 1.
  { unfold Image_save. erewrite bind_ok by reflexivity.
    change (String.eqb "PNG" "PNG") with true. cbv iota.
    apply write_file_ok; cbn [fs].
    - unfold is_dir_at. rewrite ensure_dirs_other by discriminate. exact HP.
    - apply (parent_error_dir _ _ output_dir "AppIcon.png"); [reflexivity|].
      apply ensure_dirs_output_dir. exact HO. }
  cbn [heap calls fs stdout].
  erewrite bind_ok by apply print_ok. cbn [heap calls fs stdout app].
  erewrite bind_ok; cycle 1.
  { unfold open_write. apply write_file_ok; cbn [fs].
    - unfold is_dir_at. rewrite lookup_insert_ne by discriminate.
      rewrite ensure_dirs_other by discriminate. exact HJ.
    - apply (parent_error_dir _ _ output_dir "Contents.json"); [reflexivity|].
      rewrite lookup_insert_ne by discriminate.
      apply ensure_dirs_output_dir. exact HO. }
  cbn [heap calls fs stdout].
  erewrite bind_ok by apply print_ok. cbn [heap calls fs stdout app].
  erewrite bind_ok by apply print_ok. cbn [heap calls fs stdout app].
  rewrite print_ok. cbn [heap calls fs stdout app].
  unfold main_calls, main_fs. rewrite <- !app_assoc. reflexivity.
Qed.

End MainRun.

(** * Determinism *)

Section Determinism.
Context `{Rasteriser}.

Lemma heap_only_ret {A : Type} (a : A) : heap_only (mret a).
Proof. intros s1 s2 Hh. cbn. auto. Qed.

Lemma heap_only_bind {A B : Type} (m : py A) (f : A -> py B) :
  heap_only m -> (forall a, heap_only (f a)) -> heap_only (m ≫= f).
Proof.
  intros Hm Hf s1 s2 Hh. specialize (Hm s1 s2 Hh).
  unfold mbind, py_bind, agree in *.
  destruct (m s1) as [[a1 t1]|e1], (m s2) as [[a2 t2]|e2]; try contradiction.
  - destruct Hm as [-> Ht]. apply Hf. exact Ht.
  - exact Hm.
Qed.

Lemma heap_only_lift {A : Type} (r : result A) : heap_only (lift r).
Proof. intros s1 s2 Hh. unfold lift. destruct r; cbn; auto. Qed.

Lemma heap_only_raise {A : Type} (e : exn) : heap_only (@raise A e).
Proof. intros s1 s2 Hh. reflexivity. Qed.

Lemma heap_only_alloc im : heap_only (alloc im).
Proof. intros s1 s2 Hh. cbn. rewrite Hh. auto. Qed.

Lemma heap_only_deref id : heap_only (deref id).
Proof.
  intros s1 s2 Hh. unfold deref. rewrite Hh.
  destruct (heap s2 !! id); cbn; auto.
Qed.

Lemma heap_only_store id im : heap_only (store id im).
Proof. intros s1 s2 Hh. cbn. rewrite Hh. auto. Qed.

Lemma heap_only_log_call c : heap_only (log_call c).
Proof. intros s1 s2 Hh. cbn. auto. Qed.

Lemma heap_only_for_upto k : forall y body,
  (forall i, heap_only (body i)) -> heap_only (for_upto k y body).
Proof.
  induction k as [|k IH]; intros y body Hb; cbn [for_upto].
  - apply heap_only_ret.
  - apply heap_only_bind; [apply Hb|]. intros _. apply IH. exact Hb.
Qed.

Ltac heap_only_step :=
  first [ apply heap_only_ret | apply heap_only_lift | apply heap_only_raise
        | apply heap_only_alloc | apply heap_only_deref | apply heap_only_store
        | apply heap_only_log_call
        | apply heap_only_for_upto; intros ?
        | apply heap_only_bind; [|intros ?] ].

Lemma heap_only_Image_new m size c : heap_only (Image_new m size c).
Proof.
  unfold Image_new. destruct size as [w h].
  destruct (_ || _); [|destruct (_ || _)]; repeat heap_only_step.
Qed.

Lemma heap_only_Draw id : heap_only (ImageDraw_Draw id).
Proof. unfold ImageDraw_Draw. repeat heap_only_step. Qed.

Lemma heap_only_line d xy c w : heap_only (ImageDraw_line d xy c w).
Proof. unfold ImageDraw_line. destruct xy as [[x0 y0] [x1 y1]]. repeat heap_only_step. Qed.

Lemma heap_only_rounded_rectangle d xy r c :
  heap_only (ImageDraw_rounded_rectangle d xy r c).
Proof.
  unfold ImageDraw_rounded_rectangle. destruct xy as [[x0 y0] [x1 y1]].
  destruct (_ || _); repeat heap_only_step.
Qed.

Lemma heap_only_putalpha im mask : heap_only (Image_putalpha im mask).
Proof.
  unfold Image_putalpha.
  apply heap_only_bind; [apply heap_only_deref|intros i].
  apply heap_only_bind; [apply heap_only_deref|intros a].
  destruct (im_mode i), (im_mode a); try destruct (same_size i a); repeat heap_only_step.
Qed.

Lemma heap_only_alpha_composite im1 im2 : heap_only (Image_alpha_composite im1 im2).
Proof.
  unfold Image_alpha_composite.
  apply heap_only_bind; [apply heap_only_deref|intros i].
  apply heap_only_bind; [apply heap_only_deref|intros a].
  destruct (im_mode i), (im_mode a); try destruct (same_size i a); repeat heap_only_step.
Qed.

Ltac heap_only_call :=
  first [ apply heap_only_Image_new | apply heap_only_Draw | apply heap_only_line
        | apply heap_only_rounded_rectangle | apply heap_only_putalpha
        | apply heap_only_alpha_composite | heap_only_step ].

(** [create_app_icon] reads and changes the image objects only. *)
Lemma heap_only_create_app_icon size : heap_only (create_app_icon size).
Proof.
  unfold create_app_icon, for_range.
  repeat (cbv zeta; heap_only_call);
    try match goal with a : Z * Z * Z |- _ => destruct a as [[? ?] ?] end;
    repeat (cbv zeta; heap_only_call).
Qed.

End Determinism.

(** * The claims about [main] *)

Section ClaimsMain.
Context `{Rasteriser}.

Abbreviation icon_1024 := (final_canvas 1024 layout_1024 (row_of 1024)).

Lemma main_fs_json files : main_fs files !! json_path = Some (File (Text contents_json)).
Proof. unfold main_fs. apply lookup_insert_eq. Qed.

Lemma main_fs_png files : main_fs files !! png_path = Some (File (Png icon_1024)).
Proof.
  unfold main_fs. rewrite lookup_insert_ne by discriminate. apply lookup_insert_eq.
Qed.

Lemma main_fs_other files p :
  p <> json_path -> p <> png_path -> main_fs files !! p = ensure_dirs files !! p.
Proof.
  intros H1 H2. unfold main_fs. rewrite !lookup_insert_ne by congruence. reflexivity.
Qed.

(** C5: [main] leaves at [<dir>/Contents.json], whatever was there, a text
    that parses as JSON, with exactly one entry in ["images"] (filename
    AppIcon.png, idiom universal, platform ios, size 1024x1024, which are
    the pixel dimensions of the raster written to AppIcon.png) and an
    ["info"] object with author xcode and version 1. *)
Theorem contents_json_manifest (files : gmap string node) :
  ready files = true ->
  exists st icon,
    main (fresh files) = Ok (tt, st) /\
    json_path = "Vellum/Assets.xcassets/AppIcon.appiconset/Contents.json" /\
    fs st !! json_path = Some (File (Text contents_json)) /\
    parse_json contents_json
    = Some (JObject
        [("images",
          JArray [JObject [("filename", JString "AppIcon.png");
                           ("idiom", JString "universal");
                           ("platform", JString "ios");
                           ("size", JString "1024x1024")]]);
         ("info", JObject [("author", JString "xcode"); ("version", JNumber 1)])]) /\
    fs st !! png_path = Some (File (Png icon)) /\
    size_string icon = "1024x1024".
Proof.
  intros Hr. eexists _, _. split; [apply main_ok; exact Hr|]. cbn [fs].
  split; [reflexivity|].
  split; [apply main_fs_json|].
  split; [vm_compute; reflexivity|].
  split; [apply main_fs_png|].
  unfold size_string.
  destruct (final_canvas_shape 1024 layout_1024 (row_of 1024)) as (_ & -> & ->).
  vm_compute. reflexivity.
Qed.

Lemma ensure_dirs_assets files :
  ~ is_file_at files assets_dir -> ensure_dirs files !! assets_dir = Some Dir.
Proof.
  intros HA. unfold ensure_dirs. rewrite lookup_ensure_dir_ne by discriminate.
  unfold is_file_at in HA.
  destruct (files !! assets_dir) as [[|c]|] eqn:EA; [exact EA | exfalso; apply HA; exact I |].
  apply lookup_ensure_dir. unfold is_file_at.
  rewrite lookup_ensure_dir_ne by discriminate. rewrite EA. auto.
Qed.

Lemma ensure_dirs_Vellum files :
  ~ is_file_at files "Vellum" -> ~ is_file_at (ensure_dirs files) "Vellum".
Proof.
  intros HV. unfold is_file_at in *. unfold ensure_dirs.
  rewrite lookup_ensure_dir_ne by discriminate.
  destruct (files !! assets_dir); [exact HV|].
  rewrite lookup_ensure_dir_ne by discriminate.
  unfold ensure_dir. destruct (files !! "Vellum") as [[|c]|] eqn:EV.
  - rewrite EV. auto.
  - exfalso. apply HV. exact I.
  - rewrite lookup_insert_eq. auto.
Qed.

Lemma ensure_dirs_Vellum_made files :
  files !! "Vellum" = None -> files !! assets_dir = None ->
  ensure_dirs files !! "Vellum" = Some Dir.
Proof.
  intros EV EA. unfold ensure_dirs. rewrite lookup_ensure_dir_ne by discriminate.
  rewrite EA. rewrite lookup_ensure_dir_ne by discriminate.
  apply lookup_ensure_dir. unfold is_file_at. rewrite EV. auto.
Qed.

(** After a run nothing is in the way of the next one, and the next one
    makes no directory and leaves the same files. *)
Lemma main_fs_ready files : ready files = true -> ready (main_fs files) = true.
Proof.
  intros Hr. apply ready_spec in Hr. destruct Hr as (HV & HA & HO & HP & HJ).
  unfold ready, is_file_at, is_dir_at.
  rewrite main_fs_json, main_fs_png, !main_fs_other by discriminate.
  rewrite ensure_dirs_assets, ensure_dirs_output_dir by assumption.
  apply ensure_dirs_Vellum in HV. unfold is_file_at in HV.
  destruct (ensure_dirs files !! "Vellum") as [[|c]|]; try reflexivity.
  exfalso. apply HV. exact I.
Qed.

Lemma main_fs_dirs files :
  ready files = true ->
  ensure_dirs (main_fs files) = main_fs files /\ mkdir_calls (main_fs files) = [].
Proof.
  intros Hr. apply ready_spec in Hr. destruct Hr as (HV & HA & HO & HP & HJ).
  assert (EA : main_fs files !! assets_dir = Some Dir)
    by (rewrite main_fs_other by discriminate; apply ensure_dirs_assets; exact HA).
  assert (EO : main_fs files !! output_dir = Some Dir)
    by (rewrite main_fs_other by discriminate; apply ensure_dirs_output_dir; exact HO).
  unfold ensure_dirs, mkdir_calls. rewrite EA.
  unfold ensure_dir, mkdir_call. rewrite EO.
  split; reflexivity.
Qed.

Lemma main_fs_idempotent files :
  ready files = true -> main_fs (main_fs files) = main_fs files.
Proof.
  intros Hr. destruct (main_fs_dirs files Hr) as [He _].
  unfold main_fs at 1. rewrite He. unfold main_fs.
  rewrite (insert_insert_ne _ png_path json_path) by discriminate.
  rewrite !insert_insert_eq. reflexivity.
Qed.

(** C8: the generator is deterministic.  Two runs of [create_app_icon]
    with the same size from the same image objects end alike, whatever the
    rest of the interpreter state: the same exception, or the same raster,
    pixel for pixel.  Two runs of [main], over any two file systems with
    nothing in the way, leave the same raster in AppIcon.png and the same
    text in Contents.json, replacing what was there; running again on the
    result changes nothing. *)
Theorem generator_deterministic (size : Z) (st1 st2 : pystate)
  (files1 files2 : gmap string node) :
  heap st1 = heap st2 -> ready files1 = true -> ready files2 = true ->
  agree (create_app_icon size st1) (create_app_icon size st2) /\
  (forall id1 id2 t1 t2 icon1 icon2,
     create_app_icon size st1 = Ok (id1, t1) -> create_app_icon size st2 = Ok (id2, t2) ->
     heap t1 !! id1 = Some icon1 -> heap t2 !! id2 = Some icon2 ->
     im_width icon1 = im_width icon2 /\ im_height icon1 = im_height icon2 /\
     forall x y, getpixel icon1 x y = getpixel icon2 x y) /\
  exists s1 s2 s1' icon,
    main (fresh files1) = Ok (tt, s1) /\ main (fresh files2) = Ok (tt, s2) /\
    fs s1 !! png_path = Some (File (Png icon)) /\
    fs s2 !! png_path = Some (File (Png icon)) /\
    im_width icon = 1024 /\ im_height icon = 1024 /\
    fs s1 !! json_path = Some (File (Text contents_json)) /\
    fs s2 !! json_path = Some (File (Text contents_json)) /\
    stdout s1 = stdout s2 /\
    main (fresh (fs s1)) = Ok (tt, s1') /\ fs s1' = fs s1.
Proof.
  intros Hh Hr1 Hr2.
  pose proof (heap_only_create_app_icon size st1 st2 Hh) as Ha.
  split; [exact Ha|]. split.
  { intros id1 id2 t1 t2 icon1 icon2 E1 E2 L1 L2.
    rewrite E1, E2 in Ha. destruct Ha as [-> Ht]. rewrite Ht in L1.
    assert (icon1 = icon2) by congruence. subst. auto. }
  eexists _, _, _, _.
  split; [apply main_ok; exact Hr1|]. split; [apply main_ok; exact Hr2|].
  cbn [fs stdout].
  split; [apply main_fs_png|]. split; [apply main_fs_png|].
  destruct (final_canvas_shape 1024 layout_1024 (row_of 1024)) as (_ & Hw & Hht).
  split; [exact Hw|]. split; [exact Hht|].
  split; [apply main_fs_json|]. split; [apply main_fs_json|].
  split; [reflexivity|].
  split; [apply main_ok, main_fs_ready; exact Hr1|].
  cbn [fs]. apply main_fs_idempotent. exact Hr1.
Qed.

(** C9: on a file system with nothing in the way [main] runs without
    error, and the output directory and the directory above it are
    directories afterwards.  Directories are made before AppIcon.png is
    written: the changes to the file system are the directories made, then
    the two files.  When the output directory is missing it is made, with
    every directory above it when none exists; when it and the directory
    above it exist, nothing is made.  A second run on the result succeeds,
    makes no directory and leaves the files as they are. *)
Theorem output_directory_created (files : gmap string node) :
  ready files = true ->
  exists st made st',
    main (fresh files) = Ok (tt, st) /\
    fs st !! output_dir = Some Dir /\
    fs st !! assets_dir = Some Dir /\
    List.filter is_fs_call (calls st)
    = made ++ [CallWriteFile png_path; CallWriteFile json_path] /\
    (files !! output_dir = None -> In (CallMkdir output_dir) made) /\
    (files !! output_dir = None -> files !! assets_dir = None ->
     files !! "Vellum" = None ->
     made = [CallMkdir "Vellum"; CallMkdir assets_dir; CallMkdir output_dir] /\
     fs st !! "Vellum" = Some Dir) /\
    (files !! output_dir = Some Dir -> files !! assets_dir = Some Dir -> made = []) /\
    main (fresh (fs st)) = Ok (tt, st') /\
    List.filter is_fs_call (calls st') = [CallWriteFile png_path; CallWriteFile json_path] /\
    fs st' = fs st.
Proof.
  intros Hr. pose proof (ready_spec files Hr) as (HV & HA & HO & HP & HJ).
  assert (Hfilter : forall fl,
            List.filter is_fs_call (main_calls fl)
            = mkdir_calls fl ++ [CallWriteFile png_path; CallWriteFile json_path]).
  { intros fl. unfold main_calls.
    rewrite List.filter_app.
    replace (List.filter is_fs_call (icon_calls 1024 layout_1024 (row_of 1024)))
      with (@nil call) by (vm_compute; reflexivity).
    cbn [app]. rewrite List.filter_app. f_equal.
    unfold mkdir_calls, mkdir_call.
    destruct (fl !! assets_dir), (fl !! "Vellum"), (fl !! output_dir); reflexivity. }
  exists {| heap := icon_heap 1024 layout_1024 (row_of 1024);
            calls := main_calls files; fs := main_fs files; stdout := main_stdout |},
    (mkdir_calls files),
    {| heap := icon_heap 1024 layout_1024 (row_of 1024);
       calls := main_calls (main_fs files); fs := main_fs (main_fs files);
       stdout := main_stdout |}.
  split; [apply main_ok; exact Hr|]. cbn [fs calls].
  split; [rewrite main_fs_other by discriminate; apply ensure_dirs_output_dir; exact HO|].
  split; [rewrite main_fs_other by discriminate; apply ensure_dirs_assets; exact HA|].
  split; [apply Hfilter|].
  split.
  { intros EO. unfold mkdir_calls, mkdir_call. rewrite EO.
    apply in_or_app. right. left. reflexivity. }
  split.
  { intros EO EA EV. split.
    - unfold mkdir_calls, mkdir_call. rewrite EO, EA, EV. reflexivity.
    - rewrite main_fs_other by discriminate. apply ensure_dirs_Vellum_made; assumption. }
  split.
  { intros EO EA. unfold mkdir_calls, mkdir_call. rewrite EO, EA. reflexivity. }
  split; [apply main_ok, main_fs_ready; exact Hr|].
  split.
  { rewrite Hfilter. destruct (main_fs_dirs files Hr) as [_ ->]. reflexivity. }
  apply main_fs_idempotent. exact Hr.
Qed.

End ClaimsMain.

(** * Compositing over an opaque pixel is the rounded mean *)

Lemma blend_table_ok : all_from (Z.to_nat 65026) 0 blend_ok = true.
Proof. vm_compute. reflexivity. Qed.

Lemma blend_round t :
  0 <= t <= 65025 ->
  Z.shiftr (SHIFTFORDIV255 (128 * t + 16384)) 7 = (2 * t + 255) / 510.
Proof.
  intros Ht. apply Z.eqb_eq.
  apply (all_from_spec (Z.to_nat 65026) blend_ok 0 t blend_table_ok).
  rewrite Z2Nat.id by lia. lia.
Qed.

Lemma mix_byte a s d :
  is_byte a -> is_byte s -> is_byte d -> is_byte (mix a s d).
Proof.
  unfold is_byte, mix. intros Ha Hs Hd.
  assert (0 <= s * a + d * (255 - a) <= 65025) by nia.
  split.
  - apply Z.div_pos; lia.
  - assert ((2 * (s * a + d * (255 - a)) + 255) / 510 < 256)
      by (apply Z.div_lt_upper_bound; lia).
    lia.
Qed.

(** A layer pixel over an opaque pixel: each band is the rounded mean, and
    the result is opaque. *)
Lemma over_opaque d s :
  byte_pixel d -> alpha d = 255 -> byte_pixel s ->
  alpha_composite_pixel d s = mix_pixel d s /\
  byte_pixel (mix_pixel d s) /\ alpha (mix_pixel d s) = 255.
Proof.
  intros (Hdr & Hdg & Hdb & _) Hda (Hsr & Hsg & Hsb & Hsa).
  unfold alpha_composite_pixel, mix_pixel.
  destruct (Z.eqb_spec (alpha s) 0) as [E|E].
  { split; [reflexivity|]. split; [|exact Hda].
    unfold byte_pixel. rewrite Hda. unfold is_byte in *. lia. }
  rewrite Hda. cbv zeta.
  set (a := alpha s) in *.
  replace (a * 255 + 255 * (255 - a)) with 65025 by lia.
  replace (a * 255 * 255 * 128) with (128 * a * 65025) by lia.
  rewrite Z.div_mul by lia.
  change (Z.shiftl 128 7) with 16384.
  assert (Hc : forall u v, is_byte u -> is_byte v ->
            Z.shiftr (SHIFTFORDIV255 (u * (128 * a) + v * (255 * 128 - 128 * a) + 16384)) 7
            = mix a u v).
  { intros u v Hu Hv. unfold is_byte in *.
    replace (u * (128 * a) + v * (255 * 128 - 128 * a) + 16384)
      with (128 * (u * a + v * (255 - a)) + 16384) by lia.
    apply blend_round. nia. }
  rewrite !Hc by assumption.
  change (SHIFTFORDIV255 (65025 + 128)) with 255.
  split; [reflexivity|]. split; [|reflexivity].
  unfold byte_pixel. cbn [red green blue alpha].
  split; [apply mix_byte; assumption|].
  split; [apply mix_byte; assumption|].
  split; [apply mix_byte; assumption|].
  unfold is_byte. lia.
Qed.

Lemma CLIP8_byte v : is_byte (CLIP8 v).
Proof.
  unfold CLIP8, is_byte.
  destruct (Z.leb_spec v 0); [lia|]. destruct (Z.ltb_spec v 256); lia.
Qed.

(** * The pixels of the layers, and the nesting of the layout *)

Section Blend.
Context `{Rasteriser}.

Lemma byte_pixel_if (b : bool) p q :
  byte_pixel p -> byte_pixel q -> byte_pixel (if b then p else q).
Proof. destruct b; auto. Qed.

Lemma byte_pixel_const r g b a :
  is_byte r -> is_byte g -> is_byte b -> is_byte a -> byte_pixel (Pixel r g b a).
Proof. unfold byte_pixel. auto. Qed.

(** The layers and the composites at a pixel of the canvas. *)
Lemma layer_pixels size g row x y :
  0 <= x < size -> 0 <= y < size ->
  exists pc po pb ps,
    getpixel (canvas_layer size g row) x y = Some pc /\
    getpixel (overlay_layer size g) x y = Some po /\
    getpixel (book_layer size g) x y = Some pb /\
    getpixel (spine_layer size g) x y = Some ps /\
    getpixel (panel_canvas size g row) x y = Some (alpha_composite_pixel pc po) /\
    getpixel (book_canvas size g row) x y
    = Some (alpha_composite_pixel (alpha_composite_pixel pc po) pb) /\
    getpixel (final_canvas size g row) x y
    = Some (alpha_composite_pixel
              (alpha_composite_pixel (alpha_composite_pixel pc po) pb) ps) /\
    byte_pixel pc /\ byte_pixel po /\ byte_pixel pb /\ byte_pixel ps /\
    alpha pc = (if rounded_rect_covers 0 0 size size (corner_radius g) x y
                then 255 else 0) /\
    po = (if rounded_rect_covers (rect_x size g) (rect_x size g)
               (rect_x size g + rect_size g) (rect_x size g + rect_size g)
               (rect_radius g) x y
          then Pixel 255 255 255 51 else Pixel 0 0 0 0) /\
    pb = (if page_covers size g 3 x y || page_covers size g 2 x y
             || page_covers size g 1 x y || page_covers size g 0 x y
          then Pixel 220 180 140 120
          else if rounded_rect_covers (book_x size g) (book_y size g)
                    (book_x size g + book_width g) (book_y size g + book_height g)
                    (book_radius g) x y
               then Pixel 255 255 255 255 else Pixel 0 0 0 0) /\
    ps = (if stroke_covers (spine_x size g) (book_y size g + spine_inset g)
               (spine_x size g) (book_y size g + book_height g - spine_inset g)
               (spine_width g) x y
          then Pixel 200 150 100 80 else Pixel 0 0 0 0).
Proof.
  intros Hx Hy.
  pose proof (canvas_pixel size g row x y Hx Hy) as Hc.
  pose proof (overlay_pixel size g x y Hx Hy) as Ho.
  pose proof (book_pixel size g x y Hx Hy) as Hb.
  pose proof (spine_pixel size g x y Hx Hy) as Hs.
  eexists _, _, _, _.
  split; [exact Hc|]. split; [exact Ho|]. split; [exact Hb|]. split; [exact Hs|].
  assert (Hp : getpixel (panel_canvas size g row) x y = Some (alpha_composite_pixel _ _))
    by (apply getpixel_over; [exact Hc|exact Ho]).
  split; [exact Hp|].
  assert (Hk : getpixel (book_canvas size g row) x y = Some (alpha_composite_pixel _ _))
    by (apply getpixel_over; [exact Hp|exact Hb]).
  split; [exact Hk|].
  split; [apply getpixel_over; [exact Hk|exact Hs]|].
  assert (B255 : is_byte 255) by (unfold is_byte; lia).
  assert (B0 : is_byte 0) by (unfold is_byte; lia).
  split.
  { apply byte_pixel_const; try apply CLIP8_byte.
    destruct (rounded_rect_covers _ _ _ _ _ x y); assumption. }
  split; [apply byte_pixel_if; apply byte_pixel_const; unfold is_byte; lia|].
  split.
  { apply byte_pixel_if; [|apply byte_pixel_if];
      apply byte_pixel_const; unfold is_byte; lia. }
  split; [apply byte_pixel_if; apply byte_pixel_const; unfold is_byte; lia|].
  repeat split; reflexivity.
Qed.

(** The boxes of the layout are nested, whatever the canvas edge: the
    panel in the canvas, the book in the panel, the strokes (with their
    widths) in the panel, their axes in the book. *)
Lemma layout_nesting size g :
  0 <= size < 2 ^ 31 -> is_layout size g ->
  (0 <= rect_x size g /\ rect_x size g + rect_size g <= size) /\
  (rect_x size g <= book_x size g /\
   book_x size g + book_width g <= rect_x size g + rect_size g /\
   rect_x size g <= book_y size g /\
   book_y size g + book_height g <= rect_x size g + rect_size g) /\
  (book_x size g <= spine_x size g /\ spine_x size g <= pages_x size g /\
   forall i, 0 <= i < 4 ->
     pages_x size g <= pages_x size g + line_off g i <= book_x size g + book_width g) /\
  (0 <= spine_inset g /\ 2 * spine_inset g <= book_height g /\
   0 <= page_inset g /\ 2 * page_inset g <= book_height g) /\
  (0 <= corner_radius g /\ 2 * corner_radius g <= size /\
   0 <= rect_radius g /\ 2 * rect_radius g <= rect_size g /\
   0 <= book_radius g /\ 2 * book_radius g <= book_width g /\
   0 <= spine_width g /\ 0 <= page_width g) /\
  (rect_x size g <= spine_x size g - spine_width g /\
   spine_x size g + spine_width g <= rect_x size g + rect_size g /\
   rect_x size g <= book_y size g + spine_inset g - spine_width g /\
   book_y size g + book_height g - spine_inset g + spine_width g
   <= rect_x size g + rect_size g) /\
  (forall i, 0 <= i < 4 ->
     rect_x size g <= pages_x size g + line_off g i - page_width g /\
     pages_x size g + line_off g i + page_width g <= rect_x size g + rect_size g) /\
  (rect_x size g <= book_y size g + page_inset g - page_width g /\
   book_y size g + book_height g - page_inset g + page_width g
   <= rect_x size g + rect_size g).
Proof.
  intros Hs Hg.
  destruct (layout_proportions size g Hs Hg)
    as (P1 & P2 & P3 & P4 & P5 & P6 & P7 & P8 & P9 & P10 & P11 & P12 & P13).
  apply floor_bounds in P1, P2, P3, P4, P5, P6, P7, P8, P9, P10, P12, P13; try lia.
  pose proof (floor_bounds (size - rect_size g) 2 (rect_x size g) ltac:(lia) eq_refl) as Q1.
  pose proof (floor_bounds (size - book_width g) 2 (book_x size g) ltac:(lia) eq_refl) as Q2.
  pose proof (floor_bounds (size - book_height g) 2 (book_y size g) ltac:(lia) eq_refl) as Q3.
  assert (P11' : forall i, 0 <= i < 4 ->
            0 <= line_off g i /\ 1000 * line_off g i <= 15 * size).
  { intros i Hi. pose proof (P11 i Hi) as Pi. apply floor_bounds in Pi; [|lia].
    assert (0 <= i * size <= 3 * size) by (clear - Hi Hs; nia). lia. }
  destruct Hs as [Hs0 _]. clear Hg P11.
  unfold spine_x, pages_x.
  set (rx := rect_x size g) in *. set (bx := book_x size g) in *.
  set (by_ := book_y size g) in *.
  split; [lia|]. split; [lia|].
  split.
  { split; [lia|]. split; [lia|]. intros i Hi. destruct (P11' i Hi). lia. }
  split; [lia|]. split; [lia|]. split; [lia|].
  split; [|lia].
  intros i Hi. destruct (P11' i Hi). lia.
Qed.

(** A layer stays inside the panel's box: outside it nothing is drawn. *)
Lemma layers_inside_panel_box size g x y :
  0 <= size < 2 ^ 31 -> is_layout size g ->
  ~ (rect_x size g <= x <= rect_x size g + rect_size g /\
     rect_x size g <= y <= rect_x size g + rect_size g) ->
  rounded_rect_covers (rect_x size g) (rect_x size g)
    (rect_x size g + rect_size g) (rect_x size g + rect_size g) (rect_radius g) x y = false /\
  rounded_rect_covers (book_x size g) (book_y size g)
    (book_x size g + book_width g) (book_y size g + book_height g) (book_radius g) x y = false /\
  (forall i, 0 <= i < 4 -> page_covers size g i x y = false) /\
  stroke_covers (spine_x size g) (book_y size g + spine_inset g)
    (spine_x size g) (book_y size g + book_height g - spine_inset g)
    (spine_width g) x y = false.
Proof.
  intros Hs Hg Hout.
  destruct (layout_nesting size g Hs Hg)
    as (_ & (N1 & N2 & N3 & N4) & _ & (I1 & I2 & I3 & I4) & (_ & _ & _ & _ & _ & _ & W1 & W2)
        & (S1 & S2 & S3 & S4) & NP & (Y1 & Y2)).
  split; [|split; [|split]].
  - destruct (rounded_rect_covers _ _ _ _ _ x y) eqn:E; [|reflexivity].
    apply rounded_rect_bbox in E. exfalso. tauto.
  - destruct (rounded_rect_covers _ _ _ _ _ x y) eqn:E; [|reflexivity].
    apply rounded_rect_bbox in E. exfalso. apply Hout. lia.
  - intros i Hi. unfold page_covers.
    destruct (stroke_covers _ _ _ _ _ x y) eqn:E; [|reflexivity].
    apply stroke_envelope in E.
    rewrite Z.min_id, Z.max_id, (Z.max_l (page_width g) 0) in E by lia.
    rewrite Z.min_l, Z.max_r in E by lia.
    destruct (NP i Hi). exfalso. apply Hout. lia.
  - destruct (stroke_covers _ _ _ _ _ x y) eqn:E; [|reflexivity].
    apply stroke_envelope in E.
    rewrite Z.min_id, Z.max_id, (Z.max_l (spine_width g) 0) in E by lia.
    rewrite Z.min_l, Z.max_r in E by lia.
    exfalso. apply Hout. lia.
Qed.

End Blend.

(** * Further properties of the icon *)

Section ExtraIcon.
Context `{Rasteriser}.

Lemma small_size size : 0 <= size < 2 ^ 31 -> 0 <= size < 2 ^ 1020.
Proof.
  intros Hs. split; [lia|]. apply Z.lt_le_trans with (2 ^ 31); [lia|].
  apply Z.pow_le_mono_r; lia.
Qed.

(** X1: the panel layer (object 2, created transparent) receives exactly
    one call, a filled rounded rectangle in white of opacity 51 over the
    centred square of side [int(size * 0.55)], of corner radius
    [int(size * 0.095)] (the proportions truncated, for a canvas edge
    below [2^31]); it is the layer of the first composite, over the canvas
    (object 0), which gives object 3. *)
Theorem panel_layer_drawing (size : Z) (files : gmap string node) :
  0 < size < 2 ^ 31 ->
  exists st canvas overlay panel rect_size rect_radius,
    create_app_icon size (fresh files) = Ok (7%nat, st) /\
    int_mul size (dec 55 100) = Ok rect_size /\
    int_mul size (dec 95 1000) = Ok rect_radius /\
    (size < 2 ^ 31 -> rect_size = size * 55 / 100 /\ rect_radius = size * 95 / 1000) /\
    let rect_x := (size - rect_size) `div` 2 in
    0 <= size - rect_size - 2 * rect_x <= 1 /\
    List.filter (on_image 2) (calls st)
    = [CallNew 2 RGBA size size (ColorTuple [0; 0; 0; 0]);
       CallRoundedRectangle 2 rect_x rect_x (rect_x + rect_size) (rect_x + rect_size)
         rect_radius (ColorTuple [255; 255; 255; 51])] /\
    hd_error (List.filter is_composite (calls st)) = Some (CallAlphaComposite 0 2 3) /\
    heap st !! 0%nat = Some canvas /\ heap st !! 2%nat = Some overlay /\
    heap st !! 3%nat = Some panel /\
    panel = over canvas overlay /\
    forall x y, 0 <= x < size -> 0 <= y < size ->
      getpixel overlay x y
      = Some (if rounded_rect_covers rect_x rect_x (rect_x + rect_size)
                   (rect_x + rect_size) rect_radius x y
              then Pixel 255 255 255 51 else Pixel 0 0 0 0).
Proof.
  intros Hs.
  destruct (create_app_icon_runs size [] files [] ltac:(lia))
    as (g & Hg & Hrs & _ & _ & Hrun).
  pose proof Hg as (_ & E2 & E3 & _).
  exists {| heap := icon_heap size g (row_of size);
            calls := [] ++ icon_calls size g (row_of size);
            fs := files; stdout := [] |},
    (canvas_layer size g (row_of size)), (overlay_layer size g),
    (panel_canvas size g (row_of size)), (rect_size g), (rect_radius g).
  split; [exact Hrun|]. split; [exact E2|]. split; [exact E3|].
  split.
  { intros Hlt.
    destruct (layout_proportions size g ltac:(lia) Hg) as (_ & P2 & P3 & _). auto. }
  cbv zeta. cbn [heap calls icon_heap lookup list_lookup].
  change ([] ++ icon_calls size g (row_of size)) with (icon_calls size g (row_of size)).
  split.
  { pose proof (Z.div_mod (size - rect_size g) 2 ltac:(lia)).
    pose proof (Z.mod_pos_bound (size - rect_size g) 2 ltac:(lia)). lia. }
  split.
  { unfold icon_calls. rewrite !List.filter_app, filter_gradient_calls by reflexivity.
    reflexivity. }
  split.
  { unfold icon_calls. rewrite !List.filter_app, filter_gradient_calls by reflexivity.
    reflexivity. }
  do 3 (split; [reflexivity|]). split; [reflexivity|].
  intros x y Hx Hy. apply overlay_pixel; assumption.
Qed.

(** X2: the returned raster is the canvas under three layers, pixel by
    pixel: the panel, then the book, then the spine layer, each composited
    over what is below.  Where the canvas is opaque each composite is the
    exact rounded mean of the bands weighted by the layer's opacity
    ([mix]), and the result is opaque. *)
Theorem icon_is_three_blends (size : Z) (files : gmap string node) :
  0 < size < 2 ^ 31 ->
  exists st canvas overlay book spine icon,
    create_app_icon size (fresh files) = Ok (7%nat, st) /\
    heap st !! 0%nat = Some canvas /\ heap st !! 2%nat = Some overlay /\
    heap st !! 4%nat = Some book /\ heap st !! 5%nat = Some spine /\
    heap st !! 7%nat = Some icon /\
    forall x y, 0 <= x < size -> 0 <= y < size ->
      exists pc po pb ps,
        getpixel canvas x y = Some pc /\ getpixel overlay x y = Some po /\
        getpixel book x y = Some pb /\ getpixel spine x y = Some ps /\
        getpixel icon x y
        = Some (alpha_composite_pixel
                  (alpha_composite_pixel (alpha_composite_pixel pc po) pb) ps) /\
        (alpha pc = 255 ->
         getpixel icon x y = Some (mix_pixel (mix_pixel (mix_pixel pc po) pb) ps) /\
         alpha (mix_pixel (mix_pixel (mix_pixel pc po) pb) ps) = 255 /\
         byte_pixel (mix_pixel (mix_pixel (mix_pixel pc po) pb) ps)).
Proof.
  intros Hs.
  destruct (create_app_icon_runs size [] files [] ltac:(lia))
    as (g & Hg & _ & _ & _ & Hrun).
  eexists _, _, _, _, _, _. split; [exact Hrun|].
  cbn [heap icon_heap lookup list_lookup].
  do 5 (split; [reflexivity|]).
  intros x y Hx Hy.
  destruct (layer_pixels size g (row_of size) x y Hx Hy)
    as (pc & po & pb & ps & Hc & Ho & Hb & Hsp & _ & _ & Hf & Bc & Bo & Bb & Bs & _).
  exists pc, po, pb, ps.
  do 4 (split; [assumption|]). split; [exact Hf|].
  intros Ha.
  destruct (over_opaque pc po Bc Ha Bo) as (E1 & B1 & A1).
  destruct (over_opaque _ pb B1 A1 Bb) as (E2 & B2 & A2).
  destruct (over_opaque _ ps B2 A2 Bs) as (E3 & B3 & A3).
  rewrite Hf, E1, E2, E3. auto.
Qed.

(** X3: the alpha band of the returned raster is the mask: 255 inside the
    rounded silhouette, 0 outside, for every canvas edge above 100 (and
    below [2^31]). *)
Theorem icon_alpha_is_the_mask (size : Z) (files : gmap string node) :
  100 < size < 2 ^ 31 ->
  exists st mask icon radius,
    create_app_icon size (fresh files) = Ok (7%nat, st) /\
    heap st !! 1%nat = Some mask /\ heap st !! 7%nat = Some icon /\
    int_mul size (dec 22 100) = Ok radius /\
    forall x y, 0 <= x < size -> 0 <= y < size ->
      getvalue mask x y
      = Some (if rounded_rect_covers 0 0 size size radius x y then 255 else 0) /\
      alpha <$> getpixel icon x y = getvalue mask x y.
Proof.
  intros Hs.
  destruct (create_app_icon_runs size [] files [] ltac:(lia))
    as (g & Hg & _ & _ & _ & Hrun).
  pose proof (layout_proportions size g ltac:(lia) Hg) as (P1 & _).
  eexists _, _, _, (corner_radius g). split; [exact Hrun|].
  cbn [heap icon_heap lookup list_lookup].
  do 2 (split; [reflexivity|]). split; [apply Hg|].
  intros x y Hx Hy.
  pose proof (mask_value size g x y Hx Hy) as Hm.
  split; [exact Hm|]. rewrite Hm.
  destruct (layer_pixels size g (row_of size) x y Hx Hy)
    as (pc & po & pb & ps & Hc & Ho & Hb & Hsp & _ & _ & Hf & Bc & Bo & Bb & Bs
        & Ac & Eo & Eb & Es).
  rewrite Hf.
  destruct (rounded_rect_covers 0 0 size size (corner_radius g) x y) eqn:Hcov.
  - destruct (over_opaque pc po Bc Ac Bo) as (E1 & B1 & A1).
    destruct (over_opaque _ pb B1 A1 Bb) as (E2 & B2 & A2).
    destruct (over_opaque _ ps B2 A2 Bs) as (E3 & B3 & A3).
    rewrite E1, E2, E3. cbn [fmap option_fmap option_map]. rewrite A3. reflexivity.
  - assert (Hr : 0 <= corner_radius g) by (rewrite P1; apply Z.div_pos; lia).
    destruct (outside_silhouette size (corner_radius g) x y Hr Hx Hy Hcov) as [Hxo _].
    destruct (layers_inside_silhouette size g x y Hs Hg Hxo) as (L1 & L2 & L3 & L4).
    rewrite L1 in Eo. rewrite L4 in Es. rewrite !L3, L2 in Eb by lia. cbn [orb] in Eb.
    subst po pb ps.
    rewrite !alpha_composite_transparent by reflexivity.
    cbn [fmap option_fmap option_map]. rewrite Ac. reflexivity.
Qed.

(** X4: everything drawn after the mask stays inside the panel's box:
    at a pixel outside the square [rect_x .. rect_x + rect_size] (both
    ends included) the returned raster is the canvas as the mask left it,
    gradient colour and alpha. *)
Theorem background_outside_panel (size : Z) (files : gmap string node) :
  0 < size < 2 ^ 31 ->
  exists st canvas icon rect_size,
    create_app_icon size (fresh files) = Ok (7%nat, st) /\
    heap st !! 0%nat = Some canvas /\ heap st !! 7%nat = Some icon /\
    int_mul size (dec 55 100) = Ok rect_size /\
    let rect_x := (size - rect_size) `div` 2 in
    forall x y, 0 <= x < size -> 0 <= y < size ->
      ~ (rect_x <= x <= rect_x + rect_size /\ rect_x <= y <= rect_x + rect_size) ->
      getpixel icon x y = getpixel canvas x y.
Proof.
  intros Hs.
  destruct (create_app_icon_runs size [] files [] ltac:(lia))
    as (g & Hg & _ & _ & _ & Hrun).
  eexists _, _, _, (rect_size g). split; [exact Hrun|].
  cbn [heap icon_heap lookup list_lookup].
  do 2 (split; [reflexivity|]). split; [apply Hg|].
  cbv zeta. intros x y Hx Hy Hout.
  destruct (layer_pixels size g (row_of size) x y Hx Hy)
    as (pc & po & pb & ps & Hc & Ho & Hb & Hsp & _ & _ & Hf & _ & _ & _ & _
        & _ & Eo & Eb & Es).
  destruct (layers_inside_panel_box size g x y ltac:(lia) Hg Hout) as (L1 & L2 & L3 & L4).
  rewrite L1 in Eo. rewrite L4 in Es. rewrite !L3, L2 in Eb by lia. cbn [orb] in Eb.
  subst po pb ps. rewrite Hf, Hc.
  rewrite !alpha_composite_transparent by reflexivity. reflexivity.
Qed.

(** X5: the boxes the script computes are nested for every canvas edge:
    the panel lies in the canvas, the book cover in the panel, the axes of
    the spine stroke and of the four page strokes in the cover with the
    spine left of the pages, the ends of every stroke in the cover, and
    every corner radius fits its rectangle. *)
Theorem layout_boxes_nested (size : Z) (files : gmap string node) :
  0 < size < 2 ^ 31 ->
  exists st g,
    create_app_icon size (fresh files) = Ok (7%nat, st) /\
    calls st = icon_calls size g (row_of size) /\
    (0 <= rect_x size g /\ rect_x size g + rect_size g <= size) /\
    (rect_x size g <= book_x size g /\
     book_x size g + book_width g <= rect_x size g + rect_size g /\
     rect_x size g <= book_y size g /\
     book_y size g + book_height g <= rect_x size g + rect_size g) /\
    (book_x size g <= spine_x size g /\ spine_x size g <= pages_x size g /\
     forall i, 0 <= i < 4 ->
       pages_x size g <= pages_x size g + line_off g i <= book_x size g + book_width g) /\
    (book_y size g <= book_y size g + spine_inset g /\
     book_y size g + spine_inset g <= book_y size g + book_height g - spine_inset g /\
     book_y size g + book_height g - spine_inset g <= book_y size g + book_height g) /\
    (book_y size g <= book_y size g + page_inset g /\
     book_y size g + page_inset g <= book_y size g + book_height g - page_inset g /\
     book_y size g + book_height g - page_inset g <= book_y size g + book_height g) /\
    (0 <= corner_radius g /\ 2 * corner_radius g <= size /\
     0 <= rect_radius g /\ 2 * rect_radius g <= rect_size g /\
     0 <= book_radius g /\ 2 * book_radius g <= book_width g /\
     0 <= spine_width g /\ 0 <= page_width g).
Proof.
  intros Hs.
  destruct (create_app_icon_runs size [] files [] ltac:(lia))
    as (g & Hg & _ & _ & _ & Hrun).
  eexists _, g. split; [exact Hrun|]. cbn [calls].
  split; [reflexivity|].
  destruct (layout_nesting size g ltac:(lia) Hg)
    as (N1 & N2 & N3 & (I1 & I2 & I3 & I4) & N5 & _).
  split; [exact N1|]. split; [exact N2|]. split; [exact N3|].
  split; [lia|]. split; [lia|]. exact N5.
Qed.

End ExtraIcon.

(** * What [main] ends with *)

Lemma mkdir_or_pass_file p st c :
  fs st !! p = Some (File c) -> mkdir_or_pass p st = Err FileExistsError.
Proof.
  intros Hp. unfold mkdir_or_pass, try_except, os_mkdir. rewrite Hp.
  cbn [is_OSError]. unfold mbind, py_bind, os_path_isdir. rewrite Hp. reflexivity.
Qed.

Lemma mkdir_or_pass_parent p st e :
  fs st !! p = None -> parent_error (fs st) p = Some e -> is_OSError e = true ->
  mkdir_or_pass p st = Err e.
Proof.
  intros Hp He Ho. unfold mkdir_or_pass, try_except, os_mkdir. rewrite Hp, He, Ho.
  unfold mbind, py_bind, os_path_isdir. rewrite Hp. reflexivity.
Qed.

Lemma parent_error_file (files : gmap string node) p head tail c :
  os_path_split p = (head, tail) -> head <> EmptyString ->
  files !! head = Some (File c) -> parent_error files p = Some NotADirectoryError.
Proof.
  intros Hsp Hh Hf. unfold parent_error. rewrite Hsp. cbn [fst].
  destruct head; [congruence|]. rewrite Hf. reflexivity.
Qed.

Lemma main_error_ready files : main_error files = None -> ready files = true.
Proof.
  unfold main_error, ready.
  destruct (is_file_at files "Vellum"); [discriminate|].
  destruct (is_file_at files assets_dir); [discriminate|].
  destruct (is_file_at files output_dir); [discriminate|].
  destruct (is_dir_at files png_path); [discriminate|].
  destruct (is_dir_at files json_path); [discriminate|]. reflexivity.
Qed.

Section MainOutcome.
Context `{Rasteriser}.

(** [os.makedirs(output_dir, exist_ok=True)] with a regular file in the
    way. *)
Lemma makedirs_output_dir_blocked st e :
  dirs_nested (fs st) = true ->
  (if is_file_at (fs st) "Vellum" then Some NotADirectoryError
   else if is_file_at (fs st) assets_dir then Some NotADirectoryError
   else if is_file_at (fs st) output_dir then Some FileExistsError
   else None) = Some e ->
  os_makedirs output_dir true st = Err e.
Proof.
  intros Hn He. unfold dirs_nested, exists_at, is_dir_at in Hn.
  apply andb_prop in Hn. destruct Hn as [Hn1 Hn2].
  unfold is_file_at in He. unfold os_makedirs.
  change (S (String.length output_dir)) with (S (S (S 39%nat))).
  rewrite (makedirs_step _ output_dir assets_dir "AppIcon.appiconset")
    by (reflexivity || discriminate).
  destruct (fs st !! "Vellum") as [[|cv]|] eqn:EV.
  - (* Vellum is a directory *)
    destruct (fs st !! assets_dir) as [[|ca]|] eqn:EA.
    + destruct (fs st !! output_dir) as [[|co]|] eqn:EO; try discriminate.
      injection He as <-. apply (mkdir_or_pass_file _ _ co). exact EO.
    + injection He as <-.
      destruct (fs st !! output_dir) as [no|] eqn:EO; [discriminate|].
      apply mkdir_or_pass_parent; [exact EO| |reflexivity].
      apply (parent_error_file _ _ assets_dir "AppIcon.appiconset" ca);
        [reflexivity|discriminate|exact EA].
    + destruct (fs st !! output_dir) as [no|] eqn:EO; discriminate.
  - (* Vellum is a regular file *)
    injection He as <-.
    destruct (fs st !! assets_dir) as [na|] eqn:EA; [discriminate|].
    rewrite (makedirs_step _ assets_dir "Vellum" "Assets.xcassets")
      by (reflexivity || discriminate).
    rewrite EV.
    rewrite (mkdir_or_pass_parent assets_dir st NotADirectoryError);
      [reflexivity|exact EA| |reflexivity].
    apply (parent_error_file _ _ "Vellum" "Assets.xcassets" cv);
      [reflexivity|discriminate|exact EV].
  - (* Vellum is missing *)
    destruct (fs st !! assets_dir) as [[|ca]|] eqn:EA; try discriminate.
    destruct (fs st !! output_dir) as [no|] eqn:EO; discriminate.
Qed.

(** X6: what [main] ends with, on a file system whose directories are laid
    out as on a disk.  A regular file at [Vellum] or at the assets
    directory makes [os.makedirs] raise [NotADirectoryError], one at the
    output directory [FileExistsError]; a directory at AppIcon.png, or
    else at Contents.json, makes the write raise [IsADirectoryError];
    nothing of this is caught.  Otherwise [main] returns, with the raster
    and the manifest written and its five lines printed. *)
Theorem main_outcome (files : gmap string node) :
  dirs_nested files = true ->
  main (fresh files)
  = match main_error files with
    | Some e => Err e
    | None => Ok (tt, {| heap := icon_heap 1024 layout_1024 (row_of 1024);
                         calls := main_calls files;
                         fs := main_fs files;
                         stdout := main_stdout |})
    end.
Proof.
  intros Hn.
  destruct (main_error files) as [e|] eqn:He;
    [|apply main_ok, main_error_ready; exact He].
  unfold main, fresh.
  erewrite bind_ok by apply print_ok. cbn [heap calls fs stdout app].
  erewrite bind_ok by apply create_app_icon_1024. cbn [app].
  unfold main_error in He.
  destruct (is_file_at files "Vellum") eqn:FV;
    [|destruct (is_file_at files assets_dir) eqn:FA;
      [|destruct (is_file_at files output_dir) eqn:FO]].
  1-3: apply bind_err; apply makedirs_output_dir_blocked; cbn [fs];
    [exact Hn | rewrite FV; try rewrite FA; try rewrite FO; exact He].
  assert (HV : ~ is_file_at files "Vellum") by (rewrite FV; auto).
  assert (HA : ~ is_file_at files assets_dir) by (rewrite FA; auto).
  assert (HO : ~ is_file_at files output_dir) by (rewrite FO; auto).
  erewrite bind_ok by (apply makedirs_output_dir; assumption).
  cbn [heap calls fs stdout]. cbv zeta.
  change (os_path_join output_dir "AppIcon.png") with png_path.
  change (os_path_join output_dir "Contents.json") with json_path.
  destruct (is_dir_at files png_path) eqn:DP.
  { injection He as <-. apply bind_err.
    unfold Image_save. erewrite bind_ok by reflexivity.
    change (String.eqb "PNG" "PNG") with true. cbv iota.
    unfold write_file. cbn [fs]. rewrite ensure_dirs_other by discriminate.
    unfold is_dir_at in DP. destruct (files !! png_path) as [[|c]|]; try discriminate.
    reflexivity. }
  erewrite bind_ok; cycle 1.
  { unfold Image_save. erewrite bind_ok by reflexivity.
    change (String.eqb "PNG" "PNG") with true. cbv iota.
    apply write_file_ok; cbn [fs].
    - unfold is_dir_at. rewrite ensure_dirs_other by discriminate.
      fold (is_dir_at files png_path). rewrite DP. auto.
    - apply (parent_error_dir _ _ output_dir "AppIcon.png"); [reflexivity|].
      apply ensure_dirs_output_dir. exact HO. }
  cbn [heap calls fs stdout].
  erewrite bind_ok by apply print_ok. cbn [heap calls fs stdout app].
  destruct (is_dir_at files json_path) eqn:DJ; [|discriminate].
  injection He as <-. apply bind_err.
  unfold open_write, write_file. cbn [fs].
  rewrite lookup_insert_ne by discriminate.
  rewrite ensure_dirs_other by discriminate.
  unfold is_dir_at in DJ. destruct (files !! json_path) as [[|c]|]; try discriminate.
  reflexivity.
Qed.

(** X7: [main] touches five paths and no other: every other entry of the
    file system is as it was.  It removes nothing, and a directory stays a
    directory. *)
Theorem main_leaves_the_rest (files : gmap string node) :
  ready files = true ->
  exists st,
    main (fresh files) = Ok (tt, st) /\
    (forall p, p <> "Vellum" -> p <> assets_dir -> p <> output_dir ->
               p <> png_path -> p <> json_path -> fs st !! p = files !! p) /\
    (forall p, is_Some (files !! p) -> is_Some (fs st !! p)) /\
    (forall p, files !! p = Some Dir -> fs st !! p = Some Dir).
Proof.
  intros Hr. eexists. split; [apply main_ok; exact Hr|]. cbn [fs].
  pose proof (ready_spec files Hr) as (HV & HA & HO & HP & HJ).
  assert (Hdir : forall p, files !! p = Some Dir -> main_fs files !! p = Some Dir).
  { intros p Hp.
    destruct (String.eqb_spec p json_path) as [->|N1];
      [exfalso; apply HJ; unfold is_dir_at; rewrite Hp; exact I|].
    destruct (String.eqb_spec p png_path) as [->|N2];
      [exfalso; apply HP; unfold is_dir_at; rewrite Hp; exact I|].
    rewrite main_fs_other by assumption.
    unfold ensure_dirs, ensure_dir.
    repeat match goal with
           | |- context [match ?m !! ?k with _ => _ end] => destruct (m !! k) eqn:?
           end;
      repeat match goal with
             | |- <[?k := Dir]> _ !! p = Some Dir =>
                 destruct (String.eqb_spec k p) as [->|?];
                 [apply lookup_insert_eq|rewrite lookup_insert_ne by assumption]
             end; assumption. }
  split.
  { intros p N1 N2 N3 N4 N5. rewrite main_fs_other by assumption.
    apply ensure_dirs_other; assumption. }
  split; [|exact Hdir].
  intros p [n Hp].
  destruct (String.eqb_spec p json_path) as [->|N1];
    [rewrite main_fs_json; eauto|].
  destruct (String.eqb_spec p png_path) as [->|N2];
    [rewrite main_fs_png; eauto|].
  destruct n as [|c]; [rewrite (Hdir p Hp); eauto|].
  rewrite main_fs_other by assumption.
  unfold ensure_dirs, ensure_dir.
  repeat match goal with
         | |- context [match ?m !! ?k with _ => _ end] => destruct (m !! k) eqn:?
         end;
    repeat match goal with
           | |- is_Some (<[?k := Dir]> _ !! p) =>
               destruct (String.eqb_spec k p) as [->|?];
               [rewrite lookup_insert_eq; eauto|rewrite lookup_insert_ne by assumption]
           end; eauto.
Qed.

End MainOutcome.

(** * Floats: rounding to 53 bits, whatever the sign and the location *)

Lemma round_nearest_even_range m l : m <= round_nearest_even m l <= m + 1.
Proof. unfold round_nearest_even. destruct l as [|[]]; try destruct (Z.even m); lia. Qed.

(** The first shift of a rounding: the mantissa is cut to 53 bits. *)
Lemma shr_fexp_m P e l :
  0 < P -> 53 <= Zdigits2 P -> -1074 <= Zdigits2 P + e - 53 ->
  exists mrs,
    shr_fexp Float.prec Float.emax P e l = (mrs, e + (Zdigits2 P - 53)) /\
    shr_m mrs = P / 2 ^ (Zdigits2 P - 53).
Proof.
  intros HP Hd He. unfold shr_fexp. rewrite fexp_eq.
  replace (Z.max (Zdigits2 P + e - 53) (-1074) - e) with (Zdigits2 P - 53) by lia.
  unfold shr. destruct (Zdigits2 P - 53) as [|k|k] eqn:Hk; try lia.
  - eexists. split; [f_equal; lia|]. rewrite shr_record_of_loc_m.
    change (2 ^ 0) with 1. rewrite Z.div_1_r. reflexivity.
  - eexists. split; [reflexivity|].
    rewrite iter_shr_1_m by (rewrite shr_record_of_loc_m; lia).
    rewrite shr_record_of_loc_m. reflexivity.
Qed.

(** The second shift of a rounding, on a mantissa of 53 bits or on [2^53]. *)
Lemma shr_fexp_carry mr e1 :
  2 ^ 52 <= mr <= 2 ^ 53 -> -1074 <= e1 ->
  exists mrs m2 e2,
    shr_fexp Float.prec Float.emax mr e1 loc_Exact = (mrs, e2) /\
    shr_m mrs = Zpos m2 /\ e1 <= e2 <= e1 + 1 /\
    mr = Zpos m2 * 2 ^ (e2 - e1) /\ 2 ^ 52 <= Zpos m2 < 2 ^ 53.
Proof.
  intros Hmr He1.
  destruct (Z_lt_le_dec mr (2 ^ 53)) as [Hlt|Hge].
  - assert (Hdm : Zdigits2 mr = 53)
      by (apply Zdigits2_eq; [change (53 - 1) with 52|]; lia).
    unfold shr_fexp. rewrite fexp_eq, Hdm.
    replace (Z.max (53 + e1 - 53) (-1074) - e1) with 0 by lia.
    cbn [shr shr_record_of_loc].
    destruct mr as [|m2|m2] eqn:Emr; try lia.
    eexists _, m2, e1. split; [reflexivity|]. cbn [shr_m].
    replace (e1 - e1) with 0 by lia. repeat split; lia.
  - assert (Emr : mr = 2 ^ 53) by lia. rewrite Emr.
    unfold shr_fexp. rewrite fexp_eq.
    change (Zdigits2 (2 ^ 53)) with 54.
    replace (Z.max (54 + e1 - 53) (-1074) - e1) with 1 by lia.
    cbn [shr shr_record_of_loc SpecFloat.iter_pos].
    eexists _, (2 ^ 52)%positive, (e1 + 1). split; [reflexivity|].
    replace (e1 + 1 - e1) with 1 by lia.
    split; [reflexivity|]. split; [lia|]. split; [reflexivity|].
    split; [reflexivity|reflexivity].
Qed.

(** Rounding to 53 bits, whatever the sign and the location: the mantissa
    kept is the quotient by [2^k] or one more, on 53 bits; from an exact
    mantissa that [2^k] divides it is the quotient. *)
Lemma binary_round_aux_shape s P e l :
  0 < P -> 53 <= Zdigits2 P -> -1074 <= Zdigits2 P + e - 53 -> Zdigits2 P + e <= 1023 ->
  exists m2 e2 mr,
    binary_round_aux Float.prec Float.emax s P e l = S754_finite s m2 e2 /\
    P / 2 ^ (Zdigits2 P - 53) <= mr <= P / 2 ^ (Zdigits2 P - 53) + 1 /\
    e + (Zdigits2 P - 53) <= e2 <= e + (Zdigits2 P - 53) + 1 /\
    mr = Zpos m2 * 2 ^ (e2 - (e + (Zdigits2 P - 53))) /\
    2 ^ 52 <= Zpos m2 < 2 ^ 53 /\
    (l = loc_Exact -> P mod 2 ^ (Zdigits2 P - 53) = 0 ->
     mr = P / 2 ^ (Zdigits2 P - 53)).
Proof.
  intros HP Hd He Ho. unfold binary_round_aux.
  destruct (shr_fexp_m P e l HP Hd He) as (mrs & Hsh & Hm).
  rewrite Hsh.
  set (k := Zdigits2 P - 53) in *.
  assert (Hk : 0 <= k) by (subst k; lia).
  assert (Hp : 0 < 2 ^ k) by (apply Z.pow_pos_nonneg; lia).
  pose proof (Zdigits2_ge_pow P HP) as Hlo.
  pose proof (Zdigits2_lt_pow P ltac:(lia)) as Hhi.
  assert (E52 : 2 ^ (Zdigits2 P - 1) = 2 ^ 52 * 2 ^ k).
  { rewrite <- Z.pow_add_r by lia. f_equal. subst k. lia. }
  assert (E53 : 2 ^ Zdigits2 P = 2 ^ 53 * 2 ^ k).
  { rewrite <- Z.pow_add_r by lia. f_equal. subst k. lia. }
  assert (Hm1 : 2 ^ 52 <= P / 2 ^ k < 2 ^ 53).
  { split.
    - apply Z.div_le_lower_bound; lia.
    - apply Z.div_lt_upper_bound; lia. }
  pose proof (round_nearest_even_range (shr_m mrs) (loc_of_shr_record mrs)) as Hr.
  set (mr := round_nearest_even (shr_m mrs) (loc_of_shr_record mrs)) in *.
  rewrite Hm in Hr.
  destruct (shr_fexp_carry mr (e + k) ltac:(lia) ltac:(lia))
    as (mrs2 & m2 & e2 & Hsh2 & Hm2 & He2 & Hv & Hr2).
  rewrite Hsh2, Hm2.
  change (Float.emax - Float.prec) with 971.
  destruct (Z.leb_spec e2 971); [|lia].
  exists m2, e2, mr.
  split; [reflexivity|]. split; [exact Hr|]. split; [exact He2|].
  split; [exact Hv|]. split; [exact Hr2|].
  intros -> HR.
  destruct (shr_fexp_inv P e HP Hd He) as (mrs' & Hsh' & Hi).
  fold k in Hsh', Hi. rewrite Hsh in Hsh'. injection Hsh' as <-.
  destruct (shr_inv_div P k mrs Hk Hi) as [_ Hl].
  destruct mrs as [m1 r0 s0]. cbn [shr_m shr_r shr_s] in *.
  destruct (round_nearest_even_loc m1 _ _ _ _ Hl (Z.mod_pos_bound P (2 ^ k) Hp))
    as (_ & _ & R3).
  subst mr. rewrite R3 by lia. exact Hm.
Qed.

(** * Floats: the quotient [y / size] *)

Lemma pow2_pos a : 0 <= a -> 0 < 2 ^ a.
Proof. intros. apply Z.pow_pos_nonneg; lia. Qed.

Lemma pow2_lt_inv a b : 0 <= b -> 2 ^ a < 2 ^ b -> a < b.
Proof.
  intros Hb Hlt. destruct (Z_lt_le_dec a b); [assumption|]. exfalso.
  assert (2 ^ b <= 2 ^ a) by (apply Z.pow_le_mono_r; lia). lia.
Qed.

Lemma Zdigits2_ge m d : 0 < d -> 2 ^ (d - 1) <= m -> d <= Zdigits2 m.
Proof.
  intros Hd Hm.
  assert (0 < 2 ^ (d - 1)) by (apply pow2_pos; lia).
  pose proof (Zdigits2_lt_pow m ltac:(lia)) as Hlt.
  pose proof (Zdigits2_nonneg m).
  assert (d - 1 < Zdigits2 m) by (apply pow2_lt_inv; lia). lia.
Qed.

Lemma div_eucl_eq a b : Z.div_eucl a b = (a / b, a mod b).
Proof. unfold Z.div, Z.modulo. destruct (Z.div_eucl a b). reflexivity. Qed.

(** The place of a remainder [k] among [n] steps: exact, or below, at or
    above the middle. *)
Lemma new_location_spec n k :
  0 < n -> 0 <= k < n ->
  new_location n k = if k =? 0 then loc_Exact else loc_Inexact (2 * k ?= n).
Proof.
  intros Hn Hk. unfold new_location, new_location_even, new_location_odd.
  destruct (Z.even n) eqn:Hev; [reflexivity|].
  destruct (Z.eqb_spec k 0); [reflexivity|]. f_equal.
  assert (Hodd : Z.odd n = true) by (rewrite <- Z.negb_even, Hev; reflexivity).
  apply Z.odd_spec in Hodd as [j Hj].
  destruct (Z.compare_spec (2 * k + 1) n), (Z.compare_spec (2 * k) n);
    try reflexivity; lia.
Qed.

Lemma new_location_scale c n k :
  0 < c -> 0 < n -> 0 <= k < n -> new_location (c * n) (c * k) = new_location n k.
Proof.
  intros Hc Hn Hk.
  rewrite !new_location_spec by nia.
  destruct (Z.eqb_spec (c * k) 0), (Z.eqb_spec k 0); try nia; [reflexivity|].
  f_equal.
  destruct (Z.compare_spec (2 * (c * k)) (c * n)), (Z.compare_spec (2 * k) n);
    try reflexivity; nia.
Qed.

(** One more bit of the dividend: halving the quotient keeps the place of
    the remainder. *)
Lemma shr_1_div A B :
  0 <= A -> 0 < B ->
  shr_1 (shr_record_of_loc ((2 * A) / B) (new_location B ((2 * A) mod B)))
  = shr_record_of_loc (A / B) (new_location B (A mod B)).
Proof.
  intros HA HB.
  pose proof (Z.div_mod A B ltac:(lia)) as Hdm.
  pose proof (Z.mod_pos_bound A B HB) as Hr.
  assert (Hq1 : 0 <= A / B) by (apply Z.div_pos; lia).
  set (q1 := A / B) in *. set (r1 := A mod B) in *.
  rewrite (new_location_spec B r1) by lia.
  destruct (Z_lt_le_dec (2 * r1) B) as [Hlt|Hge].
  - assert (EQ : (2 * A) / B = 2 * q1)
      by (symmetry; apply (Z.div_unique _ _ _ (2 * r1)); lia).
    assert (ER : (2 * A) mod B = 2 * r1)
      by (symmetry; apply (Z.mod_unique _ _ (2 * q1)); lia).
    rewrite EQ, ER, new_location_spec by lia.
    destruct (Z.eqb_spec r1 0) as [E0|N0].
    + rewrite E0. cbn [Z.mul Z.eqb]. destruct q1 as [|p|p]; try lia; reflexivity.
    + destruct (Z.eqb_spec (2 * r1) 0); [lia|].
      replace (2 * r1 ?= B) with Lt by (symmetry; apply Z.compare_lt_iff; lia).
      destruct (2 * (2 * r1) ?= B); destruct q1 as [|p|p]; try lia; reflexivity.
  - assert (EQ : (2 * A) / B = 2 * q1 + 1)
      by (symmetry; apply (Z.div_unique _ _ _ (2 * r1 - B)); lia).
    assert (ER : (2 * A) mod B = 2 * r1 - B)
      by (symmetry; apply (Z.mod_unique _ _ (2 * q1 + 1)); lia).
    rewrite EQ, ER, new_location_spec by lia.
    destruct (Z.eqb_spec r1 0); [lia|].
    destruct (Z.eqb_spec (2 * r1 - B) 0) as [E0|N0].
    + replace (2 * r1 ?= B) with Eq by (symmetry; apply Z.compare_eq_iff; lia).
      destruct q1 as [|p|p]; try lia; reflexivity.
    + replace (2 * r1 ?= B) with Gt by (symmetry; apply Z.compare_gt_iff; lia).
      destruct (2 * (2 * r1 - B) ?= B); destruct q1 as [|p|p]; try lia; reflexivity.
Qed.

Lemma shr_fexp_53 q e l :
  Zdigits2 q = 53 -> -1074 <= e ->
  shr_fexp Float.prec Float.emax q e l = (shr_record_of_loc q l, e).
Proof.
  intros Hd He. unfold shr_fexp. rewrite fexp_eq, Hd.
  replace (Z.max (53 + e - 53) (-1074) - e) with 0 by lia. reflexivity.
Qed.

Lemma shr_fexp_54 q e l :
  Zdigits2 q = 54 -> -1074 <= e + 1 ->
  shr_fexp Float.prec Float.emax q e l = (shr_1 (shr_record_of_loc q l), e + 1).
Proof.
  intros Hd He. unfold shr_fexp. rewrite fexp_eq, Hd.
  replace (Z.max (54 + e - 53) (-1074) - e) with 1 by lia. reflexivity.
Qed.

(** The exponent of a quotient is fixed by the quotient. *)
Lemma bracket_unique y size E E' :
  0 < size -> 0 <= E -> 0 <= E' ->
  2 ^ 52 * size <= y * 2 ^ E < 2 ^ 53 * size ->
  2 ^ 52 * size <= y * 2 ^ E' < 2 ^ 53 * size ->
  E = E'.
Proof.
  assert (Hone : forall a b, 0 < size -> 0 <= a -> a < b ->
            2 ^ 52 * size <= y * 2 ^ a -> y * 2 ^ b < 2 ^ 53 * size -> False).
  { intros a b Hs Ha Hab H1 H2.
    assert (Eab : 2 ^ b = 2 ^ a * 2 ^ (b - a))
      by (rewrite <- Z.pow_add_r by lia; f_equal; lia).
    assert (2 <= 2 ^ (b - a)) by (apply (Z.pow_le_mono_r 2 1 (b - a)); lia).
    assert (0 < 2 ^ a) by (apply pow2_pos; lia).
    assert (0 < y) by nia.
    rewrite Eab in H2. change (2 ^ 53) with (2 * 2 ^ 52) in H2.
    assert (y * 2 ^ a * 2 <= y * 2 ^ a * 2 ^ (b - a)) by nia. nia. }
  intros Hs HE HE' [B1 B2] [B1' B2'].
  destruct (Z.lt_trichotomy E E') as [L|[L|L]]; [|exact L|]; exfalso.
  - exact (Hone E E' Hs HE L B1 B2').
  - exact (Hone E' E Hs HE' L B1' B2).
Qed.

(** [y / size] is the rounding of the scaled quotient that has 53 bits. *)
Lemma true_div_canon y size :
  0 < y < size -> size < 2 ^ 1020 ->
  exists E,
    0 <= E /\ 2 ^ 52 * size <= y * 2 ^ E < 2 ^ 53 * size /\
    Float.true_div y size
    = match binary_round_aux Float.prec Float.emax false ((y * 2 ^ E) / size) (- E)
              (new_location size ((y * 2 ^ E) mod size)) with
      | S754_infinity _ | S754_nan => Err OverflowError
      | f => Ok f
      end.
Proof.
  intros Hy Hs. unfold Float.true_div.
  destruct (Z.eqb_spec size 0); [lia|].
  destruct (Z.eqb_spec y 0); [lia|].
  replace (size <? 0) with false by (symmetry; apply Z.ltb_ge; lia).
  replace (y <? 0) with false by (symmetry; apply Z.ltb_ge; lia).
  rewrite !Z.abs_eq by lia.
  unfold SFdiv_core_binary. rewrite fexp_eq.
  set (d1 := Zdigits2 y). set (d2 := Zdigits2 size).
  assert (Hd1 : 1 <= d1) by (subst d1; destruct y; simpl; lia).
  pose proof (Zdigits2_lt_pow size ltac:(lia)) as Hs2. fold d2 in Hs2.
  pose proof (Zdigits2_ge_pow size ltac:(lia)) as Hs1. fold d2 in Hs1.
  pose proof (Zdigits2_lt_pow y ltac:(lia)) as Hy2. fold d1 in Hy2.
  pose proof (Zdigits2_ge_pow y ltac:(lia)) as Hy1. fold d1 in Hy1.
  assert (Hd2 : d2 <= 1020) by (apply Zdigits2_le; lia).
  assert (Hd12 : d1 <= d2).
  { pose proof (Zdigits2_nonneg size). apply Zdigits2_le; lia. }
  replace (Z.min (Z.max (d1 + 0 - (d2 + 0) - 53) (-1074)) (0 - 0))
    with (d1 - d2 - 53) by lia.
  replace (0 - 0 - (d1 - d2 - 53)) with (53 + d2 - d1) by lia.
  destruct (53 + d2 - d1) as [|sp|sp] eqn:Hsp; try lia.
  rewrite Z.shiftl_mul_pow2 by lia.
  assert (HS : 2 ^ Zpos sp * 2 ^ (d1 - 1) = 2 ^ 52 * 2 ^ d2).
  { rewrite <- !Z.pow_add_r by lia. f_equal. lia. }
  assert (HS' : 2 ^ Zpos sp * 2 ^ d1 = 2 ^ 54 * 2 ^ (d2 - 1)).
  { rewrite <- !Z.pow_add_r by lia. f_equal. lia. }
  assert (HSp : 0 < 2 ^ Zpos sp) by (apply pow2_pos; lia).
  assert (HS2 : 2 ^ Zpos sp = 2 * 2 ^ (Zpos sp - 1)).
  { change 2 with (2 ^ 1) at 2. rewrite <- Z.pow_add_r by lia. f_equal. lia. }
  rewrite div_eucl_eq.
  pose proof (Z.div_mod (y * 2 ^ Zpos sp) size ltac:(lia)) as Hq.
  pose proof (Z.mod_pos_bound (y * 2 ^ Zpos sp) size ltac:(lia)) as Hr.
  replace (d1 - d2 - 53) with (- Zpos sp) by lia.
  set (q := (y * 2 ^ Zpos sp) / size) in *.
  set (r := (y * 2 ^ Zpos sp) mod size) in *.
  assert (Hq0 : 2 ^ 52 <= q).
  { destruct (Z_lt_le_dec q (2 ^ 52)); [|assumption]. exfalso.
    assert (size * q + r < size * 2 ^ 52) by nia.
    assert (2 ^ 52 * 2 ^ d2 <= y * 2 ^ Zpos sp)
      by (rewrite <- HS, Z.mul_comm; apply Z.mul_le_mono_nonneg_r; lia).
    nia. }
  assert (Hq1 : q < 2 ^ 54).
  { destruct (Z_lt_le_dec q (2 ^ 54)); [assumption|]. exfalso.
    assert (size * 2 ^ 54 <= size * q) by nia.
    assert (y * 2 ^ Zpos sp < 2 ^ 54 * 2 ^ (d2 - 1))
      by (rewrite <- HS', (Z.mul_comm y); apply Z.mul_lt_mono_pos_l; lia).
    nia. }
  destruct (Z_lt_le_dec q (2 ^ 53)) as [H53|H53].
  - (* the quotient has 53 bits *)
    exists (Zpos sp). split; [lia|]. split; [|reflexivity].
    fold q in Hq. nia.
  - (* 54 bits: one bit too many *)
    exists (Zpos sp - 1). split; [lia|].
    assert (Hdq : Zdigits2 q = 54) by (apply Zdigits2_eq; [split; assumption|lia]).
    set (A := y * 2 ^ (Zpos sp - 1)).
    assert (EA : y * 2 ^ Zpos sp = 2 * A) by (subst A; rewrite HS2; ring).
    assert (HA : 2 ^ 52 * size <= A < 2 ^ 53 * size).
    { change (2 ^ 54) with (2 * 2 ^ 53) in Hq1. change (2 ^ 53) with (2 * 2 ^ 52) in H53.
      rewrite EA in Hq. nia. }
    split; [exact HA|].
    assert (HqA : 2 ^ 52 <= A / size < 2 ^ 53).
    { split; [apply Z.div_le_lower_bound; lia|apply Z.div_lt_upper_bound; lia]. }
    assert (HdA : Zdigits2 (A / size) = 53) by (apply Zdigits2_eq; [exact HqA|lia]).
    unfold binary_round_aux.
    rewrite (shr_fexp_54 q) by (assumption || lia).
    rewrite (shr_fexp_53 (A / size)) by (assumption || lia).
    subst q r. rewrite EA, shr_1_div by (subst A; nia).
    replace (- Zpos sp + 1) with (- (Zpos sp - 1)) by lia. reflexivity.
Qed.

(** The quotient of two integers depends on their ratio only. *)
Lemma true_div_scale c a b :
  0 < c -> 0 < a < b -> c * b < 2 ^ 1020 ->
  Float.true_div (c * a) (c * b) = Float.true_div a b.
Proof.
  intros Hc Ha Hb.
  destruct (true_div_canon a b Ha ltac:(nia)) as (E & HE & HB & ->).
  destruct (true_div_canon (c * a) (c * b) ltac:(nia) Hb) as (E' & HE' & HB' & ->).
  assert (E' = E).
  { apply (bracket_unique (c * a) (c * b)); try assumption; nia. }
  subst E'.
  assert (0 < 2 ^ E) by (apply pow2_pos; lia).
  rewrite <- !Z.mul_assoc, Z.div_mul_cancel_l, Z.mul_mod_distr_l by lia.
  rewrite new_location_scale; [reflexivity|lia|lia|].
  apply Z.mod_pos_bound. lia.
Qed.

(** [y / size] for a row below the last: a 53-bit float within one unit
    in the last place of the quotient, at most 1. *)
Lemma true_div_close y size :
  0 < y < size -> size < 2 ^ 1020 ->
  exists m e,
    Float.true_div y size = Ok (S754_finite false m e) /\
    2 ^ 52 <= Zpos m < 2 ^ 53 /\ -1073 <= e <= -52 /\ Zpos m <= 2 ^ (- e) /\
    - size <= Zpos m * size - y * 2 ^ (- e) <= size.
Proof.
  intros Hy Hs.
  destruct (true_div_canon y size Hy Hs) as (E & HE & HB & ->).
  assert (HEp : 0 < 2 ^ E) by (apply pow2_pos; lia).
  pose proof (Z.div_mod (y * 2 ^ E) size ltac:(lia)) as Hq.
  pose proof (Z.mod_pos_bound (y * 2 ^ E) size ltac:(lia)) as Hr.
  assert (Hq1 : 2 ^ 52 <= (y * 2 ^ E) / size < 2 ^ 53).
  { split; [apply Z.div_le_lower_bound; lia|apply Z.div_lt_upper_bound; lia]. }
  assert (Hdq : Zdigits2 ((y * 2 ^ E) / size) = 53) by (apply Zdigits2_eq; [exact Hq1|lia]).
  (* the exponent: [y < size < 2^1020] *)
  assert (HE1 : E <= 1072).
  { destruct (Z_le_gt_dec E 1072); [assumption|]. exfalso.
    assert (2 ^ 1073 <= 2 ^ E) by (apply Z.pow_le_mono_r; lia).
    change (2 ^ 1073) with (2 ^ 53 * 2 ^ 1020) in H.
    assert (2 ^ 53 * size < 2 ^ 53 * 2 ^ 1020) by (apply Z.mul_lt_mono_pos_l; lia).
    assert (1 * 2 ^ E <= y * 2 ^ E) by (apply Z.mul_le_mono_nonneg_r; lia).
    lia. }
  assert (HE0 : 53 <= E).
  { destruct (Z_le_gt_dec 53 E); [assumption|]. exfalso.
    assert (2 ^ E <= 2 ^ 52) by (apply Z.pow_le_mono_r; lia).
    assert (y * 2 ^ E <= y * 2 ^ 52) by (apply Z.mul_le_mono_nonneg_l; lia).
    assert (y * 2 ^ 52 < size * 2 ^ 52) by (apply Z.mul_lt_mono_pos_r; lia).
    lia. }
  set (q := (y * 2 ^ E) / size) in *. set (r := (y * 2 ^ E) mod size) in *.
  destruct (binary_round_aux_shape false q (- E) (new_location size r)
              ltac:(lia) ltac:(lia) ltac:(lia) ltac:(lia))
    as (m2 & e2 & mr & -> & Hmr & He2 & Hv & Hm2 & _).
  rewrite Hdq in *. replace (53 - 53) with 0 in * by lia.
  change (2 ^ 0) with 1 in Hmr. rewrite Z.div_1_r in Hmr.
  exists m2, e2. split; [reflexivity|]. split; [exact Hm2|].
  set (c := e2 - (- E + 0)) in *.
  assert (Hc : 0 <= c <= 1) by (subst c; lia).
  assert (Hcp : 0 < 2 ^ c) by (apply pow2_pos; lia).
  assert (Hsplit : 2 ^ E = 2 ^ (- e2) * 2 ^ c).
  { rewrite <- Z.pow_add_r by lia. f_equal. subst c. lia. }
  assert (He2p : 0 < 2 ^ (- e2)) by (apply pow2_pos; lia).
  set (W := 2 ^ (- e2)) in *. set (C := 2 ^ c) in *. set (M := Zpos m2) in *.
  assert (HC : 1 <= C <= 2).
  { subst C. split; [lia|]. change 2 with (2 ^ 1) at 2. apply Z.pow_le_mono_r; lia. }
  rewrite Hsplit in Hq, HB.
  assert (Hcl : - (size * C) <= (M * size - y * W) * C <= size * C).
  { replace ((M * size - y * W) * C) with (size * mr - y * (W * C)) by (rewrite Hv; ring).
    rewrite Hq.
    assert (size * q <= size * mr <= size * q + size) by nia.
    nia. }
  assert (HqW : q < W * C).
  { apply (Z.mul_lt_mono_pos_l size); [lia|].
    assert (y * (W * C) < size * (W * C)) by (apply Z.mul_lt_mono_pos_r; lia).
    lia. }
  assert (HMW : M <= W).
  { apply (Z.mul_le_mono_pos_r _ _ C); [lia|]. rewrite <- Hv. lia. }
  split; [|split].
  - split; [lia|].
    assert (52 < - e2 + 1); [|lia]. apply pow2_lt_inv; [lia|].
    rewrite Z.pow_add_r by lia. change (2 ^ 1) with 2. fold W. lia.
  - exact HMW.
  - destruct Hcl as [L U]. split.
    + assert (L' : - size * C <= (M * size - y * W) * C) by lia.
      apply Z.mul_le_mono_pos_r in L'; lia.
    + apply Z.mul_le_mono_pos_r in U; lia.
Qed.


Lemma true_div_zero size : 0 < size -> Float.true_div 0 size = Ok (S754_zero false).
Proof.
  intros Hs. unfold Float.true_div.
  destruct (Z.eqb_spec size 0); [lia|].
  replace (size <? 0) with false by (symmetry; apply Z.ltb_ge; lia).
  reflexivity.
Qed.

Lemma true_div_unit y size :
  0 <= y < size -> size < 2 ^ 1020 ->
  exists f, Float.true_div y size = Ok f /\ unit_float f.
Proof.
  intros Hy Hs. destruct (Z.eq_dec y 0) as [->|Hy0].
  - rewrite true_div_zero by lia. eexists. split; [reflexivity|exact I].
  - destruct (true_div_close y size ltac:(lia) Hs) as (m & e & -> & Hm & He & Hle & _).
    eexists. split; [reflexivity|]. cbn [unit_float]. auto.
Qed.

(** [(bottom - top) * ratio] for the three channels, whose difference is
    [-38]: the product lies between [-38] and 0, within 64 units in the
    last place of the ratio. *)
Lemma mul_neg38 m e :
  2 ^ 52 <= Zpos m < 2 ^ 53 -> -1073 <= e <= -52 -> Zpos m <= 2 ^ (- e) ->
  exists m2 e2,
    Float.mul_int (-38) (S754_finite false m e) = Ok (S754_finite true m2 e2) /\
    2 ^ 52 <= Zpos m2 < 2 ^ 53 /\ -1130 <= e2 <= -47 /\ Zpos m2 <= 38 * 2 ^ (- e2) /\
    e <= e2 /\ -64 <= Zpos m2 * 2 ^ (e2 - e) - 38 * Zpos m <= 64.
Proof.
  intros Hm He Hle. unfold Float.mul_int.
  change (Float.of_int (-38)) with (Ok (S754_finite true 5348024557502464 (-47))).
  cbn [mbind result_bind SFmul xorb].
  rewrite Pos2Z.inj_mul.
  set (M := Zpos m) in *.
  set (P := 5348024557502464 * M).
  assert (HP1 : 2 ^ 104 <= P)
    by (subst P; change (2 ^ 104) with (2 ^ 52 * 2 ^ 52);
        change (2 ^ 52) with 4503599627370496 in *; lia).
  assert (HP2 : P < 2 ^ 106)
    by (subst P; change (2 ^ 106) with (2 ^ 53 * 2 ^ 53);
        change (2 ^ 53) with 9007199254740992 in *; lia).
  assert (HdP1 : 105 <= Zdigits2 P) by (apply Zdigits2_ge; [lia|exact HP1]).
  assert (HdP2 : Zdigits2 P <= 106) by (apply Zdigits2_le; lia).
  destruct (binary_round_aux_shape true P (-47 + e) loc_Exact
              ltac:(lia) ltac:(lia) ltac:(lia) ltac:(lia))
    as (m2 & e2 & mr & -> & Hmr & He2 & Hv & Hm2 & Hex).
  exists m2, e2. split; [reflexivity|]. split; [exact Hm2|].
  set (k := Zdigits2 P - 53) in *.
  set (t := 47 - e - k).
  assert (Ht : 0 <= t) by (subst t k; lia).
  assert (Hk : 52 <= k <= 53) by (subst k; lia).
  assert (Hkp : 0 < 2 ^ k) by (apply pow2_pos; lia).
  assert (Htp : 0 < 2 ^ t) by (apply pow2_pos; lia).
  assert (Hkt : 2 ^ 47 * 2 ^ (- e) = 2 ^ t * 2 ^ k).
  { rewrite <- !Z.pow_add_r by lia. f_equal. subst t. lia. }
  assert (HPB : P <= 38 * 2 ^ t * 2 ^ k).
  { rewrite <- Z.mul_assoc, <- Hkt. subst P.
    change 5348024557502464 with (38 * 2 ^ 47).
    rewrite <- !Z.mul_assoc. apply Z.mul_le_mono_nonneg_l; [lia|].
    apply Z.mul_le_mono_nonneg_l; [lia|exact Hle]. }
  assert (HmrB : mr <= 38 * 2 ^ t).
  { destruct (Z.eq_dec (P mod 2 ^ k) 0) as [E0|Ne].
    - rewrite (Hex eq_refl E0). apply Z.div_le_upper_bound; lia.
    - assert (P / 2 ^ k < 38 * 2 ^ t); [|lia].
      apply Z.div_lt_upper_bound; [lia|].
      destruct (Z.eq_dec P (2 ^ k * (38 * 2 ^ t))) as [EP|NP]; [|lia].
      exfalso. apply Ne. rewrite EP, Z.mul_comm. apply Z.mod_mul. lia. }
  set (c := e2 - (-47 + e + k)) in *.
  assert (Hc : 0 <= c <= 1) by (subst c; lia).
  assert (Hcp : 0 < 2 ^ c) by (apply pow2_pos; lia).
  assert (Ee2 : - e2 = t - c) by (subst c t; lia).
  assert (Htc : 47 <= t - c).
  { assert (52 + c < 6 + t); [|lia]. apply pow2_lt_inv; [lia|].
    rewrite !Z.pow_add_r by lia. change (2 ^ 6) with 64.
    assert (2 ^ 52 * 2 ^ c <= mr)
      by (rewrite Hv; apply Z.mul_le_mono_nonneg_r; lia).
    lia. }
  split; [lia|]. split.
  { rewrite Ee2.
    assert (Hsplit : 2 ^ t = 2 ^ (t - c) * 2 ^ c).
    { rewrite <- Z.pow_add_r by lia. f_equal. lia. }
    assert (Hle2 : Zpos m2 * 2 ^ c <= 38 * 2 ^ (t - c) * 2 ^ c).
    { rewrite <- Z.mul_assoc, <- Hsplit, <- Hv. exact HmrB. }
    apply Z.mul_le_mono_pos_r in Hle2; assumption. }
  split; [lia|].
  (* one unit in the last place of the product *)
  assert (Hj : 2 ^ (e2 - e) * 2 ^ 47 = 2 ^ c * 2 ^ k).
  { rewrite <- !Z.pow_add_r by lia. f_equal. subst c. lia. }
  pose proof (Z.div_mod P (2 ^ k) ltac:(lia)) as HPd.
  pose proof (Z.mod_pos_bound P (2 ^ k) Hkp) as HPm.
  assert (H53 : 2 ^ k <= 64 * 2 ^ 47).
  { change (64 * 2 ^ 47) with (2 ^ 53). apply Z.pow_le_mono_r; lia. }
  assert (HX : Zpos m2 * 2 ^ (e2 - e) * 2 ^ 47 = 2 ^ k * mr).
  { rewrite Hv, <- Z.mul_assoc, Hj. ring. }
  assert (HY : 38 * M * 2 ^ 47 = P) by (subst P; change 5348024557502464 with (38 * 2 ^ 47); ring).
  assert (0 < 2 ^ 47) by reflexivity.
  set (T := 2 ^ 47) in *. set (K := 2 ^ k) in *.
  set (X := Zpos m2 * 2 ^ (e2 - e)) in *.
  assert (HK : K * (P / K) <= K * mr <= K * (P / K) + K) by nia.
  assert (- (64 * T) <= (X - 38 * M) * T <= 64 * T).
  { replace ((X - 38 * M) * T) with (K * mr - P) by (rewrite <- HX, <- HY; ring). lia. }
  split.
  - assert (L : -64 * T <= (X - 38 * M) * T) by lia.
    apply Z.mul_le_mono_pos_r in L; lia.
  - assert (U : (X - 38 * M) * T <= 64 * T) by lia.
    apply Z.mul_le_mono_pos_r in U; lia.
Qed.

(** [int(top + p)] for a product [p] between [-38] and 0: the sum, cut to
    53 bits, then truncated. *)
Lemma add_int_shape top m2 e2 :
  70 <= top <= 255 ->
  2 ^ 52 <= Zpos m2 < 2 ^ 53 -> -1130 <= e2 <= -47 -> Zpos m2 <= 38 * 2 ^ (- e2) ->
  exists mr k t,
    (s ← Float.add_int top (S754_finite true m2 e2); Float.to_int s) = Ok (mr / 2 ^ t) /\
    0 <= k <= - e2 - 45 /\ 0 <= t /\ 2 ^ (- e2) = 2 ^ t * 2 ^ k /\
    let z := top * 2 ^ (- e2) - Zpos m2 in
    z / 2 ^ k <= mr <= z / 2 ^ k + 1 /\ (z mod 2 ^ k = 0 -> mr = z / 2 ^ k).
Proof.
  intros Htop Hm2 He2 Hle. unfold Float.add_int.
  assert (H53 : 2 ^ 8 < 2 ^ 53) by reflexivity.
  change (2 ^ 8) with 256 in H53.
  destruct (of_int_exact top ltac:(lia)) as (mx & -> & Hmx & Hdx).
  assert (Hdt : 7 <= Zdigits2 top <= 8).
  { split; [apply Zdigits2_ge; [lia|change (2 ^ (7 - 1)) with 64; lia]|].
    apply Zdigits2_le; [lia|lia|change (2 ^ 8) with 256; lia]. }
  set (dt := Zdigits2 top) in *.
  cbn [mbind result_bind SFadd].
  replace (Z.min (dt - 53) e2) with e2 by lia.
  unfold shl_align at 2. replace (e2 - e2) with 0 by lia. cbn [fst].
  unfold shl_align.
  destruct (e2 - (dt - 53)) as [|d|d] eqn:Hd; try lia.
  cbn [fst cond_Zopp].
  rewrite iter_xO_value, Hmx.
  assert (HE : 0 < 2 ^ (- e2)) by (apply pow2_pos; lia).
  assert (Htop2 : top * 2 ^ (53 - dt) * 2 ^ Zpos d = top * 2 ^ (- e2)).
  { rewrite <- Z.mul_assoc, <- Z.pow_add_r by lia. f_equal. f_equal. lia. }
  rewrite Htop2. cbv zeta.
  change (top * 2 ^ (- e2) + - Zpos m2) with (top * 2 ^ (- e2) - Zpos m2).
  set (E := 2 ^ (- e2)) in *.
  set (z := top * E - Zpos m2).
  assert (Ht1 : 70 * E <= top * E) by (apply Z.mul_le_mono_nonneg_r; lia).
  assert (Ht2 : top * E <= 255 * E) by (apply Z.mul_le_mono_nonneg_r; lia).
  assert (HE5 : 2 ^ 5 * E <= z) by (subst z; change (2 ^ 5) with 32; lia).
  assert (HE8 : z < 2 ^ 8 * E) by (subst z; change (2 ^ 8) with 256; lia).
  assert (Hdz1 : 6 - e2 <= Zdigits2 z).
  { apply Zdigits2_ge; [lia|].
    replace (6 - e2 - 1) with (5 + - e2) by lia. rewrite Z.pow_add_r by lia. exact HE5. }
  assert (Hdz2 : Zdigits2 z <= 8 - e2).
  { apply Zdigits2_le; [lia|lia|].
    replace (8 - e2) with (8 + - e2) by lia. rewrite Z.pow_add_r by lia. exact HE8. }
  destruct z as [|zp|zp] eqn:Ez; try lia.
  cbn [binary_normalize]. unfold binary_round. rewrite fexp_eq.
  change (Zpos (digits2_pos zp)) with (Zdigits2 (Zpos zp)).
  assert (Hsh : shl_align zp e2 (Z.max (Zdigits2 (Zpos zp) + e2 - 53) (-1074)) = (zp, e2)).
  { unfold shl_align.
    destruct (Z.max (Zdigits2 (Zpos zp) + e2 - 53) (-1074) - e2) eqn:Hd'; try lia;
      reflexivity. }
  rewrite Hsh.
  destruct (binary_round_aux_shape false (Zpos zp) e2 loc_Exact
              ltac:(lia) ltac:(lia) ltac:(lia) ltac:(lia))
    as (m3 & e3 & mr & -> & Hmr & He3 & Hv & Hm3 & Hex).
  set (k := Zdigits2 (Zpos zp) - 53) in *.
  exists mr, k, (- e2 - k).
  rewrite (to_int_value m3 e3 mr (- e2 - k));
    [|lia|lia|rewrite Hv; f_equal; f_equal; lia].
  split; [reflexivity|]. split; [lia|]. split; [lia|].
  split; [subst E; rewrite <- Z.pow_add_r by lia; f_equal; lia|].
  split; [exact Hmr|]. intros H0. apply Hex; [reflexivity|exact H0].
Qed.

Lemma add_top top m2 e2 :
  70 <= top <= 255 ->
  2 ^ 52 <= Zpos m2 < 2 ^ 53 -> -1130 <= e2 <= -47 -> Zpos m2 <= 38 * 2 ^ (- e2) ->
  exists v,
    (s ← Float.add_int top (S754_finite true m2 e2); Float.to_int s) = Ok v /\
    top - 38 <= v <= top.
Proof.
  intros Htop Hm2 He2 Hle.
  destruct (add_int_shape top m2 e2 Htop Hm2 He2 Hle)
    as (mr & k & t & -> & Hk & Ht & HE & Hmr & Hex).
  cbv zeta in Hmr, Hex.
  eexists. split; [reflexivity|].
  assert (Hkp : 0 < 2 ^ k) by (apply pow2_pos; lia).
  assert (Htp : 0 < 2 ^ t) by (apply pow2_pos; lia).
  rewrite HE in *.
  set (T := 2 ^ t) in *. set (K := 2 ^ k) in *.
  set (z := top * (T * K) - Zpos m2) in *.
  assert (Hz1 : (top - 38) * T * K <= z) by (subst z; lia).
  assert (Hz2 : z <= top * T * K) by (subst z; lia).
  assert (Hlo : (top - 38) * T <= mr).
  { assert ((top - 38) * T <= z / K); [|lia]. apply Z.div_le_lower_bound; lia. }
  assert (Hhi : mr <= top * T).
  { destruct (Z.eq_dec (z mod K) 0) as [E0|Ne].
    - rewrite (Hex E0). apply Z.div_le_upper_bound; lia.
    - assert (z / K < top * T); [|lia].
      apply Z.div_lt_upper_bound; [lia|].
      destruct (Z.eq_dec z (K * (top * T))) as [EP|NP]; [|lia].
      exfalso. apply Ne. rewrite EP, Z.mul_comm. apply Z.mod_mul. lia. }
  split.
  - apply Z.div_le_lower_bound; lia.
  - apply Z.div_le_upper_bound; lia.
Qed.

(** The sum truncates to [v] when the product is between [top - v - 1]
    and [top - v], off the lower end by a unit in the last place. *)
Lemma add_int_trunc top m2 e2 v :
  70 <= top <= 255 ->
  2 ^ 52 <= Zpos m2 < 2 ^ 53 -> -1130 <= e2 <= -47 -> Zpos m2 <= 38 * 2 ^ (- e2) ->
  (top - v - 1) * 2 ^ (- e2) + 2 ^ (- e2 - 45) < Zpos m2 <= (top - v) * 2 ^ (- e2) ->
  (s ← Float.add_int top (S754_finite true m2 e2); Float.to_int s) = Ok v.
Proof.
  intros Htop Hm2 He2 Hle Hv.
  destruct (add_int_shape top m2 e2 Htop Hm2 He2 Hle)
    as (mr & k & t & -> & Hk & Ht & HE & Hmr & Hex).
  cbv zeta in Hmr, Hex. f_equal.
  assert (Hkp : 0 < 2 ^ k) by (apply pow2_pos; lia).
  assert (Htp : 0 < 2 ^ t) by (apply pow2_pos; lia).
  assert (HF : 2 ^ k <= 2 ^ (- e2 - 45)) by (apply Z.pow_le_mono_r; lia).
  rewrite HE in *.
  set (T := 2 ^ t) in *. set (K := 2 ^ k) in *. set (F := 2 ^ (- e2 - 45)) in *.
  set (z := top * (T * K) - Zpos m2) in *.
  assert (Hz1 : v * T * K <= z) by (subst z; lia).
  assert (Hz2 : z < ((v + 1) * T - 1) * K) by (subst z; lia).
  assert (Hlo : v * T <= mr).
  { assert (v * T <= z / K); [|lia]. apply Z.div_le_lower_bound; lia. }
  assert (Hhi : mr < (v + 1) * T).
  { assert (z / K < (v + 1) * T - 1); [|lia]. apply Z.div_lt_upper_bound; lia. }
  symmetry. apply (Z.div_unique mr T v (mr - v * T)); lia.
Qed.

(** * Floats: the gradient is the truncated ramp *)

(** A channel whose two ends differ by 38 stays between them, and is the
    top value at ratio zero. *)
Lemma interpolate_range top ratio :
  70 <= top <= 255 -> unit_float ratio ->
  exists v, interpolate top (top - 38) ratio = Ok v /\ top - 38 <= v <= top /\
            (ratio = S754_zero false -> v = top).
Proof.
  intros Ht Hr. unfold interpolate.
  replace (top - 38 - top) with (-38) by lia.
  destruct ratio as [[|]|[|]| |[|] m e]; try contradiction.
  - (* ratio zero *)
    unfold Float.mul_int.
    change (Float.of_int (-38)) with (Ok (S754_finite true 5348024557502464 (-47))).
    cbn [mbind result_bind SFmul xorb]. unfold Float.add_int.
    assert (H53 : 2 ^ 8 < 2 ^ 53) by reflexivity.
    change (2 ^ 8) with 256 in H53.
    destruct (of_int_exact top ltac:(lia)) as (mx & -> & Hmx & Hdx).
    cbn [mbind result_bind SFadd].
    assert (Hdt : Zdigits2 top <= 8)
      by (apply Zdigits2_le; [lia|lia|change (2 ^ 8) with 256; lia]).
    pose proof (Zdigits2_nonneg top).
    rewrite (to_int_value mx (Zdigits2 top - 53) (Zpos mx) (53 - Zdigits2 top));
      [|lia|lia|replace (Zdigits2 top - 53 + (53 - Zdigits2 top)) with 0 by lia;
                change (2 ^ 0) with 1; lia].
    exists top. rewrite Hmx, Z.div_mul by (apply Z.pow_nonzero; lia).
    split; [reflexivity|]. split; [lia|]. reflexivity.
  - destruct Hr as (Hm & He & Hle).
    destruct (mul_neg38 m e Hm He Hle) as (m2 & e2 & -> & Hm2 & He2 & Hle2 & _).
    cbn [mbind result_bind].
    destruct (add_top top m2 e2 Ht Hm2 He2 Hle2) as (v & Hv & Hb).
    exists v. split; [exact Hv|]. split; [exact Hb|]. discriminate.
Qed.

(** Every row of the gradient has a colour between the two ends, and row
    0 has the top colour. *)
Lemma gradient_rgb_range size y :
  0 <= y < size -> size < 2 ^ 1020 ->
  exists r g b,
    gradient_rgb size y = Ok (r, g, b) /\
    115 <= r <= 153 /\ 77 <= g <= 115 /\ 51 <= b <= 89 /\
    (y = 0 -> r = 153 /\ g = 115 /\ b = 89).
Proof.
  intros Hy Hs. unfold gradient_rgb.
  destruct (true_div_unit y size Hy Hs) as (ratio & Hdiv & Hr).
  rewrite Hdiv. cbn [mbind result_bind].
  change (item0 top_color) with 153. change (item0 bottom_color) with (153 - 38).
  change (item1 top_color) with 115. change (item1 bottom_color) with (115 - 38).
  change (item2 top_color) with 89. change (item2 bottom_color) with (89 - 38).
  destruct (interpolate_range 153 ratio ltac:(lia) Hr) as (r & -> & Br & Zr).
  destruct (interpolate_range 115 ratio ltac:(lia) Hr) as (g & -> & Bg & Zg).
  destruct (interpolate_range 89 ratio ltac:(lia) Hr) as (b & -> & Bb & Zb).
  exists r, g, b. split; [reflexivity|].
  split; [lia|]. split; [lia|]. split; [lia|].
  intros ->. rewrite true_div_zero in Hdiv by lia.
  injection Hdiv as <-. auto.
Qed.

Lemma exact_table_ok : all_from (Z.to_nat 38) 0 exact_row = true.
Proof. vm_compute. reflexivity. Qed.

(** The rounded product sits where the sum truncates to the floor. *)
Lemma ramp_bracket size y top v rem M M2 W J E2 F :
  0 < size < 2 ^ 31 -> 0 <= y ->
  top * size - 38 * y = size * v + rem -> 1 <= rem <= size - 1 ->
  0 < J -> 0 < F -> E2 = F * 2 ^ 45 -> E2 * J = W -> 2 ^ 52 <= W ->
  - size <= M * size - y * W <= size ->
  -64 <= M2 * J - 38 * M <= 64 ->
  (top - v - 1) * E2 + F < M2 <= (top - v) * E2.
Proof.
  intros Hs Hy HD Hrem HJ HF HE2 HW HW52 HM HM2.
  change (2 ^ 31) with 2147483648 in Hs.
  change (2 ^ 52) with 4503599627370496 in HW52.
  change (2 ^ 45) with 35184372088832 in HE2.
  assert (HJs : 0 < J * size) by (apply Z.mul_pos_pos; lia).
  assert (H1 : (M2 * J) * size <= (38 * M + 64) * size)
    by (apply Z.mul_le_mono_nonneg_r; lia).
  assert (H1' : (38 * M - 64) * size <= (M2 * J) * size)
    by (apply Z.mul_le_mono_nonneg_r; lia).
  assert (H2 : (top - v) * size * W = (38 * y + rem) * W) by (f_equal; lia).
  assert (H3 : 1 * W <= rem * W) by (apply Z.mul_le_mono_nonneg_r; lia).
  assert (H3' : 1 * W <= (size - rem) * W) by (apply Z.mul_le_mono_nonneg_r; lia).
  set (G := F * J) in *.
  assert (HG : W = G * 35184372088832) by (subst G; rewrite <- HW, HE2; ring).
  assert (HGs : G * size <= G * 2147483648) by (apply Z.mul_le_mono_nonneg_l; lia).
  split.
  - apply (Z.mul_lt_mono_pos_r (J * size)); [exact HJs|].
    replace (((top - v - 1) * E2 + F) * (J * size))
      with ((top - v) * size * (E2 * J) - size * (E2 * J) + F * J * size) by ring.
    rewrite HW, H2. fold G.
    replace (M2 * (J * size)) with (M2 * J * size) by ring. lia.
  - apply (Z.mul_le_mono_pos_r _ _ (J * size)); [exact HJs|].
    replace ((top - v) * E2 * (J * size)) with ((top - v) * size * (E2 * J)) by ring.
    rewrite HW, H2.
    replace (M2 * (J * size)) with (M2 * J * size) by ring. lia.
Qed.

(** [int(top + (bottom - top) * (y / size))] is the exact ramp, truncated,
    for the three channels and every canvas edge below [2^31]. *)
Lemma interpolate_exact top y size :
  top = 153 \/ top = 115 \/ top = 89 -> 0 <= y < size -> size < 2 ^ 31 ->
  exists ratio,
    Float.true_div y size = Ok ratio /\
    interpolate top (top - 38) ratio = Ok ((top * size - 38 * y) / size).
Proof.
  intros Htop Hy Hs.
  assert (Hs' : 38 * size < 2 ^ 1020).
  { apply Z.lt_trans with (2 ^ 6 * 2 ^ 31); [change (2 ^ 6) with 64; lia|].
    rewrite <- Z.pow_add_r by lia. apply Z.pow_lt_mono_r; lia. }
  assert (Htop' : 70 <= top <= 255) by lia.
  pose proof (Z.div_mod (top * size - 38 * y) size ltac:(lia)) as HD.
  pose proof (Z.mod_pos_bound (top * size - 38 * y) size ltac:(lia)) as Hrem.
  set (v := (top * size - 38 * y) / size) in *.
  set (rem := (top * size - 38 * y) mod size) in *.
  destruct (Z.eq_dec rem 0) as [E0|N0].
  - (* the ramp is whole at this row: the ratio is [k / 38] *)
    set (k := top - v).
    assert (Hk38 : 38 * y = size * k) by (subst k; lia).
    assert (Hk : 0 <= k < 38) by nia.
    assert (Hdiv : Float.true_div y size = Float.true_div k 38).
    { destruct (Z.eq_dec y 0) as [->|Hy0].
      - assert (k = 0) by nia. subst k. replace (top - v) with 0 by lia.
        rewrite !true_div_zero by lia. reflexivity.
      - rewrite <- (true_div_scale 38 y size) by lia.
        assert (0 < k) by nia.
        rewrite Hk38, (Z.mul_comm 38 size).
        apply true_div_scale; [lia|lia|rewrite Z.mul_comm; exact Hs']. }
    pose proof (all_from_spec (Z.to_nat 38) exact_row 0 k exact_table_ok) as Hrow.
    rewrite Z2Nat.id in Hrow by lia. specialize (Hrow ltac:(lia)).
    unfold exact_row in Hrow.
    apply andb_true_iff in Hrow as [Hrow H89]. apply andb_true_iff in Hrow as [H153 H115].
    assert (Hat : exact_at top k = true)
      by (destruct Htop as [-> | [-> | ->]]; assumption).
    unfold exact_at in Hat. rewrite <- Hdiv in Hat.
    destruct (Float.true_div y size) as [ratio|]; [|discriminate].
    exists ratio. split; [reflexivity|].
    destruct (interpolate top (top - 38) ratio) as [w|]; [|discriminate].
    apply Z.eqb_eq in Hat. subst w k. f_equal. lia.
  - (* between two whole values: the rounding errors are too small to matter *)
    assert (Hy0 : 0 < y).
    { destruct (Z.eq_dec y 0) as [->|]; [|lia]. exfalso. apply N0. subst rem.
      replace (top * size - 38 * 0) with (top * size) by lia. apply Z.mod_mul. lia. }
    destruct (true_div_close y size ltac:(lia) ltac:(lia))
      as (m & e & -> & Hm & He & Hle & Hcl).
    eexists. split; [reflexivity|]. unfold interpolate.
    replace (top - 38 - top) with (-38) by lia.
    destruct (mul_neg38 m e Hm He Hle) as (m2 & e2 & -> & Hm2 & He2 & Hle2 & Hee & Hcl2).
    cbn [mbind result_bind].
    apply add_int_trunc; try assumption.
    assert (A1 : 0 < 2 ^ (e2 - e)) by (apply pow2_pos; lia).
    assert (A2 : 0 < 2 ^ (- e2 - 45)) by (apply pow2_pos; lia).
    assert (A3 : 2 ^ (- e2) = 2 ^ (- e2 - 45) * 2 ^ 45)
      by (rewrite <- Z.pow_add_r by lia; f_equal; lia).
    assert (A4 : 2 ^ (- e2) * 2 ^ (e2 - e) = 2 ^ (- e))
      by (rewrite <- Z.pow_add_r by lia; f_equal; lia).
    assert (A5 : 2 ^ 52 <= 2 ^ (- e)) by (apply Z.pow_le_mono_r; lia).
    apply (ramp_bracket size y top v rem (Zpos m) (Zpos m2) (2 ^ (- e))
             (2 ^ (e2 - e)) (2 ^ (- e2)) (2 ^ (- e2 - 45))); assumption || lia.
Qed.

(** The colour of a row is the linear ramp between the two ends,
    truncated, channel by channel. *)
Lemma gradient_rgb_exact size y :
  0 <= y < size -> size < 2 ^ 31 ->
  gradient_rgb size y
  = Ok ((153 * size - 38 * y) / size, (115 * size - 38 * y) / size,
        (89 * size - 38 * y) / size).
Proof.
  intros Hy Hs. unfold gradient_rgb.
  change (item0 top_color) with 153. change (item0 bottom_color) with (153 - 38).
  change (item1 top_color) with 115. change (item1 bottom_color) with (115 - 38).
  change (item2 top_color) with 89. change (item2 bottom_color) with (89 - 38).
  destruct (interpolate_exact 153 y size ltac:(auto) Hy Hs) as (ratio & Hdiv & Hr).
  destruct (interpolate_exact 115 y size ltac:(auto) Hy Hs) as (ratio' & Hdiv' & Hg).
  destruct (interpolate_exact 89 y size ltac:(auto) Hy Hs) as (ratio'' & Hdiv'' & Hb).
  rewrite Hdiv in Hdiv', Hdiv''. injection Hdiv' as <-. injection Hdiv'' as <-.
  rewrite Hdiv. cbn [mbind result_bind]. rewrite Hr, Hg, Hb. reflexivity.
Qed.

(** * Further properties of the gradient and of bad sizes *)

Lemma CLIP8_id v : 0 <= v <= 255 -> CLIP8 v = v.
Proof.
  intros Hv. unfold CLIP8.
  destruct (Z.leb_spec v 0); [lia|]. destruct (Z.ltb_spec v 256); [reflexivity|lia].
Qed.

Lemma ramp_bounds top size y :
  0 <= y < size -> 38 <= top ->
  top - 38 <= (top * size - 38 * y) / size <= top.
Proof.
  intros Hy Ht. split.
  - apply Z.div_le_lower_bound; [lia|]. nia.
  - apply Z.div_le_upper_bound; [lia|]. nia.
Qed.

Section ExtraGradient.
Context `{Rasteriser}.

Lemma gradient_line_drawn size g row y :
  0 <= y < size ->
  In (CallLine 0 0 y size y (row_color (row y)) 0) (icon_calls size g row).
Proof.
  intros Hy. unfold icon_calls. right.
  apply (in_or_app (map (gradient_call size row) (seqZ 0 size))). left.
  apply in_map_iff. exists y. split; [reflexivity|].
  apply list_elem_of_In, elem_of_seqZ. lia.
Qed.


(** X9: for every canvas edge below [2^31] each row of the gradient is
    drawn, as one line across the canvas, in a colour between the bottom
    colour (115, 77, 51) and the top colour (153, 115, 89), channel by
    channel; row 0 has the top colour; the canvas holds these bands along
    the row, unclipped. *)
Theorem gradient_between_the_two_colours (size : Z) (files : gmap string node) :
  0 < size < 2 ^ 31 ->
  exists st canvas,
    create_app_icon size (fresh files) = Ok (7%nat, st) /\
    heap st !! 0%nat = Some canvas /\
    forall y, 0 <= y < size ->
      exists r g b,
        gradient_rgb size y = Ok (r, g, b) /\
        115 <= r <= 153 /\ 77 <= g <= 115 /\ 51 <= b <= 89 /\
        (y = 0 -> (r, g, b) = top_color) /\
        In (CallLine 0 0 y size y (ColorTuple [r; g; b]) 0) (calls st) /\
        forall x, 0 <= x < size -> exists a, getpixel canvas x y = Some (Pixel r g b a).
Proof.
  intros Hs.
  destruct (create_app_icon_runs size [] files [] ltac:(lia))
    as (g0 & Hg & _ & _ & _ & Hrun).
  eexists _, _. split; [exact Hrun|].
  cbn [heap calls icon_heap lookup list_lookup].
  split; [reflexivity|].
  intros y Hy.
  destruct (gradient_rgb_range size y Hy (proj2 (small_size size ltac:(lia))))
    as (r & g & b & Hrow & Br & Bg & Bb & Hz).
  exists r, g, b. split; [exact Hrow|]. do 3 (split; [assumption|]).
  assert (Erow : row_of size y = (r, g, b)) by (unfold row_of; rewrite Hrow; reflexivity).
  split.
  { intros Hy0. destruct (Hz Hy0) as (-> & -> & ->). reflexivity. }
  split.
  { change ([] ++ icon_calls size g0 (row_of size)) with (icon_calls size g0 (row_of size)).
    pose proof (gradient_line_drawn size g0 (row_of size) y Hy) as Hin.
    rewrite Erow in Hin. exact Hin. }
  intros x Hx. eexists.
  rewrite canvas_pixel by assumption. rewrite Erow.
  cbn [item0 item1 item2 fst snd]. rewrite !CLIP8_id by lia. reflexivity.
Qed.

(** X10: for a canvas edge below [2^31] the float arithmetic of the
    gradient loses nothing: row [y] is drawn in exactly the linear ramp
    from the top colour towards the bottom colour, truncated, that is
    [(c * size - 38 * y) / size] for [c] = 153, 115, 89, and the canvas
    holds these bands along the row. *)
Theorem gradient_is_the_truncated_ramp (size : Z) (files : gmap string node) :
  0 < size < 2 ^ 31 ->
  exists st canvas,
    create_app_icon size (fresh files) = Ok (7%nat, st) /\
    heap st !! 0%nat = Some canvas /\
    forall y, 0 <= y < size ->
      let r := (153 * size - 38 * y) / size in
      let g := (115 * size - 38 * y) / size in
      let b := (89 * size - 38 * y) / size in
      gradient_rgb size y = Ok (r, g, b) /\
      In (CallLine 0 0 y size y (ColorTuple [r; g; b]) 0) (calls st) /\
      forall x, 0 <= x < size -> exists a, getpixel canvas x y = Some (Pixel r g b a).
Proof.
  intros Hs.
  destruct (create_app_icon_runs size [] files [] ltac:(lia))
    as (g0 & Hg & _ & _ & _ & Hrun).
  eexists _, _. split; [exact Hrun|].
  cbn [heap calls icon_heap lookup list_lookup].
  split; [reflexivity|].
  intros y Hy. cbv zeta.
  pose proof (gradient_rgb_exact size y Hy ltac:(lia)) as Hrow.
  split; [exact Hrow|].
  assert (Erow : row_of size y = ((153 * size - 38 * y) / size, (115 * size - 38 * y) / size,
                                  (89 * size - 38 * y) / size))
    by (unfold row_of; rewrite Hrow; reflexivity).
  split.
  { change ([] ++ icon_calls size g0 (row_of size)) with (icon_calls size g0 (row_of size)).
    pose proof (gradient_line_drawn size g0 (row_of size) y Hy) as Hin.
    rewrite Erow in Hin. exact Hin. }
  intros x Hx. eexists.
  rewrite canvas_pixel by assumption. rewrite Erow.
  cbn [item0 item1 item2 fst snd].
  pose proof (ramp_bounds 153 size y Hy ltac:(lia)).
  pose proof (ramp_bounds 115 size y Hy ltac:(lia)).
  pose proof (ramp_bounds 89 size y Hy ltac:(lia)).
  rewrite !CLIP8_id by lia. reflexivity.
Qed.

(** X11: going down the canvas no channel of the gradient ever rises,
    and the last row has exactly the bottom colour (115, 77, 51) if and
    only if the canvas edge is above 38 (for a canvas edge below [2^31]). *)
Theorem gradient_falls_to_the_bottom_colour (size : Z) (files : gmap string node) :
  0 < size < 2 ^ 31 ->
  exists st canvas,
    create_app_icon size (fresh files) = Ok (7%nat, st) /\
    heap st !! 0%nat = Some canvas /\
    (forall x y y', 0 <= x < size -> 0 <= y <= y' -> y' < size ->
       exists p p',
         getpixel canvas x y = Some p /\ getpixel canvas x y' = Some p' /\
         red p' <= red p /\ green p' <= green p /\ blue p' <= blue p) /\
    (forall x, 0 <= x < size ->
       exists p,
         getpixel canvas x (size - 1) = Some p /\
         ((red p, green p, blue p) = bottom_color <-> 38 < size)) /\
    (gradient_rgb size (size - 1) = Ok bottom_color <-> 38 < size).
Proof.
  intros Hs.
  destruct (create_app_icon_runs size [] files [] ltac:(lia))
    as (g0 & Hg & _ & _ & _ & Hrun).
  eexists _, _. split; [exact Hrun|].
  cbn [heap calls icon_heap lookup list_lookup].
  split; [reflexivity|].
  assert (Hpix : forall x y, 0 <= x < size -> 0 <= y < size ->
            exists a, getpixel (canvas_layer size g0 (row_of size)) x y
                      = Some (Pixel ((153 * size - 38 * y) / size)
                                ((115 * size - 38 * y) / size)
                                ((89 * size - 38 * y) / size) a)).
  { intros x y Hx Hy. eexists. rewrite canvas_pixel by assumption.
    unfold row_of. rewrite gradient_rgb_exact by lia.
    cbn [item0 item1 item2 fst snd].
    pose proof (ramp_bounds 153 size y Hy ltac:(lia)).
    pose proof (ramp_bounds 115 size y Hy ltac:(lia)).
    pose proof (ramp_bounds 89 size y Hy ltac:(lia)).
    rewrite !CLIP8_id by lia. reflexivity. }
  assert (Hlast : forall top, (top * size - 38 * (size - 1)) / size = top - 38 + 38 / size).
  { intros top. replace (top * size - 38 * (size - 1)) with ((top - 38) * size + 38) by ring.
    apply Z.div_add_l. lia. }
  assert (H38 : 38 / size = 0 <-> 38 < size).
  { rewrite Z.div_small_iff by lia. lia. }
  assert (H38' : 0 <= 38 / size) by (apply Z.div_pos; lia).
  split; [|split].
  - intros x y y' Hx Hy Hy'.
    destruct (Hpix x y Hx ltac:(lia)) as (a & ->).
    destruct (Hpix x y' Hx ltac:(lia)) as (a' & ->).
    eexists _, _. split; [reflexivity|]. split; [reflexivity|]. cbn [red green blue].
    split; [|split]; apply Z.div_le_mono; lia.
  - intros x Hx. destruct (Hpix x (size - 1) Hx ltac:(lia)) as (a & ->).
    eexists. split; [reflexivity|]. cbn [red green blue]. rewrite !Hlast.
    unfold bottom_color. split.
    + intros E. injection E as E _ _. apply H38. lia.
    + intros L. apply H38 in L. rewrite L. reflexivity.
  - rewrite gradient_rgb_exact by lia. rewrite !Hlast. unfold bottom_color. split.
    + intros E. injection E as E _ _. apply H38. lia.
    + intros L. apply H38 in L. rewrite L. reflexivity.
Qed.

End ExtraGradient.

(** * Concrete runs with the reference rasteriser *)

(** C4, as stated, fails: a positive size that does not fit a C [int]
    makes the first statement, [Image.new], raise. *)
Lemma create_app_icon_huge_size_raises :
  0 < 2 ^ 31 /\
  @create_app_icon reference_rasteriser (2 ^ 31) (fresh ∅) = Err OverflowError.
Proof. split; vm_compute; reflexivity. Qed.



Lemma create_app_icon_dimensions_witness :
  0 < 1024 /\ 1024 < 2 ^ 31 /\
  exists st icon,
    @create_app_icon reference_rasteriser 1024 (fresh ∅) = Ok (7%nat, st) /\
    heap st !! 7%nat = Some icon /\
    im_mode icon = RGBA /\ im_width icon = 1024 /\ im_height icon = 1024.
Proof.
  assert (H0 : 0 < 1024) by reflexivity.
  assert (H1 : 1024 < 2 ^ 31) by reflexivity.
  split; [exact H0|]. split; [exact H1|].
  destruct (@create_app_icon_dimensions reference_rasteriser 1024 ∅ H0) as [Hlt _].
  exact (Hlt H1).
Defined.

Lemma contents_json_manifest_witness :
  ready stale_files = true /\
  exists st icon,
    @main reference_rasteriser (fresh stale_files) = Ok (tt, st) /\
    fs st !! json_path = Some (File (Text contents_json)) /\
    fs st !! png_path = Some (File (Png icon)) /\
    size_string icon = "1024x1024".
Proof.
  assert (Hr : ready stale_files = true) by (vm_compute; reflexivity).
  split; [exact Hr|].
  destruct (@contents_json_manifest reference_rasteriser stale_files Hr)
    as (st & icon & Hm & _ & Hj & _ & Hp & Hs).
  exists st, icon. auto.
Defined.

Lemma book_layer_drawing_witness :
  0 < 1024 < 2 ^ 31 /\
  exists st,
    @create_app_icon reference_rasteriser 1024 (fresh ∅) = Ok (7%nat, st) /\
    length (List.filter (on_image 4) (calls st)) = 6%nat.
Proof.
  assert (Hs : 0 < 1024 < 2 ^ 31) by (split; vm_compute; reflexivity).
  split; [exact Hs|].
  destruct (@book_layer_drawing reference_rasteriser 1024 ∅ Hs)
    as (st & book & bw & bh & br & pw & lo & ins & wd
        & Hrun & _ & _ & _ & _ & _ & _ & _ & _ & Hrest).
  cbv zeta in Hrest. destruct Hrest as (_ & _ & Hcalls & _).
  exists st. split; [exact Hrun|]. rewrite Hcalls. reflexivity.
Defined.

Lemma spine_layer_and_composite_order_witness :
  0 < 1024 < 2 ^ 31 /\
  exists st,
    @create_app_icon reference_rasteriser 1024 (fresh ∅) = Ok (7%nat, st) /\
    length (List.filter (on_image 5) (calls st)) = 2%nat.
Proof.
  assert (Hs : 0 < 1024 < 2 ^ 31) by (split; vm_compute; reflexivity).
  split; [exact Hs|].
  destruct (@spine_layer_and_composite_order reference_rasteriser 1024 ∅ Hs)
    as (st & before & panel & book & spine & icon & bw & bh & sw & ins & wd
        & Hrun & _ & _ & _ & _ & _ & _ & Hrest).
  cbv zeta in Hrest. destruct Hrest as (Hcalls & _).
  exists st. split; [exact Hrun|]. rewrite Hcalls. reflexivity.
Defined.

Lemma generator_deterministic_witness :
  heap (fresh ∅) = heap (fresh stale_files) /\
  ready ∅ = true /\ ready stale_files = true /\
  agree (@create_app_icon reference_rasteriser 1024 (fresh ∅))
        (@create_app_icon reference_rasteriser 1024 (fresh stale_files)).
Proof.
  assert (H1 : ready ∅ = true) by (vm_compute; reflexivity).
  assert (H2 : ready stale_files = true) by (vm_compute; reflexivity).
  assert (H0 : heap (fresh ∅) = heap (fresh stale_files)) by reflexivity.
  split; [exact H0|]. split; [exact H1|]. split; [exact H2|].
  pose proof (@generator_deterministic reference_rasteriser 1024 (fresh ∅)
                (fresh stale_files) ∅ stale_files H0 H1 H2) as [Ha _].
  exact Ha.
Defined.

Lemma output_directory_created_witness :
  ready ∅ = true /\
  exists st,
    @main reference_rasteriser (fresh ∅) = Ok (tt, st) /\
    fs st !! output_dir = Some Dir /\
    List.filter is_fs_call (calls st)
    = [CallMkdir "Vellum"; CallMkdir assets_dir; CallMkdir output_dir;
       CallWriteFile png_path; CallWriteFile json_path].
Proof.
  assert (Hr : ready ∅ = true) by (vm_compute; reflexivity).
  split; [exact Hr|].
  destruct (@output_directory_created reference_rasteriser ∅ Hr)
    as (st & made & st' & Hm & Ho & _ & Hc & _ & Hall & _).
  destruct (Hall eq_refl eq_refl eq_refl) as [-> _].
  exists st. auto.
Defined.

(** The numbers of the 1024-pixel icon: the calls on the book layer and on
    the spine layer. *)
Example book_layer_calls_1024 :
  List.filter (on_image 4) (icon_calls 1024 layout_1024 (row_of 1024))
  = [CallNew 4 RGBA 1024 1024 (ColorTuple [0; 0; 0; 0]);
     CallRoundedRectangle 4 348 307 675 716 20 (ColorTuple [255; 255; 255; 255]);
     CallLine 4 650 332 650 691 (ColorTuple [220; 180; 140; 120]) 3;
     CallLine 4 655 332 655 691 (ColorTuple [220; 180; 140; 120]) 3;
     CallLine 4 660 332 660 691 (ColorTuple [220; 180; 140; 120]) 3;
     CallLine 4 665 332 665 691 (ColorTuple [220; 180; 140; 120]) 3].
Proof. vm_compute. reflexivity. Qed.

Example spine_layer_calls_1024 :
  List.filter (on_image 5) (icon_calls 1024 layout_1024 (row_of 1024))
  = [CallNew 5 RGBA 1024 1024 (ColorTuple [0; 0; 0; 0]);
     CallLine 5 406 322 406 701 (ColorTuple [200; 150; 100; 80]) 8].
Proof. vm_compute. reflexivity. Qed.

(** The reference rasteriser at some pixels of the returned raster. *)
Example reference_pixels :
  let icon := @final_canvas reference_rasteriser 1024 layout_1024 (row_of 1024) in
  getpixel icon 0 0 = Some (Pixel 153 115 89 0) /\
  getpixel icon 512 512 = Some (Pixel 255 255 255 255) /\
  getpixel icon 300 300 = Some (Pixel 164 133 113 255) /\
  getpixel icon 406 512 = Some (Pixel 238 222 206 255) /\
  getpixel icon 650 512 = Some (Pixel 187 152 123 255).
Proof. vm_compute. repeat split; reflexivity. Qed.

(** * Concrete runs for the further properties *)

Lemma panel_layer_drawing_witness :
  0 < 1024 < 2 ^ 31 /\
  exists st,
    @create_app_icon reference_rasteriser 1024 (fresh ∅) = Ok (7%nat, st) /\
    hd_error (List.filter is_composite (calls st)) = Some (CallAlphaComposite 0 2 3).
Proof.
  assert (Hs : 0 < 1024 < 2 ^ 31) by (split; vm_compute; reflexivity).
  split; [exact Hs|].
  destruct (@panel_layer_drawing reference_rasteriser 1024 ∅ Hs)
    as (st & canvas & overlay & panel & rs & rr & Hrun & _ & _ & _ & _ & _ & Hc & _).
  exists st. split; [exact Hrun|exact Hc].
Defined.

Lemma icon_is_three_blends_witness :
  0 < 1024 < 2 ^ 31 /\
  exists st icon,
    @create_app_icon reference_rasteriser 1024 (fresh ∅) = Ok (7%nat, st) /\
    heap st !! 7%nat = Some icon.
Proof.
  assert (Hs : 0 < 1024 < 2 ^ 31) by (split; vm_compute; reflexivity).
  split; [exact Hs|].
  destruct (@icon_is_three_blends reference_rasteriser 1024 ∅ Hs)
    as (st & canvas & overlay & book & spine & icon & Hrun & _ & _ & _ & _ & Hi & _).
  exists st, icon. split; [exact Hrun|exact Hi].
Defined.

Lemma icon_alpha_is_the_mask_witness :
  100 < 1024 < 2 ^ 31 /\
  exists st mask icon,
    @create_app_icon reference_rasteriser 1024 (fresh ∅) = Ok (7%nat, st) /\
    heap st !! 1%nat = Some mask /\ heap st !! 7%nat = Some icon /\
    alpha <$> getpixel icon 512 512 = getvalue mask 512 512.
Proof.
  assert (Hs : 100 < 1024 < 2 ^ 31) by (split; vm_compute; reflexivity).
  split; [exact Hs|].
  destruct (@icon_alpha_is_the_mask reference_rasteriser 1024 ∅ Hs)
    as (st & mask & icon & radius & Hrun & Hm & Hi & _ & Hpix).
  exists st, mask, icon. do 3 (split; [assumption|]).
  apply (Hpix 512 512); split; vm_compute; congruence.
Defined.

Lemma background_outside_panel_witness :
  0 < 1024 < 2 ^ 31 /\
  exists st canvas icon,
    @create_app_icon reference_rasteriser 1024 (fresh ∅) = Ok (7%nat, st) /\
    heap st !! 0%nat = Some canvas /\ heap st !! 7%nat = Some icon /\
    getpixel icon 5 5 = getpixel canvas 5 5.
Proof.
  assert (Hs : 0 < 1024 < 2 ^ 31) by (split; vm_compute; reflexivity).
  split; [exact Hs|].
  destruct (@background_outside_panel reference_rasteriser 1024 ∅ Hs)
    as (st & canvas & icon & rs & Hrun & Hc & Hi & Hrs & Hout).
  assert (Hrs' : int_mul 1024 (dec 55 100) = Ok 563) by (vm_compute; reflexivity).
  rewrite Hrs' in Hrs. injection Hrs as <-.
  exists st, canvas, icon. do 3 (split; [assumption|]).
  apply (Hout 5 5); [split; vm_compute; congruence|split; vm_compute; congruence|].
  intros [[A _] _]. apply A. reflexivity.
Defined.

Lemma layout_boxes_nested_witness :
  0 < 1024 < 2 ^ 31 /\
  exists st g,
    @create_app_icon reference_rasteriser 1024 (fresh ∅) = Ok (7%nat, st) /\
    calls st = icon_calls 1024 g (row_of 1024) /\
    rect_x 1024 g <= book_x 1024 g.
Proof.
  assert (Hs : 0 < 1024 < 2 ^ 31) by (split; vm_compute; reflexivity).
  split; [exact Hs|].
  destruct (@layout_boxes_nested reference_rasteriser 1024 ∅ Hs)
    as (st & g & Hrun & Hc & _ & (Hb & _) & _).
  exists st, g. split; [exact Hrun|]. split; [exact Hc|exact Hb].
Defined.

Lemma main_outcome_witness :
  dirs_nested blocked_files = true /\
  @main reference_rasteriser (fresh blocked_files) = Err NotADirectoryError.
Proof.
  assert (Hn : dirs_nested blocked_files = true) by (vm_compute; reflexivity).
  split; [exact Hn|].
  pose proof (@main_outcome reference_rasteriser blocked_files Hn) as Hm.
  assert (He : main_error blocked_files = Some NotADirectoryError)
    by (vm_compute; reflexivity).
  rewrite He in Hm. exact Hm.
Defined.

Lemma main_leaves_the_rest_witness :
  ready stale_files = true /\
  exists st,
    @main reference_rasteriser (fresh stale_files) = Ok (tt, st) /\
    fs st !! "README.md" = stale_files !! "README.md".
Proof.
  assert (Hr : ready stale_files = true) by (vm_compute; reflexivity).
  split; [exact Hr|].
  destruct (@main_leaves_the_rest reference_rasteriser stale_files Hr)
    as (st & Hm & Hother & _).
  exists st. split; [exact Hm|].
  apply Hother; vm_compute; discriminate.
Defined.


Lemma gradient_between_the_two_colours_witness :
  0 < 1024 < 2 ^ 31 /\
  exists st r g b,
    @create_app_icon reference_rasteriser 1024 (fresh ∅) = Ok (7%nat, st) /\
    gradient_rgb 1024 700 = Ok (r, g, b) /\
    115 <= r <= 153 /\ 77 <= g <= 115 /\ 51 <= b <= 89.
Proof.
  assert (Hs : 0 < 1024 < 2 ^ 31) by (split; vm_compute; reflexivity).
  split; [exact Hs|].
  destruct (@gradient_between_the_two_colours reference_rasteriser 1024 ∅ Hs)
    as (st & canvas & Hrun & _ & Hrows).
  destruct (Hrows 700) as (r & g & b & Hrow & Hr & Hg & Hb & _);
    [split; vm_compute; congruence|].
  exists st, r, g, b. auto.
Defined.

Lemma gradient_is_the_truncated_ramp_witness :
  0 < 1024 < 2 ^ 31 /\
  exists st,
    @create_app_icon reference_rasteriser 1024 (fresh ∅) = Ok (7%nat, st) /\
    gradient_rgb 1024 700 = Ok (127, 89, 63).
Proof.
  assert (Hs : 0 < 1024 < 2 ^ 31) by (split; vm_compute; reflexivity).
  split; [exact Hs|].
  destruct (@gradient_is_the_truncated_ramp reference_rasteriser 1024 ∅ Hs)
    as (st & canvas & Hrun & _ & Hrows).
  destruct (Hrows 700) as (Hrow & _); [split; vm_compute; congruence|].
  exists st. split; [exact Hrun|exact Hrow].
Defined.

Lemma gradient_falls_to_the_bottom_colour_witness :
  0 < 1024 < 2 ^ 31 /\
  exists st,
    @create_app_icon reference_rasteriser 1024 (fresh ∅) = Ok (7%nat, st) /\
    gradient_rgb 1024 (1024 - 1) = Ok bottom_color.
Proof.
  assert (Hs : 0 < 1024 < 2 ^ 31) by (split; vm_compute; reflexivity).
  split; [exact Hs|].
  destruct (@gradient_falls_to_the_bottom_colour reference_rasteriser 1024 ∅ Hs)
    as (st & canvas & Hrun & _ & _ & _ & Hlast).
  exists st. split; [exact Hrun|]. apply Hlast. reflexivity.
Defined.
